(** * Manufacturing quality analysis: validation, feature derivation and KPIs

    A shallow embedding of [src/config.py], [src/validation.py],
    [src/preprocess.py] and [src/kpi.py], and the properties of the
    validation battery and of the KPI aggregations.

    Modelling conventions
    - a pandas cell is a number, a text or the missing value; numbers are
      exact rationals ([Q]), so an arithmetic identity of the model is an
      identity of the real-valued computation the code performs;
    - a column is the list of its cells in row order, a table is the ordered
      association list of its labelled columns with its row count;
    - Python exceptions are the [Raise] results of an error monad;
    - Python sets of column names are [gset string]; turning such a set into
      a list is [elements], whose order is as unspecified as Python's;
    - the pandas operations that the code calls ([unique], [quantile],
      [groupby], [sort_values], the reductions) are functions on columns
      with the behaviour pandas documents for them, missing values included;
    - a table that a function copies or updates in place lives in a store of
      objects, so that what happens to the caller's table is a statement. *)

From Stdlib Require Import QArith Qround Qabs Lqa.
From Stdlib Require Import DecimalString Sorted.
From stdpp Require Import gmap strings list sets.

Open Scope string_scope.

(** ** Exceptions and the error monad *)

Inductive exn :=
| KeyError (key : string)
| TypeError
| ValueError
| ZeroDivisionError.

Inductive result (A : Type) :=
| Ok (a : A)
| Raise (e : exn).
Arguments Ok {A} a.
Arguments Raise {A} e.

#[global] Instance result_ret : MRet result := λ A a, Ok a.

#[global] Instance result_bind : MBind result := λ A B k m,
  match m with
  | Ok a => k a
  | Raise e => Raise e
  end.

(** A loop whose body may raise: the results of the iterations, in order, or
    the first exception. *)
Fixpoint for_each {A B} (f : A → result B) (l : list A) : result (list B) :=
  match l with
  | [] => Ok []
  | a :: l' => b ← f a; bs ← for_each f l'; Ok (b :: bs)
  end.

(** ** Cells, columns and tables *)

(** A number is held by its exact value. Comparisons, counts, minima and
    maxima are exact in pandas as well; sums, quotients and differences are
    computed here on the exact values, while int64 wraps around and
    binary64 rounds. The statements say of such a result only what holds of
    the machine result too: the expression that is evaluated, the bounds
    that rounding keeps, and the exact value where the operation is exact. *)
Inductive cell :=
| Num (q : Q)
| Str (s : string)
| NaN.

Abbreviation Series := (list cell).

Record DataFrame := {
  columns : list (string * Series);
  nrows : nat;
}.

(** [df.columns] *)
Definition column_names (df : DataFrame) : list string := (columns df).*1.

(** [col in df.columns] *)
Definition has_column (df : DataFrame) (col : string) : bool :=
  bool_decide (col ∈ column_names df).

Fixpoint assoc {A} (k : string) (l : list (string * A)) : option A :=
  match l with
  | [] => None
  | (k', v) :: l' => if String.eqb k k' then Some v else assoc k l'
  end.

(** [df[col]]: [KeyError] on a label the table does not have *)
Definition getitem (df : DataFrame) (col : string) : result Series :=
  match assoc col (columns df) with
  | Some s => Ok s
  | None => Raise (KeyError col)
  end.

(** [len(df)] *)
Definition len (df : DataFrame) : nat := nrows df.

(** The invariant of a pandas table read from a file: labels are unique and
    every column has one cell per row. *)
Definition wf_df (df : DataFrame) : Prop :=
  NoDup (column_names df) ∧ Forall (λ c, length c.2 = nrows df) (columns df).

(** [df.drop(columns=names)] *)
Definition drop_columns (names : gset string) (df : DataFrame) : DataFrame :=
  {| columns := filter (λ c, c.1 ∉ names) (columns df); nrows := nrows df |}.

(** [df[name] = series] on the columns of a table: the column is replaced in
    place when the label exists and appended otherwise. *)
Fixpoint set_column (name : string) (s : Series) (cols : list (string * Series))
  : list (string * Series) :=
  match cols with
  | [] => [(name, s)]
  | (k, c) :: rest =>
      if String.eqb name k then (k, s) :: rest
      else (k, c) :: set_column name s rest
  end.

Definition assign (name : string) (s : Series) (df : DataFrame) : DataFrame :=
  {| columns := set_column name s (columns df); nrows := nrows df |}.

(** ** config.py *)

Module config.

Definition REQUIRED_COLUMNS : list string :=
  [ "UDI"; "Product ID"; "Type"; "Air temperature [K]";
    "Process temperature [K]"; "Rotational speed [rpm]"; "Torque [Nm]";
    "Tool wear [min]"; "Machine failure"; "TWF"; "HDF"; "PWF"; "OSF"; "RNF" ].

Definition FAILURE_MODE_COLS : list string := ["TWF"; "HDF"; "PWF"; "OSF"; "RNF"].

Definition TARGET_COL : string := "Machine failure".

Definition VALID_TYPES : list string := ["L"; "M"; "H"].

(** One entry of [VALIDATION_RULES]: [rules.get("min")], [rules.get("max")]
    and [rules.get("strict_positive", False)]. *)
Record rule := {
  rule_min : option Z;
  rule_max : option Z;
  strict_positive : bool;
}.

Definition VALIDATION_RULES : list (string * rule) :=
  [ ("Torque [Nm]", {| rule_min := Some 0%Z; rule_max := None; strict_positive := false |});
    ("Tool wear [min]", {| rule_min := Some 0%Z; rule_max := None; strict_positive := false |});
    ("Rotational speed [rpm]", {| rule_min := Some 0%Z; rule_max := None; strict_positive := true |});
    ("Air temperature [K]", {| rule_min := Some 0%Z; rule_max := None; strict_positive := true |});
    ("Process temperature [K]", {| rule_min := Some 0%Z; rule_max := None; strict_positive := true |}) ].

Definition QUANTILE_LOW : Q := 10 # 100.
Definition QUANTILE_HIGH : Q := 90 # 100.

End config.

(** ** Rendering of numbers in messages *)

(** [str(n)] of an int *)
Definition str_Z (z : Z) : string := NilZero.string_of_int (Z.to_int z).
Definition str_nat (n : nat) : string := str_Z (Z.of_nat n).

(** Nearest integer, ties to even: the rounding of Python's format. *)
Definition round_half_even (q : Q) : Z :=
  let f := Qfloor q in
  match (q - inject_Z f ?= 1 # 2)%Q with
  | Lt => f
  | Gt => (f + 1)%Z
  | Eq => if Z.even f then f else (f + 1)%Z
  end.

Definition pad2 (z : Z) : string :=
  if (z <? 10)%Z then "0" ++ str_Z z else str_Z z.

(** [f"{x:.2f}"] *)
Definition format_2f (c : cell) : result string :=
  match c with
  | Num q =>
      let a := round_half_even (Qabs q * 100)%Q in
      Ok ((if Qlt_le_dec q 0%Q then "-" else "")
          ++ str_Z (a / 100)%Z ++ "." ++ pad2 (a mod 100)%Z)
  | NaN => Ok "nan"
  | Str _ => Raise ValueError
  end.

(** [repr] of a cell inside a container. The source pins down the rendering
    of texts only; a number is rendered by its integer part's digits when it
    is integral and to two decimals otherwise. *)
Definition repr_cell (c : cell) : string :=
  match c with
  | Str s => "'" ++ s ++ "'"
  | NaN => "nan"
  | Num q =>
      if (Zpos (Qden (Qred q)) =? 1)%Z then str_Z (Qnum (Qred q))
      else match format_2f (Num q) with Ok s => s | Raise _ => "" end
  end.

(** [repr] of a Python set, its members in the order given. *)
Definition repr_set (l : list cell) : string :=
  match l with
  | [] => "set()"
  | _ => "{" ++ String.concat ", " (repr_cell <$> l) ++ "}"
  end.

(** The digits of a number, given from the last one, with a comma (code 44)
    after every third digit that has a successor. *)
Fixpoint commas (digits : list Ascii.ascii) (k : nat) : list Ascii.ascii :=
  match digits with
  | [] => []
  | c :: rest =>
      match k with
      | 0 => Ascii.ascii_of_nat 44 :: c :: commas rest 2
      | S k' => c :: commas rest k'
      end
  end.

(** [f"{n:,}"] of a natural number *)
Definition format_thousands (n : nat) : string :=
  String.string_of_list_ascii
    (rev (commas (rev (String.list_ascii_of_string (str_nat n))) 3)).

(** ** Column operations of pandas *)

(** Python's [==] on cells as pandas' [unique] and set membership see it:
    numbers by value, texts by content, the missing value only with itself. *)
Definition cell_eqb (a b : cell) : bool :=
  match a, b with
  | Num p, Num q => Qeq_bool p q
  | Str s, Str t => String.eqb s t
  | NaN, NaN => true
  | _, _ => false
  end.

(** [series.unique()]: the distinct cells in order of first appearance. *)
Fixpoint unique_acc (seen : list cell) (s : Series) : list cell :=
  match s with
  | [] => []
  | c :: s' =>
      if existsb (cell_eqb c) seen then unique_acc seen s'
      else c :: unique_acc (c :: seen) s'
  end.
Definition unique (s : Series) : list cell := unique_acc [] s.

(** [series == k] for a number [k]: never raises, a text or a missing value
    is not equal to a number. *)
Definition eq_scalar (s : Series) (k : Q) : list bool :=
  (λ c, match c with Num q => Qeq_bool q k | _ => false end) <$> s.

(** [series <= k], [series < k], [series > k], [series >= k]: a missing
    value compares false, a text raises [TypeError]. *)
Definition cmp_scalar (op : Q → Q → bool) (s : Series) (k : Q) : result (list bool) :=
  for_each (λ c, match c with
                 | Num q => Ok (op q k)
                 | NaN => Ok false
                 | Str _ => Raise TypeError
                 end) s.

Definition Qlt_bool (a b : Q) : bool := negb (Qle_bool b a).
Definition Qge_bool (a b : Q) : bool := Qle_bool b a.
Definition Qgt_bool (a b : Q) : bool := negb (Qle_bool a b).

(** [mask.sum()] and [len(df[mask])] *)
Fixpoint count_true (m : list bool) : nat :=
  match m with
  | [] => 0
  | b :: m' => (if b then 1 else 0) + count_true m'
  end.

(** [mask1 & mask2], [~mask] *)
Definition mask_and (m1 m2 : list bool) : list bool := zip_with andb m1 m2.
Definition mask_not (m : list bool) : list bool := negb <$> m.

(** [series[mask]] *)
Fixpoint select {A} (m : list bool) (s : list A) : list A :=
  match m, s with
  | b :: m', x :: s' => if b then x :: select m' s' else select m' s'
  | _, _ => []
  end.

(** [df[mask].index.tolist()]: the positions of the selected rows. *)
Definition mask_index (m : list bool) : list nat := select m (seq 0 (length m)).

(** The numbers of a column, missing values skipped, as the reductions of
    pandas see them. On a column with a text pandas raises or returns a
    text, depending on the reduction; the model raises [TypeError], and the
    statements below are about columns without texts. *)
Fixpoint dropna (s : Series) : result (list Q) :=
  match s with
  | [] => Ok []
  | Num q :: s' => l ← dropna s'; Ok (q :: l)
  | NaN :: s' => dropna s'
  | Str _ :: _ => Raise TypeError
  end.

Definition Qsum (l : list Q) : Q := foldr Qplus 0%Q l.

(** [series.sum()] *)
Definition series_sum (s : Series) : result Q := l ← dropna s; Ok (Qsum l).

Definition Qmin (a b : Q) : Q := if Qle_bool a b then a else b.
Definition Qmax (a b : Q) : Q := if Qle_bool a b then b else a.

Definition reduce (f : Q → Q → Q) (l : list Q) : cell :=
  match l with
  | [] => NaN
  | x :: l' => Num (foldl f x l')
  end.

(** [series.min()], [series.max()]: the missing value on a column without
    numbers. *)
Definition series_min (s : Series) : result cell := l ← dropna s; Ok (reduce Qmin l).
Definition series_max (s : Series) : result cell := l ← dropna s; Ok (reduce Qmax l).

(** [series.isnull().sum()] *)
Definition isnull (c : cell) : bool :=
  match c with NaN => true | _ => false end.
Definition null_count (s : Series) : nat := count_true (isnull <$> s).

(** ** validation.py *)

Module validation.
Import config.

Inductive Status := PASS | WARN | FAIL.

(** The values stored under the keys of [details]. *)
Inductive detail :=
| DInt (n : nat)
| DCell (c : cell)
| DNames (l : list string)
| DCells (l : list cell)
| DRows (l : list nat)
| DColumns (l : list (string * list cell))
| DCounts (l : list (string * nat)).

Record ValidationResult := {
  check_name : string;
  status : Status;
  message : string;
  details : list (string * detail);
}.

Record DataValidator := {
  df : DataFrame;
  results : list ValidationResult;
}.

(** [DataValidator(df)] *)
Definition init (d : DataFrame) : DataValidator := {| df := d; results := [] |}.

(** A method of the validator: it may raise, and it leaves the validator in
    a new state either way. *)
Definition method (A : Type) : Type := DataValidator → result A * DataValidator.

Definition mreturn {A} (a : A) : method A := λ v, (Ok a, v).

Definition mthen {A B} (m : method A) (k : A → method B) : method B :=
  λ v, match m v with
       | (Ok a, v') => k a v'
       | (Raise e, v') => (Raise e, v')
       end.

Local Notation "x ⇐ m ;; k" := (mthen m (λ x, k))
  (at level 100, m at next level, right associativity, only parsing).

(** Evaluation of an expression that reads [self.df]. *)
Definition eval {A} (f : DataFrame → result A) : method A := λ v, (f (df v), v).

(** [self.results.append(r)] *)
Definition append_result (r : ValidationResult) : method unit :=
  λ v, (Ok (), {| df := df v; results := (results v ++ [r])%list |}).

(** [self.results = \[\]] *)
Definition reset_results : method unit :=
  λ v, (Ok (), {| df := df v; results := [] |}).

Definition get_results : method (list ValidationResult) := λ v, (Ok (results v), v).

(** The body shared by the checks: build the result, append it, return it. *)
Definition record_check (f : DataFrame → result ValidationResult) : method ValidationResult :=
  r ⇐ eval f ;; _ ⇐ append_result r ;; mreturn r.

Definition required_columns_result (d : DataFrame) : result ValidationResult :=
  let actual_cols : gset string := list_to_set (column_names d) in
  let required : gset string := list_to_set REQUIRED_COLUMNS in
  let missing := required ∖ actual_cols in
  if bool_decide (missing ≠ ∅) then
    Ok {| check_name := "Required Columns";
          status := FAIL;
          message := "Missing " ++ str_nat (size missing) ++ " required column(s).";
          details := [("missing_columns", DNames (elements missing))] |}
  else
    Ok {| check_name := "Required Columns";
          status := PASS;
          message := "All " ++ str_nat (length REQUIRED_COLUMNS) ++ " required columns present.";
          details := [("column_count", DInt (length REQUIRED_COLUMNS))] |}.

Definition check_required_columns : method ValidationResult :=
  record_check required_columns_result.

(** [actual_types - VALID_TYPES] *)
Definition is_valid_type (c : cell) : bool :=
  match c with
  | Str s => bool_decide (s ∈ VALID_TYPES)
  | _ => false
  end.

Definition type_domain_result (d : DataFrame) : result ValidationResult :=
  if negb (has_column d "Type") then
    Ok {| check_name := "Type Domain";
          status := FAIL;
          message := "'Type' column not found.";
          details := [] |}
  else
    col ← getitem d "Type";
    let actual_types := unique col in
    let invalid := List.filter (λ c, negb (is_valid_type c)) actual_types in
    match invalid with
    | _ :: _ =>
        Ok {| check_name := "Type Domain";
              status := FAIL;
              message := "Invalid Type values found: " ++ repr_set invalid;
              details := [("invalid_values", DCells invalid);
                          ("valid_values", DNames VALID_TYPES)] |}
    | [] =>
        Ok {| check_name := "Type Domain";
              status := PASS;
              message := "All Type values are valid: " ++ repr_set actual_types;
              details := [("found_types", DCells actual_types)] |}
    end.

Definition check_type_domain : method ValidationResult :=
  record_check type_domain_result.

(** The violations of the minimum of a rule. *)
Definition min_violations (series : Series) (rules : rule) : result (list string) :=
  match rule_min rules with
  | Some min_val =>
      if strict_positive rules then
        m ← cmp_scalar Qle_bool series (inject_Z min_val);
        let bad_count := count_true m in
        Ok (if bool_decide (0 < bad_count)
            then [str_nat bad_count ++ " values <= " ++ str_Z min_val] else [])
      else
        m ← cmp_scalar Qlt_bool series (inject_Z min_val);
        let bad_count := count_true m in
        Ok (if bool_decide (0 < bad_count)
            then [str_nat bad_count ++ " values < " ++ str_Z min_val] else [])
  | None => Ok []
  end.

(** The violations of the maximum of a rule. *)
Definition max_violations (series : Series) (rules : rule) : result (list string) :=
  match rule_max rules with
  | Some max_val =>
      m ← cmp_scalar Qgt_bool series (inject_Z max_val);
      let bad_count := count_true m in
      Ok (if bool_decide (0 < bad_count)
          then [str_nat bad_count ++ " values > " ++ str_Z max_val] else [])
  | None => Ok []
  end.

(** The body of the loop of [check_numeric_ranges] for one entry of
    [VALIDATION_RULES]. *)
Definition range_result (col : string) (rules : rule) (d : DataFrame)
  : result ValidationResult :=
  if negb (has_column d col) then
    Ok {| check_name := "Range Check: " ++ col;
          status := WARN;
          message := "Column '" ++ col ++ "' not found, skipping range check.";
          details := [] |}
  else
    series ← getitem d col;
    below ← min_violations series rules;
    above ← max_violations series rules;
    let violations := (below ++ above)%list in
    match violations with
    | _ :: _ =>
        lo ← series_min series;
        hi ← series_max series;
        Ok {| check_name := "Range Check: " ++ col;
              status := FAIL;
              message := String.concat "; " violations;
              details := [("min", DCell lo); ("max", DCell hi)] |}
    | [] =>
        lo ← series_min series;
        hi ← series_max series;
        slo ← format_2f lo;
        shi ← format_2f hi;
        Ok {| check_name := "Range Check: " ++ col;
              status := PASS;
              message := "All values within valid range. Min=" ++ slo ++ ", Max=" ++ shi;
              details := [("min", DCell lo); ("max", DCell hi)] |}
    end.

(** The loop of [check_numeric_ranges] over the remaining rules, [acc] being
    the local list [results]. *)
Fixpoint range_loop (rules : list (string * rule)) (acc : list ValidationResult)
  : method (list ValidationResult) :=
  match rules with
  | [] => mreturn acc
  | (col, r) :: rest =>
      res ⇐ eval (range_result col r) ;;
      _ ⇐ append_result res ;;
      range_loop rest (acc ++ [res])%list
  end.

Definition check_numeric_ranges_with (rules : list (string * rule))
  : method (list ValidationResult) := range_loop rules [].

Definition check_numeric_ranges : method (list ValidationResult) :=
  check_numeric_ranges_with VALIDATION_RULES.

Definition is_binary (c : cell) : bool :=
  match c with
  | Num q => Qeq_bool q 0 || Qeq_bool q 1
  | _ => false
  end.

(** The loop of [check_binary_flags] filling the dict [non_binary]. *)
Fixpoint non_binary_loop (cols : list string) (d : DataFrame)
  : result (list (string * list cell)) :=
  match cols with
  | [] => Ok []
  | col :: rest =>
      if has_column d col then
        s ← getitem d col;
        let unique_vals := unique s in
        tl ← non_binary_loop rest d;
        Ok (if negb (forallb is_binary unique_vals)
            then (col, unique_vals) :: tl else tl)
      else non_binary_loop rest d
  end.

Definition binary_flags_result (d : DataFrame) : result ValidationResult :=
  let all_flag_cols := TARGET_COL :: FAILURE_MODE_COLS in
  non_binary ← non_binary_loop all_flag_cols d;
  match non_binary with
  | _ :: _ =>
      Ok {| check_name := "Binary Flags";
            status := FAIL;
            message := str_nat (length non_binary) ++ " column(s) have non-binary values.";
            details := [("non_binary_columns", DColumns non_binary)] |}
  | [] =>
      Ok {| check_name := "Binary Flags";
            status := PASS;
            message := "All " ++ str_nat (length all_flag_cols)
                       ++ " flag columns are binary (0/1).";
            details := [("columns_checked", DNames all_flag_cols)] |}
  end.

Definition check_binary_flags : method ValidationResult :=
  record_check binary_flags_result.

(** The loop of [check_failure_consistency] extending [inconsistent_rows]. *)
Fixpoint inconsistent_loop (cols : list string) (no_failure_mask : list bool)
    (d : DataFrame) : result (list nat) :=
  match cols with
  | [] => Ok []
  | col :: rest =>
      if has_column d col then
        s ← getitem d col;
        let violations := mask_index (mask_and no_failure_mask (eq_scalar s 1)) in
        tl ← inconsistent_loop rest no_failure_mask d;
        Ok (if bool_decide (0 < length violations) then (violations ++ tl)%list else tl)
      else inconsistent_loop rest no_failure_mask d
  end.

Definition failure_consistency_result (d : DataFrame) : result ValidationResult :=
  if negb (has_column d TARGET_COL) then
    Ok {| check_name := "Failure Consistency";
          status := WARN;
          message := "'" ++ TARGET_COL ++ "' column not found.";
          details := [] |}
  else
    target ← getitem d TARGET_COL;
    let no_failure_mask := eq_scalar target 0 in
    rows ← inconsistent_loop FAILURE_MODE_COLS no_failure_mask d;
    let inconsistent_rows := elements (list_to_set rows : gset nat) in
    let n_violations := length inconsistent_rows in
    if bool_decide (0 < n_violations) then
      Ok {| check_name := "Failure Consistency";
            status := WARN;
            message := str_nat n_violations
                       ++ " row(s) have Machine failure=0 but a failure mode=1.";
            details := [("violation_count", DInt n_violations);
                        ("sample_indices", DRows (take 10 inconsistent_rows))] |}
    else
      Ok {| check_name := "Failure Consistency";
            status := PASS;
            message := "All records are consistent (failure=0 implies all modes=0).";
            details := [] |}.

Definition check_failure_consistency : method ValidationResult :=
  record_check failure_consistency_result.

Definition null_values_result (d : DataFrame) : result ValidationResult :=
  let null_counts := (λ c, (c.1, null_count c.2)) <$> columns d in
  let cols_with_nulls := List.filter (λ c, bool_decide (0 < c.2)) null_counts in
  if bool_decide (0 < length cols_with_nulls) then
    Ok {| check_name := "Null Values";
          status := WARN;
          message := str_nat (length cols_with_nulls) ++ " column(s) have null values.";
          details := [("null_counts", DCounts cols_with_nulls)] |}
  else
    Ok {| check_name := "Null Values";
          status := PASS;
          message := "No null values found in any column.";
          details := [("total_rows", DInt (len d))] |}.

Definition check_null_values : method ValidationResult :=
  record_check null_values_result.

Definition run_all_checks_with (rules : list (string * rule))
  : method (list ValidationResult) :=
  _ ⇐ reset_results ;;
  _ ⇐ check_required_columns ;;
  _ ⇐ check_type_domain ;;
  _ ⇐ check_numeric_ranges_with rules ;;
  _ ⇐ check_binary_flags ;;
  _ ⇐ check_failure_consistency ;;
  _ ⇐ check_null_values ;;
  get_results.

Definition run_all_checks : method (list ValidationResult) :=
  run_all_checks_with VALIDATION_RULES.

(** [r.status] as the text it is in the source *)
Definition status_text (s : Status) : string :=
  match s with PASS => "PASS" | WARN => "WARN" | FAIL => "FAIL" end.

Definition status_icon (s : Status) : string :=
  match s with PASS => "✅" | WARN => "⚠️" | FAIL => "❌" end.

(** The variables of the first loop of [generate_report]. *)
Record report_state := {
  lines : list string;
  pass_count : nat;
  warn_count : nat;
  fail_count : nat;
}.

(** The body of the first loop of [generate_report]. *)
Definition report_row (st : report_state) (r : ValidationResult) : report_state :=
  let row := "| " ++ check_name r ++ " | " ++ status_icon (status r) ++ " "
             ++ status_text (status r) ++ " | " ++ message r ++ " |" in
  let lines' := (lines st ++ [row])%list in
  match status r with
  | PASS => {| lines := lines'; pass_count := pass_count st + 1;
               warn_count := warn_count st; fail_count := fail_count st |}
  | WARN => {| lines := lines'; pass_count := pass_count st;
               warn_count := warn_count st + 1; fail_count := fail_count st |}
  | FAIL => {| lines := lines'; pass_count := pass_count st;
               warn_count := warn_count st; fail_count := fail_count st + 1 |}
  end.

Definition is_issue (r : ValidationResult) : bool :=
  match status r with PASS => false | _ => true end.

Section Report.
(** [str(v)] of a value stored in [details]; how Python and numpy print the
    numbers in it is not the validator's business and is left open. *)
Variable str_detail : detail → string.

(** The lines that the second loop of [generate_report] appends for one
    WARN or FAIL result. *)
Definition issue_lines (r : ValidationResult) : list string :=
  let heading := "### " ++ check_name r ++ " (" ++ status_text (status r) ++ ")" in
  let dump := (λ kv : string * detail, kv.1 ++ ": " ++ str_detail kv.2) <$> details r in
  ([heading; ""; message r]
   ++ match details r with
      | [] => []
      | _ :: _ => [""; "```"] ++ dump ++ ["```"]
      end
   ++ [""])%list.

(** The list [lines] of [generate_report] when it is joined. *)
Definition report_lines (v : DataValidator) : list string :=
  let header :=
    [ "# Data Validation Report";
      "";
      "**Dataset:** ai4i2020.csv";
      "**Total Records:** " ++ format_thousands (len (df v));
      "**Total Columns:** " ++ str_nat (length (column_names (df v)));
      "";
      "## Validation Results";
      "";
      "| Check | Status | Message |";
      "|-------|--------|---------|" ] in
  let st := foldl report_row
              {| lines := header; pass_count := 0; warn_count := 0; fail_count := 0 |}
              (results v) in
  let summary :=
    [ "";
      "## Summary";
      "";
      "- **PASS:** " ++ str_nat (pass_count st);
      "- **WARN:** " ++ str_nat (warn_count st);
      "- **FAIL:** " ++ str_nat (fail_count st);
      "" ] in
  let lines := (lines st ++ summary)%list in
  let issues := List.filter is_issue (results v) in
  match issues with
  | [] => lines
  | _ :: _ => (lines ++ ["## Details"; ""] ++ concat (issue_lines <$> issues))%list
  end.

Definition generate_report (v : DataValidator) : string :=
  String.concat "
" (report_lines v).

End Report.

End validation.

(** ** Order statistics and moments of pandas *)

Section Sorting.
Context {A : Type} (leb : A → A → bool).

Fixpoint insert_sorted (x : A) (l : list A) : list A :=
  match l with
  | [] => [x]
  | y :: l' => if leb x y then x :: l else y :: insert_sorted x l'
  end.

(** A stable ascending sort. *)
Definition sort_by (l : list A) : list A := foldr insert_sorted [] l.

End Sorting.

(** The value at position [q * (n - 1)] of the sorted numbers [v], linearly
    interpolated between its two neighbours. *)
Definition interpolate (v : list Q) (q : Q) : Q :=
  let n := length v in
  let pos := (q * inject_Z (Z.of_nat (n - 1)))%Q in
  let i := Z.to_nat (Qfloor pos) in
  let frac := (pos - inject_Z (Qfloor pos))%Q in
  let a := nth i v 0%Q in
  let b := nth (Nat.min (i + 1) (n - 1)) v 0%Q in
  (a + (b - a) * frac)%Q.

(** [series.quantile(q)], linear interpolation: [ValueError] for [q] outside
    [0, 1], the missing value on a column without numbers. *)
Definition quantile (s : Series) (q : Q) : result cell :=
  if negb (Qle_bool 0 q && Qle_bool q 1) then Raise ValueError
  else
    l ← dropna s;
    match l with
    | [] => Ok NaN
    | _ :: _ => Ok (Num (interpolate (sort_by Qle_bool l) q))
    end.

(** [series.mean()] *)
Definition series_mean (s : Series) : result cell :=
  l ← dropna s;
  match l with
  | [] => Ok NaN
  | _ :: _ => Ok (Num (Qsum l / inject_Z (Z.of_nat (length l))))
  end.

(** [series.median()] *)
Definition series_median (s : Series) : result cell :=
  l ← dropna s;
  let v := sort_by Qle_bool l in
  let n := length v in
  match n with
  | 0 => Ok NaN
  | _ =>
      if Nat.even n
      then Ok (Num ((nth (n / 2 - 1) v 0 + nth (n / 2) v 0) / 2)%Q)
      else Ok (Num (nth (n / 2) v 0%Q))
  end.

(** A standard deviation, kept exact: the square root of a rational, or
    not-a-number. *)
Inductive root :=
| SqrtOf (radicand : Q)
| RootNaN.

(** [series.std()]: the sample standard deviation (denominator [n - 1]),
    not-a-number on fewer than two numbers. *)
Definition series_std (s : Series) : result root :=
  l ← dropna s;
  let n := length l in
  if bool_decide (n < 2) then Ok RootNaN
  else
    let mean := (Qsum l / inject_Z (Z.of_nat n))%Q in
    let ss := Qsum ((λ x, (x - mean) * (x - mean))%Q <$> l) in
    Ok (SqrtOf (ss / inject_Z (Z.of_nat (n - 1)))).

(** [int(x)]: truncation towards zero *)
Definition int_of (q : Q) : Z := Z.quot (Qnum q) (Zpos (Qden q)).

(** [a / b] on two Python ints *)
Definition int_truediv (a b : Z) : result Q :=
  if (b =? 0)%Z then Raise ZeroDivisionError else Ok (inject_Z a / inject_Z b)%Q.

(** [series <= t] and [series >= t] for a threshold that is a number or the
    missing value. *)
Definition cmp_threshold (op : Q → Q → bool) (s : Series) (t : cell)
  : result (list bool) :=
  match t with
  | Num k => cmp_scalar op s k
  | NaN => for_each (λ c, match c with Str _ => Raise TypeError | _ => Ok false end) s
  | Str _ => Raise TypeError
  end.

(** ** preprocess.py *)

Module preprocess.

Definition TEMP_DELTA : string := "Temp_Delta [K]".
Definition PROCESS_TEMP : string := "Process temperature [K]".
Definition AIR_TEMP : string := "Air temperature [K]".

(** Tables are objects: a store maps references to tables. *)
Abbreviation ref := positive.
Abbreviation store := (gmap ref DataFrame).

(** A computation over the store. A reference that the store does not hold
    cannot be formed in Python; the model gives it no result. *)
Definition action (A : Type) : Type := store → option (result A * store).

(** [df.copy()]: a new object with the contents of the old one *)
Definition copy (r : ref) : action ref :=
  λ h, d ← h !! r;
       let r' := fresh (dom h) in
       Some (Ok r', <[r' := d]> h).

(** [series1 - series2], cell by cell, on the exact values; the statements
    give the value of a difference only where int64 does not wrap around
    and binary64 does not round. *)
Definition cell_sub (a b : cell) : result cell :=
  match a, b with
  | Num p, Num q => Ok (Num (p - q))
  | Str _, _ | _, Str _ => Raise TypeError
  | _, _ => Ok NaN
  end.

Definition series_sub (a b : Series) : result Series :=
  for_each (λ p, cell_sub p.1 p.2) (zip a b).

(** [df[name] = expr] on the object behind [r], [expr] reading that object *)
Definition setitem (r : ref) (name : string) (expr : DataFrame → result Series)
  : action unit :=
  λ h, d ← h !! r;
       match expr d with
       | Ok s =>
           Some (Ok (), <[r := assign name s d]> h)
       | Raise e => Some (Raise e, h)
       end.

Definition areturn {A} (a : A) : action A := λ h, Some (Ok a, h).

Definition athen {A B} (m : action A) (k : A → action B) : action B :=
  λ h, match m h with
       | Some (Ok a, h') => k a h'
       | Some (Raise e, h') => Some (Raise e, h')
       | None => None
       end.

Local Notation "x ⇐ m ;; k" := (athen m (λ x, k))
  (at level 100, m at next level, right associativity, only parsing).

Definition add_temp_delta (df : ref) : action ref :=
  df ⇐ copy df ;;
  _ ⇐ setitem df TEMP_DELTA
        (λ d, process ← getitem d PROCESS_TEMP;
              air ← getitem d AIR_TEMP;
              series_sub process air) ;;
  areturn df.

(** [x <= t], [x >= t] on one cell inside [assign_category] *)
Definition cell_cmp (op : Q → Q → bool) (x t : cell) : result bool :=
  match x, t with
  | Num p, Num q => Ok (op p q)
  | Str _, _ | _, Str _ => Raise TypeError
  | _, _ => Ok false
  end.

Definition assign_category (low_val high_val x : cell) : result string :=
  le ← cell_cmp Qle_bool x low_val;
  if le : bool then Ok "Low"
  else
    ge ← cell_cmp Qge_bool x high_val;
    if ge : bool then Ok "High" else Ok "Medium".

Definition categorize_by_quantiles (series : Series) (q_low q_high : Q)
  : result (list string) :=
  low_val ← quantile series q_low;
  high_val ← quantile series q_high;
  for_each (assign_category low_val high_val) series.

Record quantile_stats := {
  qs_column : string;
  qs_q_low : Q;
  qs_q_low_value : cell;
  qs_q_high : Q;
  qs_q_high_value : cell;
  qs_min : cell;
  qs_max : cell;
  qs_mean : cell;
  qs_median : cell;
}.

Definition compute_quantile_stats (df : DataFrame) (column : string) (q_low q_high : Q)
  : result quantile_stats :=
  series ← getitem df column;
  lo ← quantile series q_low;
  hi ← quantile series q_high;
  mn ← series_min series;
  mx ← series_max series;
  mean ← series_mean series;
  median ← series_median series;
  Ok {| qs_column := column;
        qs_q_low := q_low;
        qs_q_low_value := lo;
        qs_q_high := q_high;
        qs_q_high_value := hi;
        qs_min := mn;
        qs_max := mx;
        qs_mean := mean;
        qs_median := median |}.

Definition preprocess_data (df : ref) : action ref := add_temp_delta df.

End preprocess.

(** ** kpi.py *)

Module kpi.
Import config.

Record overall_rate := {
  total_records : nat;
  failure_count : Z;
  failure_rate : Q;
  failure_rate_pct : Q;
}.

Definition compute_overall_failure_rate (df : DataFrame) : result overall_rate :=
  let total := len df in
  target ← getitem df TARGET_COL;
  failures ← series_sum target;
  let rate := if bool_decide (0 < total)
              then (failures / inject_Z (Z.of_nat total))%Q else 0%Q in
  Ok {| total_records := total;
        failure_count := int_of failures;
        failure_rate := rate;
        failure_rate_pct := (rate * 100)%Q |}.

(** One row of the table returned by [compute_failure_rate_by_type]. *)
Record type_row := {
  Type_ : cell;
  count : nat;
  type_failure_count : Q;
  type_failure_rate : Q;
  type_failure_rate_pct : Q;
}.

(** The order in which [groupby] sorts its keys: numbers by value, texts by
    code point, numbers before texts. *)
Definition key_leb (a b : cell) : bool :=
  match a, b with
  | Num p, Num q => Qle_bool p q
  | Num _, _ => true
  | Str s, Str t => String.leb s t
  | Str _, NaN => true
  | Str _, Num _ => false
  | NaN, NaN => true
  | NaN, _ => false
  end.

(** The keys of [df.groupby(col)]: the distinct cells of the column, the
    missing value dropped, sorted. *)
Definition group_keys (s : Series) : list cell :=
  sort_by key_leb (List.filter (λ c, negb (isnull c)) (unique s)).

(** [grouped["Type"].map(type_order)]: the missing value for a key outside
    the mapping. *)
Definition type_order (c : cell) : option nat :=
  match c with
  | Str "L" => Some 0
  | Str "M" => Some 1
  | Str "H" => Some 2
  | _ => None
  end.

(** Ascending order of the keys, the missing value after every number. *)
Definition order_leb (a b : option nat) : bool :=
  match a, b with
  | Some m, Some n => (m <=? n)%nat
  | None, Some _ => false
  | _, None => true
  end.

(** [rows.sort_values(key)]: ascending on the key, the rows whose key is the
    missing value last, in the order they had. *)
Definition sort_values {A} (key : A → option nat) (rows : list A) : list A :=
  (sort_by (λ a b, order_leb (key a) (key b))
           (List.filter (λ a, bool_decide (is_Some (key a))) rows)
   ++ List.filter (λ a, bool_decide (key a = None)) rows)%list.

(** The aggregation of one group: its size and the sum of the target. *)
Definition aggregate (types target : Series) (k : cell) : result type_row :=
  let mask := cell_eqb k <$> types in
  failures ← series_sum (select mask target);
  let n := count_true mask in
  let rate := (failures / inject_Z (Z.of_nat n))%Q in
  Ok {| Type_ := k;
        count := n;
        type_failure_count := failures;
        type_failure_rate := rate;
        type_failure_rate_pct := (rate * 100)%Q |}.

Definition compute_failure_rate_by_type (df : DataFrame) : result (list type_row) :=
  types ← getitem df "Type";
  target ← getitem df TARGET_COL;
  grouped ← for_each (aggregate types target) (group_keys types);
  Ok (sort_values (λ r, type_order (Type_ r)) grouped).

(** One row of the table returned by [compute_failure_mode_counts]. *)
Record mode_row := {
  failure_mode : string;
  mode_count : Z;
  pct_of_failures : Q;
  pct_of_total : Q;
}.

(** The body of the loop of [compute_failure_mode_counts]. *)
Definition mode_record (df : DataFrame) (total_failures : Q) (total_records : nat)
    (mode : string) : result mode_row :=
  s ← getitem df mode;
  flags ← series_sum s;
  let count := int_of flags in
  let pct_of_failures :=
    if Qlt_bool 0 total_failures
    then (inject_Z count / total_failures * 100)%Q else 0%Q in
  ratio ← int_truediv count (Z.of_nat total_records);
  Ok {| failure_mode := mode;
        mode_count := count;
        pct_of_failures := pct_of_failures;
        pct_of_total := (ratio * 100)%Q |}.

Definition compute_failure_mode_counts (df : DataFrame) : result (list mode_row) :=
  target ← getitem df TARGET_COL;
  total_failures ← series_sum target;
  let total_records := len df in
  for_each (mode_record df total_failures total_records) FAILURE_MODE_COLS.

Record segment := {
  segment_label : string;
  segment_count : nat;
  segment_failure_count : Z;
  segment_failure_rate : Q;
  segment_failure_rate_pct : Q;
}.

Record quantile_rates := {
  column : string;
  q_low : Q;
  q_low_value : cell;
  q_high : Q;
  q_high_value : cell;
  segments : list segment;
}.

Definition segment_stats (df : DataFrame) (mask : list bool) (label : string)
  : result segment :=
  let n := count_true mask in
  target ← getitem df TARGET_COL;
  failures ← series_sum (select mask target);
  let rate := if bool_decide (0 < n)
              then (failures / inject_Z (Z.of_nat n))%Q else 0%Q in
  Ok {| segment_label := label;
        segment_count := n;
        segment_failure_count := int_of failures;
        segment_failure_rate := rate;
        segment_failure_rate_pct := (rate * 100)%Q |}.

Definition compute_quantile_failure_rates (df : DataFrame) (col : string)
    (q_low q_high : Q) : result quantile_rates :=
  s ← getitem df col;
  low_threshold ← quantile s q_low;
  high_threshold ← quantile s q_high;
  low_mask ← cmp_threshold Qle_bool s low_threshold;
  high_mask ← cmp_threshold Qge_bool s high_threshold;
  let mid_mask := mask_and (mask_not low_mask) (mask_not high_mask) in
  slo ← format_2f low_threshold;
  low ← segment_stats df low_mask ("Low (≤" ++ slo ++ ")");
  mid ← segment_stats df mid_mask "Medium";
  shi ← format_2f high_threshold;
  high ← segment_stats df high_mask ("High (≥" ++ shi ++ ")");
  Ok {| column := col;
        q_low := q_low;
        q_low_value := low_threshold;
        q_high := q_high;
        q_high_value := high_threshold;
        segments := [low; mid; high] |}.

Record overall_stats := {
  mean : cell;
  median : cell;
  std : root;
  min : cell;
  max : cell;
}.

Record group_stats := {
  group_count : nat;
  group_mean : cell;
  group_median : cell;
  group_std : root;
}.

(** The mapping returned by [compute_temp_delta_stats]: either the one key
    ["error"], or the keys ["overall"], ["failed"] and ["not_failed"]. *)
Inductive temp_delta_stats :=
| error (msg : string)
| stats (overall : overall_stats) (failed not_failed : group_stats).

Definition group_statistics (s : Series) : result group_stats :=
  m ← series_mean s;
  md ← series_median s;
  sd ← series_std s;
  Ok {| group_count := length s; group_mean := m; group_median := md; group_std := sd |}.

Definition compute_temp_delta_stats (df : DataFrame) : result temp_delta_stats :=
  let delta_col := "Temp_Delta [K]" in
  if negb (has_column df delta_col) then
    Ok (error ("Column '" ++ delta_col ++ "' not found. Run preprocessing first."))
  else
    target ← getitem df TARGET_COL;
    delta ← getitem df delta_col;
    let failed := select (eq_scalar target 1) delta in
    let not_failed := select (eq_scalar target 0) delta in
    m ← series_mean delta;
    md ← series_median delta;
    sd ← series_std delta;
    lo ← series_min delta;
    hi ← series_max delta;
    f ← group_statistics failed;
    nf ← group_statistics not_failed;
    Ok (stats {| mean := m; median := md; std := sd; min := lo; max := hi |} f nf).

End kpi.

(** ** Vocabulary of the statements *)

(** A column of numbers and missing values, without texts. *)
Definition numeric (s : Series) : bool :=
  forallb (λ c, match c with Str _ => false | _ => true end) s.

(** The numbers of a column, in row order. *)
Definition numbers (s : Series) : list Q :=
  omap (λ c, match c with Num q => Some q | _ => None end) s.

(** The column stored under a label. *)
Definition column_of (df : DataFrame) (col : string) : option Series :=
  assoc col (columns df).

(** Every range-checked column that the table has is numeric. *)
Definition ranges_numeric (rules : list (string * config.rule)) (df : DataFrame) : bool :=
  forallb (λ r, match column_of df r.1 with
                | Some s => numeric s
                | None => true
                end) rules.

(** The entry of [details] under a key. *)
Definition detail_of (r : validation.ValidationResult) (key : string)
  : option validation.detail := assoc key (validation.details r).

(** The required columns that a table lacks. *)
Definition missing_of (d : DataFrame) : gset string :=
  list_to_set config.REQUIRED_COLUMNS ∖ list_to_set (column_names d).

(** A cell is the least (greatest) number of a column, or the missing value
    when the column has no number. *)
Definition least_of (l : list Q) (c : cell) : Prop :=
  match c with
  | Num m => m ∈ l ∧ Forall (λ x, m <= x)%Q l
  | NaN => l = []
  | Str _ => False
  end.

Definition greatest_of (l : list Q) (c : cell) : Prop :=
  match c with
  | Num m => m ∈ l ∧ Forall (λ x, x <= m)%Q l
  | NaN => l = []
  | Str _ => False
  end.

(** Order between cells: it holds between numbers only. *)
Definition cell_le (x t : cell) : Prop :=
  match x, t with
  | Num a, Num b => (a <= b)%Q
  | _, _ => False
  end.

Definition cell_lt (x t : cell) : Prop :=
  match x, t with
  | Num a, Num b => (a < b)%Q
  | _, _ => False
  end.

(** A row lies exactly at a threshold. *)
Definition at_threshold (t x : cell) : bool :=
  match x, t with
  | Num a, Num b => Qeq_bool a b
  | _, _ => false
  end.

#[global] Instance Qle_decision (x y : Q) : Decision (x <= y)%Q :=
  match Qlt_le_dec y x with
  | left H => right (Qlt_not_le y x H)
  | right H => left H
  end.

#[global] Instance Qlt_decision (x y : Q) : Decision (x < y)%Q :=
  match Qlt_le_dec x y with
  | left H => left H
  | right H => right (Qle_not_lt y x H)
  end.

(** A number violates the minimum (the maximum) of a rule. *)
Definition violates_min (r : config.rule) (q : Q) : Prop :=
  match config.rule_min r with
  | Some m => if config.strict_positive r then (q <= inject_Z m)%Q else (q < inject_Z m)%Q
  | None => False
  end.

Definition violates_max (r : config.rule) (q : Q) : Prop :=
  match config.rule_max r with
  | Some m => (inject_Z m < q)%Q
  | None => False
  end.

#[global] Instance violates_min_decision r q : Decision (violates_min r q).
Proof.
  unfold violates_min. destruct (config.rule_min r); [|apply _].
  destruct (config.strict_positive r); apply _.
Defined.

#[global] Instance violates_max_decision r q : Decision (violates_max r q).
Proof. unfold violates_max. destruct (config.rule_max r); apply _. Defined.

(** The part of the FAIL message for a bound violated by [n] values. *)
Definition bound_text (n : nat) (relation : string) (bound : option Z) : list string :=
  match bound with
  | Some b => if decide (n = 0) then [] else [str_nat n ++ relation ++ str_Z b]
  | None => []
  end.

(** The number of occurrences of a label. *)
Definition occurrences (lab : string) (l : list string) : nat :=
  count_true (String.eqb lab <$> l).

(** The relation named in the FAIL message of the minimum of a rule. *)
Definition relation_text (rules : config.rule) : string :=
  if config.strict_positive rules then " values <= " else " values < ".

(** The label that [assign_category] gives to a cell of a numeric column. *)
Definition label_of (lo hi x : cell) : string :=
  match x, lo, hi with
  | Num a, Num l, Num h =>
      if Qle_bool a l then "Low" else if Qle_bool h a then "High" else "Medium"
  | _, _, _ => "Medium"
  end.

(** The difference of two cells of numeric columns. *)
Definition difference (x y : cell) : cell :=
  match x, y with
  | Num u, Num v => Num (u - v)
  | _, _ => NaN
  end.

(** The position of a type in the fixed order, 3 for a type outside it. *)
Definition rank (c : cell) : nat := default 3 (kpi.type_order c).

(** The row that the aggregation builds for a group key. *)
Definition group_row (types target : Series) (k : cell) : kpi.type_row :=
  let mask := cell_eqb k <$> types in
  let failures := Qsum (numbers (select mask target)) in
  let rate := (failures / inject_Z (Z.of_nat (count_true mask)))%Q in
  {| kpi.Type_ := k;
     kpi.count := count_true mask;
     kpi.type_failure_count := failures;
     kpi.type_failure_rate := rate;
     kpi.type_failure_rate_pct := (rate * 100)%Q |}.

(** *** Sample tables *)

Definition ints (l : list Z) : Series := (λ z, Num (inject_Z z)) <$> l.

(** A table with every required column and no row. *)
Definition empty_table : DataFrame :=
  {| columns := (λ c, (c, [])) <$> config.REQUIRED_COLUMNS; nrows := 0 |}.

(** Three machines, one of each type, the second one failed. *)
Definition three_machines : DataFrame :=
  {| columns :=
       [ ("UDI", ints [1; 2; 3]%Z);
         ("Product ID", [Str "M14860"; Str "L47181"; Str "H29424"]);
         ("Type", [Str "M"; Str "L"; Str "H"]);
         ("Air temperature [K]", [Num (2981 # 10); Num (2982 # 10); Num (2981 # 10)]);
         ("Process temperature [K]", [Num (3086 # 10); Num (3087 # 10); Num (3085 # 10)]);
         ("Rotational speed [rpm]", ints [1551; 1408; 1498]%Z);
         ("Torque [Nm]", [Num (428 # 10); Num (463 # 10); Num (494 # 10)]);
         ("Tool wear [min]", ints [0; 3; 5]%Z);
         ("Machine failure", ints [0; 1; 0]%Z);
         ("TWF", ints [0; 0; 0]%Z);
         ("HDF", ints [0; 1; 0]%Z);
         ("PWF", ints [0; 0; 0]%Z);
         ("OSF", ints [0; 0; 0]%Z);
         ("RNF", ints [0; 0; 0]%Z) ];
     nrows := 3 |}.

(** A table without the target and the failure mode columns. *)
Definition no_flags : DataFrame :=
  {| columns := [ ("UDI", ints [1; 2]%Z); ("Type", [Str "L"; Str "M"]) ];
     nrows := 2 |}.

(** A table with a product type outside the domain. *)
Definition unknown_type : DataFrame :=
  {| columns := [ ("Type", [Str "X"; Str "L"; Str "X"]);
                  ("Machine failure", ints [1; 0; 0]%Z) ];
     nrows := 3 |}.

(** A table whose torque was never measured. *)
Definition torque_missing : DataFrame :=
  {| columns := [ ("Torque [Nm]", [NaN; NaN]); ("Machine failure", ints [0; 1]%Z) ];
     nrows := 2 |}.

(** A table that holds a derived column already, out of date. *)
Definition stale_delta : DataFrame :=
  assign "Temp_Delta [K]" (ints [0; 0; 0]%Z) three_machines.

(** A table that lacks one required column already. *)
Definition no_udi : DataFrame := drop_columns {[ "UDI" ]} three_machines.

(** ** Vocabulary of the further statements *)

(** The valid product types, as cells. *)
Definition valid_type_cells : list cell := [Str "L"; Str "M"; Str "H"].

(** A cell is the number 0 (the number 1). *)
Definition is_zero (c : cell) : bool :=
  match c with Num q => Qeq_bool q 0 | _ => false end.

Definition is_one (c : cell) : bool :=
  match c with Num q => Qeq_bool q 1 | _ => false end.

(** Row [i] has target 0 and a failure mode, among those the table has, at 1. *)
Definition inconsistent_row (d : DataFrame) (i : nat) : Prop :=
  (∃ target c, column_of d config.TARGET_COL = Some target
               ∧ target !! i = Some c ∧ is_zero c = true)
  ∧ ∃ mode s c, mode ∈ config.FAILURE_MODE_COLS ∧ column_of d mode = Some s
                ∧ s !! i = Some c ∧ is_one c = true.

(** A column of flags: every cell is the number 0 or the number 1. *)
Definition flag_column (s : Series) : bool := forallb validation.is_binary s.

(** The number of cells of a column that satisfy a test. *)
Definition count_cells (f : cell → bool) (s : Series) : nat := count_true (f <$> s).

(** A method that leaves the table of the validator as it was, whether it
    returns or raises. *)
Definition keeps_df {A} (m : validation.method A) : Prop :=
  ∀ v, validation.df (m v).2 = validation.df v.

(** A table whose first machine did not fail although two of its failure
    modes are set. *)
Definition silent_modes : DataFrame :=
  {| columns := [ ("Machine failure", ints [0; 1; 0]%Z);
                  ("TWF", ints [1; 0; 0]%Z);
                  ("RNF", ints [1; 1; 0]%Z) ];
     nrows := 3 |}.

(** The number of results with a given status. *)
Definition has_status (st : validation.Status) (r : validation.ValidationResult) : bool :=
  match st, validation.status r with
  | validation.PASS, validation.PASS
  | validation.WARN, validation.WARN
  | validation.FAIL, validation.FAIL => true
  | _, _ => false
  end.

Definition count_status (st : validation.Status)
    (rs : list validation.ValidationResult) : nat :=
  length (List.filter (has_status st) rs).

(** The row of a result in the table of the report. *)
Definition table_row (r : validation.ValidationResult) : string :=
  "| " ++ validation.check_name r ++ " | "
  ++ validation.status_icon (validation.status r) ++ " "
  ++ validation.status_text (validation.status r) ++ " | "
  ++ validation.message r ++ " |".

(** [x <= t] between cells, as a mask sees it: false unless both are
    numbers. *)
Definition cell_leb (x t : cell) : bool :=
  match x, t with
  | Num a, Num b => Qle_bool a b
  | _, _ => false
  end.

(** The three masks of [compute_quantile_failure_rates] for the thresholds
    [lo] and [hi]. *)
Definition low_mask (lo : cell) (s : Series) : list bool := (λ x, cell_leb x lo) <$> s.
Definition high_mask (hi : cell) (s : Series) : list bool := (λ x, cell_leb hi x) <$> s.
Definition mid_mask (lo hi : cell) (s : Series) : list bool :=
  (λ x, negb (cell_leb x lo) && negb (cell_leb hi x)) <$> s.

(** A statistic lies between two others, or is not-a-number. *)
Definition within (lo hi c : cell) : Prop :=
  c = NaN ∨ (cell_le lo c ∧ cell_le c hi).

(** Three machines, the tool wear of the second one entered as a text. *)
Definition worn_tool : DataFrame :=
  assign "Tool wear [min]" [Num 0; Str "worn"; Num 5] three_machines.

(** A table that holds the derived column and no target column. *)
Definition delta_without_target : DataFrame :=
  {| columns := [ ("Temp_Delta [K]", ints [10; 11]%Z) ]; nrows := 2 |}.

(** Two temperatures whose difference the arithmetic of the columns
    computes exactly, whether they are int64 or binary64: the process
    temperature is at least the air temperature and at most twice it, so
    that no integer wraps around and no float is rounded, and both are at
    most [2^53], so that an integer next to a float converts exactly. *)
Definition exact_difference (u v : Q) : Prop :=
  (0 < v ∧ v <= u ∧ u <= 2 * v ∧ u <= inject_Z (2 ^ 53))%Q.

(** * Properties *)

Import config validation.

(** ** The error monad and the table primitives *)

Lemma for_each_total {A B} (f : A → result B) (g : A → B) (l : list A) :
  (∀ x, x ∈ l → f x = Ok (g x)) → for_each f l = Ok (g <$> l).
Proof.
  induction l as [|a l IH]; intros Hf; simpl; [done|].
  rewrite (Hf a) by left. simpl.
  rewrite IH; [done|]. intros x Hx. apply Hf. by right.
Qed.

Lemma assoc_Some_elem {A} (k : string) (l : list (string * A)) (v : A) :
  assoc k l = Some v → k ∈ l.*1.
Proof.
  induction l as [|[k' v'] l IH]; simpl; [done|].
  destruct (String.eqb_spec k k') as [->|Hne].
  - intros _. left.
  - intros H. right. by apply IH.
Qed.

Lemma assoc_None_not_elem {A} (k : string) (l : list (string * A)) :
  assoc k l = None ↔ k ∉ l.*1.
Proof.
  induction l as [|[k' v'] l IH]; simpl.
  - split; [intros _; apply not_elem_of_nil|done].
  - destruct (String.eqb_spec k k') as [->|Hne].
    + split; [done|]. intros H. exfalso. apply H. left.
    + rewrite IH, not_elem_of_cons. tauto.
Qed.

Lemma has_column_true (d : DataFrame) (col : string) :
  has_column d col = true ↔ ∃ s, column_of d col = Some s.
Proof.
  unfold has_column, column_of. rewrite bool_decide_eq_true. split.
  - intros Hin. destruct (assoc col (columns d)) as [s|] eqn:E; [by exists s|].
    apply assoc_None_not_elem in E. done.
  - intros [s Hs]. by apply assoc_Some_elem in Hs.
Qed.

Lemma has_column_false (d : DataFrame) (col : string) :
  has_column d col = false ↔ column_of d col = None.
Proof.
  unfold has_column, column_of. rewrite bool_decide_eq_false.
  by rewrite assoc_None_not_elem.
Qed.

Lemma getitem_column (d : DataFrame) (col : string) (s : Series) :
  column_of d col = Some s → getitem d col = Ok s.
Proof. unfold column_of, getitem. by intros ->. Qed.

Lemma column_names_assign_other (name : string) (s : Series) (d : DataFrame) (c : string) :
  c ≠ name → c ∈ column_names (assign name s d) ↔ c ∈ column_names d.
Proof.
  intros Hne. unfold column_names, assign. simpl.
  induction (columns d) as [|[k v] l IH]; simpl.
  - rewrite list_elem_of_singleton. split; [done|]. by intros ?%elem_of_nil.
  - destruct (String.eqb_spec name k) as [->|Hk]; simpl; [done|].
    rewrite !elem_of_cons. by rewrite IH.
Qed.

Lemma column_names_drop (removed : gset string) (d : DataFrame) (c : string) :
  c ∈ column_names (drop_columns removed d) ↔ c ∈ column_names d ∧ c ∉ removed.
Proof.
  unfold column_names, drop_columns. simpl.
  rewrite !list_elem_of_fmap. split.
  - intros [[k v] [-> [Hk Hin]%list_elem_of_filter]]. simpl in *.
    split; [|done]. by exists (k, v).
  - intros [[[k v] [-> Hin]] Hnot]. exists (k, v). split; [done|].
    by apply list_elem_of_filter.
Qed.

(** ** Required Columns *)

Lemma required_columns_fail (d : DataFrame) :
  missing_of d ≠ ∅ →
  ∃ r, required_columns_result d = Ok r ∧ status r = FAIL
       ∧ detail_of r "missing_columns" = Some (DNames (elements (missing_of d))).
Proof.
  intros Hne. unfold required_columns_result. fold (missing_of d).
  rewrite bool_decide_eq_true_2 by done. eauto.
Qed.

Lemma missing_of_assign (name : string) (s : Series) (d : DataFrame) :
  name ∉ REQUIRED_COLUMNS → missing_of (assign name s d) = missing_of d.
Proof.
  intros Hname. unfold missing_of. apply set_eq. intros c.
  rewrite !elem_of_difference, !elem_of_list_to_set.
  split; intros [Hreq Hnot]; split; try done; intros Hin; apply Hnot.
  - apply column_names_assign_other; [|done]. by intros ->.
  - apply column_names_assign_other in Hin; [done|]. by intros ->.
Qed.

Lemma missing_of_drop (removed : gset string) (d : DataFrame) :
  removed ⊆ list_to_set REQUIRED_COLUMNS →
  missing_of (drop_columns removed d) = removed ∪ missing_of d.
Proof.
  intros Hsub. unfold missing_of. apply set_eq. intros c.
  rewrite elem_of_union, !elem_of_difference, !elem_of_list_to_set.
  rewrite column_names_drop. split.
  - intros [Hreq Hnot]. destruct (decide (c ∈ removed)); [by left|].
    right. split; [done|]. intros Hin. by apply Hnot.
  - intros [Hrem|[Hreq Hnot]].
    + split; [|by intros [_ ?]].
      apply Hsub in Hrem. by apply elem_of_list_to_set in Hrem.
    + split; [done|]. by intros [? _].
Qed.

(** C6, as stated, fails on a table that already lacks a required column:
    after removing ["Type"] from a table without ["UDI"], the check lists
    both names, not only the removed one. *)
Lemma required_columns_lists_earlier_gaps :
  ∃ r l, required_columns_result (drop_columns {[ "Type" ]} no_udi) = Ok r
         ∧ detail_of r "missing_columns" = Some (DNames l)
         ∧ "UDI" ∈ l ∧ "UDI" ∉ ({[ "Type" ]} : gset string).
Proof.
  destruct (required_columns_fail (drop_columns {[ "Type" ]} no_udi))
    as (r & Hr & _ & Hd).
  - intros He. assert (H : "Type" ∈ missing_of (drop_columns {[ "Type" ]} no_udi))
      by (vm_compute; done).
    rewrite He in H. by apply not_elem_of_empty in H.
  - exists r, (elements (missing_of (drop_columns {[ "Type" ]} no_udi))).
    split; [done|]. split; [done|]. split.
    + apply elem_of_elements. by vm_compute.
    + by vm_compute.
Qed.

(** C6 (amended). Adding a column that is not required leaves the result of
    the Required Columns check unchanged, so it never turns it into FAIL;
    removing a nonempty set of required columns gives FAIL, and
    [missing_columns] lists, without repetition, the removed names together
    with the required names the table lacked before -- exactly the removed
    names when the table had every required column. *)
Theorem required_columns_add_remove
    (d : DataFrame) (name : string) (s : Series) (removed : gset string) :
  name ∉ REQUIRED_COLUMNS →
  removed ≠ ∅ →
  removed ⊆ list_to_set REQUIRED_COLUMNS →
  required_columns_result (assign name s d) = required_columns_result d
  ∧ ∃ r l, required_columns_result (drop_columns removed d) = Ok r
      ∧ status r = FAIL
      ∧ detail_of r "missing_columns" = Some (DNames l)
      ∧ NoDup l
      ∧ (∀ c, c ∈ l ↔ c ∈ removed ∨ (c ∈ REQUIRED_COLUMNS ∧ c ∉ column_names d))
      ∧ ((∀ c, c ∈ REQUIRED_COLUMNS → c ∈ column_names d) → ∀ c, c ∈ l ↔ c ∈ removed).
Proof.
  intros Hname Hne Hsub. split.
  - unfold required_columns_result. fold (missing_of (assign name s d)) (missing_of d).
    by rewrite missing_of_assign.
  - destruct (required_columns_fail (drop_columns removed d)) as (r & Hr & Hs & Hd).
    { rewrite missing_of_drop by done. set_solver. }
    exists r, (elements (missing_of (drop_columns removed d))).
    assert (Hmem : ∀ c, c ∈ elements (missing_of (drop_columns removed d))
                        ↔ c ∈ removed ∨ (c ∈ REQUIRED_COLUMNS ∧ c ∉ column_names d)).
    { intros c. rewrite elem_of_elements, missing_of_drop by done.
      unfold missing_of.
      by rewrite elem_of_union, elem_of_difference, !elem_of_list_to_set. }
    split; [done|]. split; [done|]. split; [done|].
    split; [apply NoDup_elements|]. split; [done|].
    intros Hall c. rewrite Hmem. split; [|by left].
    intros [?|[Hreq Hnot]]; [done|]. exfalso. by apply Hnot, Hall.
Qed.

Lemma required_columns_add_remove_witness :
  ∃ r l, required_columns_result (drop_columns {[ "Type"; "TWF" ]} three_machines) = Ok r
      ∧ status r = FAIL
      ∧ detail_of r "missing_columns" = Some (DNames l)
      ∧ ∀ c, c ∈ l ↔ c ∈ ({[ "Type"; "TWF" ]} : gset string).
Proof.
  destruct (required_columns_add_remove three_machines "Temp_Delta [K]" []
              {[ "Type"; "TWF" ]}) as (_ & r & l & Hr & Hs & Hd & _ & _ & Hall).
  - compute_done.
  - compute_done.
  - compute_done.
  - exists r, l. split; [done|]. split; [done|]. split; [done|].
    apply Hall. apply Forall_forall. compute_done.
Defined.

(** ** Numeric columns *)

Lemma dropna_numeric (s : Series) :
  numeric s = true → dropna s = Ok (numbers s).
Proof.
  induction s as [|c s IH]; simpl; [done|].
  destruct c as [q| |]; simpl; intros H; try done.
  - by rewrite IH.
  - by rewrite IH.
Qed.

Lemma cmp_scalar_numeric (op : Q → Q → bool) (s : Series) (k : Q) :
  numeric s = true →
  cmp_scalar op s k
  = Ok ((λ c, match c with Num q => op q k | _ => false end) <$> s).
Proof.
  intros H. unfold cmp_scalar.
  rewrite (for_each_total _ (λ c, match c with Num q => op q k | _ => false end)); [done|].
  intros c Hc. destruct c as [q|t|]; try done.
  exfalso. unfold numeric in H. rewrite forallb_forall in H.
  apply list_elem_of_In in Hc. by apply H in Hc.
Qed.

Lemma count_true_numbers (op : Q → Q → bool) (k : Q) (P : Q → Prop)
    `{!∀ q, Decision (P q)} (s : Series) :
  (∀ q, op q k = true ↔ P q) →
  count_true ((λ c, match c with Num q => op q k | _ => false end) <$> s)
  = length (filter P (numbers s)).
Proof.
  intros Hop. induction s as [|c s IH]; simpl; [done|].
  destruct c as [q|t|]; simpl; try done.
  rewrite filter_cons. destruct (decide (P q)) as [HP|HP].
  - apply Hop in HP. rewrite HP. simpl. f_equal. exact IH.
  - destruct (op q k) eqn:E; [by apply Hop in E|]. exact IH.
Qed.

Lemma Qlt_bool_iff (a b : Q) : Qlt_bool a b = true ↔ (a < b)%Q.
Proof.
  unfold Qlt_bool. rewrite negb_true_iff. split.
  - intros H. apply Qnot_le_lt. intros Hle. apply Qle_bool_iff in Hle. congruence.
  - intros H. destruct (Qle_bool b a) eqn:E; [|done].
    apply Qle_bool_iff in E. by apply Qlt_not_le in H.
Qed.

Lemma Qgt_bool_iff (a b : Q) : Qgt_bool a b = true ↔ (b < a)%Q.
Proof. apply Qlt_bool_iff. Qed.

Lemma Qge_bool_iff (a b : Q) : Qge_bool a b = true ↔ (b <= a)%Q.
Proof. apply Qle_bool_iff. Qed.

Lemma Qmin_spec (a b : Q) : (Qmin a b <= a ∧ Qmin a b <= b)%Q ∧ (Qmin a b = a ∨ Qmin a b = b).
Proof.
  unfold Qmin. destruct (Qle_bool a b) eqn:E.
  - apply Qle_bool_iff in E. split; [split; [apply Qle_refl|done]|by left].
  - split; [|by right]. split; [|apply Qle_refl].
    apply Qlt_le_weak, Qnot_le_lt. intros H. apply Qle_bool_iff in H. congruence.
Qed.

Lemma Qmax_spec (a b : Q) : (a <= Qmax a b ∧ b <= Qmax a b)%Q ∧ (Qmax a b = a ∨ Qmax a b = b).
Proof.
  unfold Qmax. destruct (Qle_bool a b) eqn:E.
  - apply Qle_bool_iff in E. split; [split; [done|apply Qle_refl]|by right].
  - split; [|by left]. split; [apply Qle_refl|].
    apply Qlt_le_weak, Qnot_le_lt. intros H. apply Qle_bool_iff in H. congruence.
Qed.

Lemma foldl_Qmin (l : list Q) (x : Q) :
  (foldl Qmin x l <= x)%Q ∧ Forall (λ y, foldl Qmin x l <= y)%Q l
  ∧ foldl Qmin x l ∈ x :: l.
Proof.
  revert x. induction l as [|y l IH]; intros x; simpl.
  - split; [apply Qle_refl|]. split; [constructor|left].
  - destruct (IH (Qmin x y)) as (H1 & H2 & H3).
    destruct (Qmin_spec x y) as [[Hx Hy] Hor].
    split; [by eapply Qle_trans|]. split.
    + constructor; [by eapply Qle_trans|done].
    + apply elem_of_cons in H3 as [H3|H3].
      * rewrite H3. destruct Hor as [-> | ->]; [left|right; left].
      * right; by right.
Qed.

Lemma foldl_Qmax (l : list Q) (x : Q) :
  (x <= foldl Qmax x l)%Q ∧ Forall (λ y, y <= foldl Qmax x l)%Q l
  ∧ foldl Qmax x l ∈ x :: l.
Proof.
  revert x. induction l as [|y l IH]; intros x; simpl.
  - split; [apply Qle_refl|]. split; [constructor|left].
  - destruct (IH (Qmax x y)) as (H1 & H2 & H3).
    destruct (Qmax_spec x y) as [[Hx Hy] Hor].
    split; [by eapply Qle_trans|]. split.
    + constructor; [by eapply Qle_trans|done].
    + apply elem_of_cons in H3 as [H3|H3].
      * rewrite H3. destruct Hor as [-> | ->]; [left|right; left].
      * right; by right.
Qed.

Lemma reduce_Qmin_least (l : list Q) : least_of l (reduce Qmin l).
Proof.
  destruct l as [|x l]; simpl; [done|].
  destruct (foldl_Qmin l x) as (H1 & H2 & H3). split; [done|by constructor].
Qed.

Lemma reduce_Qmax_greatest (l : list Q) : greatest_of l (reduce Qmax l).
Proof.
  destruct l as [|x l]; simpl; [done|].
  destruct (foldl_Qmax l x) as (H1 & H2 & H3). split; [done|by constructor].
Qed.

Lemma format_2f_reduce (f : Q → Q → Q) (l : list Q) :
  ∃ t, format_2f (reduce f l) = Ok t.
Proof. destruct l; simpl; eauto. Qed.

(** ** Numeric Range *)

Lemma bound_text_count (n : nat) (relation : string) (b : Z) :
  (if bool_decide (0 < n) then [str_nat n ++ relation ++ str_Z b] else [])
  = bound_text n relation (Some b).
Proof.
  simpl. destruct (decide (n = 0)) as [->|Hn].
  - by rewrite bool_decide_eq_false_2 by lia.
  - by rewrite bool_decide_eq_true_2 by lia.
Qed.

Lemma min_violations_numeric (s : Series) (rules : rule) :
  numeric s = true →
  min_violations s rules
  = Ok (bound_text (length (filter (violates_min rules) (numbers s)))
          (relation_text rules) (rule_min rules)).
Proof.
  intros Hs. destruct rules as [[mn|] mx [|]]; unfold min_violations, relation_text; simpl;
    try done.
  - rewrite cmp_scalar_numeric by done. simpl.
    rewrite (count_true_numbers Qle_bool _
               (violates_min {| rule_min := Some mn; rule_max := mx; strict_positive := true |})).
    + f_equal. destruct (decide _); [by rewrite bool_decide_eq_false_2 by lia|].
      by rewrite bool_decide_eq_true_2 by lia.
    + intros q. apply Qle_bool_iff.
  - rewrite cmp_scalar_numeric by done. simpl.
    rewrite (count_true_numbers Qlt_bool _
               (violates_min {| rule_min := Some mn; rule_max := mx; strict_positive := false |})).
    + f_equal. destruct (decide _); [by rewrite bool_decide_eq_false_2 by lia|].
      by rewrite bool_decide_eq_true_2 by lia.
    + intros q. apply Qlt_bool_iff.
Qed.

Lemma max_violations_numeric (s : Series) (rules : rule) :
  numeric s = true →
  max_violations s rules
  = Ok (bound_text (length (filter (violates_max rules) (numbers s)))
          " values > " (rule_max rules)).
Proof.
  intros Hs. destruct rules as [mn [mx|] sp]; unfold max_violations; simpl; try done.
  rewrite cmp_scalar_numeric by done. simpl.
  rewrite (count_true_numbers Qgt_bool _
             (violates_max {| rule_min := mn; rule_max := Some mx; strict_positive := sp |})).
  - f_equal. destruct (decide _); [by rewrite bool_decide_eq_false_2 by lia|].
    by rewrite bool_decide_eq_true_2 by lia.
  - intros q. apply Qgt_bool_iff.
Qed.

Lemma bound_text_nil (n : nat) (relation : string) (bound : option Z) :
  (bound = None → n = 0) →
  bound_text n relation bound = [] ↔ n = 0.
Proof.
  intros Hb. destruct bound as [b|]; simpl.
  - destruct (decide (n = 0)); split; try done.
  - split; [by auto|done].
Qed.

Lemma no_min_no_violation (rules : rule) (l : list Q) :
  rule_min rules = None → length (filter (violates_min rules) l) = 0.
Proof.
  intros H. induction l as [|q l IH]; [done|].
  rewrite filter_cons. destruct (decide _) as [Hv|_]; [|done].
  unfold violates_min in Hv. by rewrite H in Hv.
Qed.

Lemma no_max_no_violation (rules : rule) (l : list Q) :
  rule_max rules = None → length (filter (violates_max rules) l) = 0.
Proof.
  intros H. induction l as [|q l IH]; [done|].
  rewrite filter_cons. destruct (decide _) as [Hv|_]; [|done].
  unfold violates_max in Hv. by rewrite H in Hv.
Qed.

(** C3. On a configured column that is present and numeric, the range check
    counts the numbers [<= min] (strict-positive rule) or [< min], and the
    numbers [> max]; it returns FAIL exactly when one of the two counts is
    nonzero, its message then joining the text of each violated bound with
    its count; otherwise it returns PASS and reports the least and the
    greatest number observed. *)
Theorem range_check_semantics
    (d : DataFrame) (col : string) (rules : rule) (s : Series) :
  column_of d col = Some s →
  numeric s = true →
  let below := length (filter (violates_min rules) (numbers s)) in
  let above := length (filter (violates_max rules) (numbers s)) in
  ∃ r lo hi,
    range_result col rules d = Ok r
    ∧ check_name r = "Range Check: " ++ col
    ∧ least_of (numbers s) lo
    ∧ greatest_of (numbers s) hi
    ∧ details r = [("min", DCell lo); ("max", DCell hi)]
    ∧ (status r = FAIL ↔ below ≠ 0 ∨ above ≠ 0)
    ∧ (status r = PASS ↔ below = 0 ∧ above = 0)
    ∧ (status r = FAIL →
         message r
         = String.concat "; "
             (bound_text below (relation_text rules) (rule_min rules)
              ++ bound_text above " values > " (rule_max rules))%list)
    ∧ (status r = PASS →
         ∃ slo shi, format_2f lo = Ok slo ∧ format_2f hi = Ok shi
           ∧ message r
             = "All values within valid range. Min=" ++ slo ++ ", Max=" ++ shi).
Proof.
  intros Hcol Hnum below above.
  assert (Hhas : has_column d col = true) by (apply has_column_true; eauto).
  pose proof (bound_text_nil below (relation_text rules) (rule_min rules)
                (λ H, no_min_no_violation rules _ H)) as Hb.
  pose proof (bound_text_nil above " values > " (rule_max rules)
                (λ H, no_max_no_violation rules _ H)) as Ha.
  unfold range_result. rewrite Hhas. simpl.
  rewrite (getitem_column _ _ _ Hcol). simpl.
  rewrite min_violations_numeric, max_violations_numeric by done. simpl.
  unfold series_min, series_max. rewrite dropna_numeric by done. simpl.
  fold below above.
  destruct (bound_text below (relation_text rules) (rule_min rules)
            ++ bound_text above " values > " (rule_max rules))%list
    as [|v vs] eqn:Ev.
  - apply app_eq_nil in Ev as [Ev1 Ev2].
    apply Hb in Ev1. apply Ha in Ev2.
    destruct (format_2f_reduce Qmin (numbers s)) as [slo Hslo].
    destruct (format_2f_reduce Qmax (numbers s)) as [shi Hshi].
    rewrite Hslo, Hshi. simpl.
    eexists _, (reduce Qmin (numbers s)), (reduce Qmax (numbers s)).
    split; [done|]. simpl.
    split; [done|]. split; [apply reduce_Qmin_least|].
    split; [apply reduce_Qmax_greatest|]. split; [done|].
    split; [split; [done|lia]|]. split; [done|]. split; [done|].
    intros _. by exists slo, shi.
  - assert (Hnz : below ≠ 0 ∨ above ≠ 0).
    { destruct (decide (below = 0)) as [H0|]; [|by left]. right. intros H1.
      apply Hb in H0. apply Ha in H1. rewrite H0, H1 in Ev. done. }
    eexists _, (reduce Qmin (numbers s)), (reduce Qmax (numbers s)).
    split; [done|]. simpl.
    split; [done|]. split; [apply reduce_Qmin_least|].
    split; [apply reduce_Qmax_greatest|]. split; [done|].
    split; [done|]. split; [split; [done|lia]|]. split; [done|done].
Qed.

Lemma range_check_semantics_witness :
  ∃ r, range_result "Rotational speed [rpm]"
         {| rule_min := Some 0%Z; rule_max := None; strict_positive := true |}
         (assign "Rotational speed [rpm]" (ints [1551; 0; -3]%Z) three_machines) = Ok r
       ∧ status r = FAIL
       ∧ message r = "2 values <= 0".
Proof.
  destruct (range_check_semantics
              (assign "Rotational speed [rpm]" (ints [1551; 0; -3]%Z) three_machines)
              "Rotational speed [rpm]"
              {| rule_min := Some 0%Z; rule_max := None; strict_positive := true |}
              (ints [1551; 0; -3]%Z) eq_refl eq_refl)
    as (r & lo & hi & Hr & _ & _ & _ & _ & Hfail & _ & Hmsg & _).
  assert (Hs : status r = FAIL) by (apply Hfail; left; vm_compute; lia).
  exists r. split; [done|]. split; [done|]. rewrite (Hmsg Hs). by vm_compute.
Defined.

(** ** The checks never raise on a missing column *)

Lemma record_check_ok (f : DataFrame → result ValidationResult)
    (v : DataValidator) (r : ValidationResult) :
  f (df v) = Ok r →
  record_check f v = (Ok r, {| df := df v; results := (results v ++ [r])%list |}).
Proof. intros H. unfold record_check, mthen, eval, append_result, mreturn. by rewrite H. Qed.

Lemma required_columns_total (d : DataFrame) :
  ∃ r, required_columns_result d = Ok r ∧ check_name r = "Required Columns".
Proof. unfold required_columns_result. destruct (bool_decide _); eauto. Qed.

Lemma type_domain_total (d : DataFrame) :
  ∃ r, type_domain_result d = Ok r ∧ check_name r = "Type Domain".
Proof.
  unfold type_domain_result. destruct (has_column d "Type") eqn:E; simpl; [|eauto].
  apply has_column_true in E as [s Hs]. rewrite (getitem_column _ _ _ Hs). simpl.
  destruct (List.filter _ _); eauto.
Qed.

Lemma non_binary_loop_total (cols : list string) (d : DataFrame) :
  ∃ l, non_binary_loop cols d = Ok l.
Proof.
  induction cols as [|col cols [l IH]]; simpl; [eauto|].
  destruct (has_column d col) eqn:E; [|eauto].
  apply has_column_true in E as [s Hs]. rewrite (getitem_column _ _ _ Hs). simpl.
  rewrite IH. simpl. eauto.
Qed.

Lemma binary_flags_total (d : DataFrame) :
  ∃ r, binary_flags_result d = Ok r ∧ check_name r = "Binary Flags" ∧ status r ≠ WARN.
Proof.
  unfold binary_flags_result.
  destruct (non_binary_loop_total (TARGET_COL :: FAILURE_MODE_COLS) d) as [l ->]. simpl.
  destruct l; eauto.
Qed.

Lemma inconsistent_loop_total (cols : list string) (m : list bool) (d : DataFrame) :
  ∃ l, inconsistent_loop cols m d = Ok l.
Proof.
  induction cols as [|col cols [l IH]]; simpl; [eauto|].
  destruct (has_column d col) eqn:E; [|eauto].
  apply has_column_true in E as [s Hs]. rewrite (getitem_column _ _ _ Hs). simpl.
  rewrite IH. simpl. eauto.
Qed.

Lemma failure_consistency_total (d : DataFrame) :
  ∃ r, failure_consistency_result d = Ok r ∧ check_name r = "Failure Consistency"
       ∧ status r ≠ FAIL.
Proof.
  unfold failure_consistency_result.
  destruct (has_column d TARGET_COL) eqn:E; cbn [negb]; [|eauto].
  apply has_column_true in E as [s Hs]. rewrite (getitem_column _ _ _ Hs).
  unfold mbind, result_bind.
  destruct (inconsistent_loop_total FAILURE_MODE_COLS (eq_scalar s 0) d) as [l ->].
  destruct (bool_decide _); eauto.
Qed.

Lemma null_values_total (d : DataFrame) :
  ∃ r, null_values_result d = Ok r ∧ check_name r = "Null Values".
Proof. unfold null_values_result. destruct (bool_decide _); eauto. Qed.

Lemma range_result_missing (col : string) (rules : rule) (d : DataFrame) :
  has_column d col = false →
  ∃ r, range_result col rules d = Ok r
       ∧ check_name r = "Range Check: " ++ col ∧ status r = WARN.
Proof. intros H. unfold range_result. rewrite H. simpl. eauto. Qed.

Lemma range_result_total (col : string) (rules : rule) (d : DataFrame) :
  (∀ s, column_of d col = Some s → numeric s = true) →
  ∃ r, range_result col rules d = Ok r ∧ check_name r = "Range Check: " ++ col.
Proof.
  intros Hnum. destruct (has_column d col) eqn:E.
  - pose proof E as Hhas. apply has_column_true in E as [s Hs].
    pose proof (Hnum s Hs) as Hn.
    unfold range_result. rewrite Hhas. cbn [negb].
    rewrite (getitem_column _ _ _ Hs). cbn [mbind result_bind].
    rewrite min_violations_numeric, max_violations_numeric by done.
    cbn [mbind result_bind].
    unfold series_min, series_max. rewrite dropna_numeric by done.
    cbn [mbind result_bind].
    destruct (_ ++ _)%list; [|eauto].
    destruct (format_2f_reduce Qmin (numbers s)) as [slo ->].
    destruct (format_2f_reduce Qmax (numbers s)) as [shi ->]. eauto.
  - destruct (range_result_missing col rules d E) as (r & Hr & Hn & _). eauto.
Qed.

Lemma range_loop_results (rules : list (string * rule)) (acc : list ValidationResult)
    (v : DataValidator) :
  ranges_numeric rules (df v) = true →
  ∃ rs, range_loop rules acc v
        = (Ok (acc ++ rs)%list, {| df := df v; results := (results v ++ rs)%list |})
      ∧ Forall2 (λ rule r, range_result rule.1 rule.2 (df v) = Ok r) rules rs
      ∧ check_name <$> rs = (λ c, "Range Check: " ++ c.1) <$> rules.
Proof.
  revert acc v. induction rules as [|[col r] rules IH]; intros acc v Hnum; simpl.
  - exists []. rewrite !app_nil_r. by destruct v.
  - simpl in Hnum. apply andb_true_iff in Hnum as [Hcol Hrest].
    destruct (range_result_total col r (df v)) as (res & Hres & Hname).
    { intros s Hs. by rewrite Hs in Hcol. }
    unfold mthen, eval, append_result. rewrite Hres.
    destruct (IH (acc ++ [res])%list
                {| df := df v; results := (results v ++ [res])%list |} Hrest)
      as (rs & Hrs & Hall & Hnames).
    exists (res :: rs). split; [|split].
    + rewrite Hrs. cbn [df results]. by rewrite <- !app_assoc.
    + by constructor.
    + by rewrite !fmap_cons, Hname, Hnames.
Qed.

(** [check_numeric_ranges] returns, and appends to [results], the result of
    the range check of every rule, in the order of the rules. *)
Lemma check_numeric_ranges_each (v : DataValidator) :
  ranges_numeric VALIDATION_RULES (df v) = true →
  ∃ rs, check_numeric_ranges v
        = (Ok rs, {| df := df v; results := (results v ++ rs)%list |})
      ∧ Forall2 (λ rule r, range_result rule.1 rule.2 (df v) = Ok r) VALIDATION_RULES rs.
Proof.
  intros H. destruct (range_loop_results VALIDATION_RULES [] v H) as (rs & Hrs & Hall & _).
  exists rs. split; [exact Hrs|exact Hall].
Qed.

(** C1, as stated, fails: on a table with a text in a range-checked column
    the comparison with the minimum raises [TypeError], and the validator
    is left with three results instead of ten. *)
Lemma run_all_checks_raises_on_text :
  ∃ rs, run_all_checks (init worn_tool)
        = (Raise TypeError, {| df := worn_tool; results := rs |})
        ∧ check_name <$> rs
          = ["Required Columns"; "Type Domain"; "Range Check: Torque [Nm]"].
Proof. eexists. split; [by vm_compute|done]. Qed.

(** C1 (amended). On a table whose range-checked columns hold no text,
    whatever results the validator held before, [run_all_checks] returns
    the list it leaves in [results]: Required Columns, Type Domain, one range
    check per configured column in configuration order, Binary Flags, Failure
    Consistency, Null Values -- five results plus one per rule, ten with the
    shipped rules. *)
Theorem run_all_checks_battery
    (rules : list (string * rule)) (v : DataValidator) :
  ranges_numeric rules (df v) = true →
  ∃ rs,
    run_all_checks_with rules v = (Ok rs, {| df := df v; results := rs |})
    ∧ check_name <$> rs
      = (["Required Columns"; "Type Domain"]
         ++ ((λ c, ("Range Check: " ++ c.1)%string) <$> rules)
         ++ ["Binary Flags"; "Failure Consistency"; "Null Values"])%list
    ∧ length rs = 5 + length rules
    ∧ (rules = VALIDATION_RULES →
       run_all_checks v = (Ok rs, {| df := df v; results := rs |}) ∧ length rs = 10).
Proof.
  intros Hnum.
  destruct (required_columns_total (df v)) as (r1 & Hr1 & Hn1).
  destruct (type_domain_total (df v)) as (r2 & Hr2 & Hn2).
  destruct (binary_flags_total (df v)) as (r4 & Hr4 & Hn4 & _).
  destruct (failure_consistency_total (df v)) as (r5 & Hr5 & Hn5 & _).
  destruct (null_values_total (df v)) as (r6 & Hr6 & Hn6).
  destruct (range_loop_results rules [] {| df := df v; results := [r1; r2] |} Hnum)
    as (rs & Hrs & _ & Hnames).
  exists ([r1; r2] ++ rs ++ [r4; r5; r6])%list.
  assert (Hrun : run_all_checks_with rules v
                 = (Ok ([r1; r2] ++ rs ++ [r4; r5; r6])%list,
                    {| df := df v; results := ([r1; r2] ++ rs ++ [r4; r5; r6])%list |})).
  { unfold run_all_checks_with, check_required_columns, check_type_domain,
      check_numeric_ranges_with, check_binary_flags, check_failure_consistency,
      check_null_values, reset_results, get_results.
    unfold mthen at 1. unfold mthen at 1.
    rewrite (record_check_ok _ _ r1) by done. simpl.
    unfold mthen at 1. rewrite (record_check_ok _ _ r2) by done. simpl.
    unfold mthen at 1. rewrite Hrs. simpl.
    unfold mthen at 1. rewrite (record_check_ok _ _ r4) by done. simpl.
    unfold mthen at 1. rewrite (record_check_ok _ _ r5) by done. simpl.
    unfold mthen at 1. rewrite (record_check_ok _ _ r6) by done. simpl.
    by rewrite <- !app_assoc. }
  assert (Hlen : length ([r1; r2] ++ rs ++ [r4; r5; r6])%list = 5 + length rules).
  { apply (f_equal length) in Hnames. rewrite !length_fmap in Hnames.
    rewrite !length_app. simpl. lia. }
  split; [done|]. split.
  - rewrite !fmap_app, Hnames. simpl. by rewrite Hn1, Hn2, Hn4, Hn5, Hn6.
  - split; [done|]. intros ->. split; [done|]. by rewrite Hlen.
Qed.

Lemma run_all_checks_battery_witness :
  ∃ rs, run_all_checks (init three_machines)
        = (Ok rs, {| df := three_machines; results := rs |})
      ∧ length rs = 10.
Proof.
  destruct (run_all_checks_battery VALIDATION_RULES (init three_machines) eq_refl)
    as (rs & _ & _ & _ & Hshipped).
  exists rs. by apply Hshipped.
Defined.

(** ** Binary Flags and the policy on missing columns *)

Lemma Qeq_bool_trans_l (a b k : Q) :
  Qeq_bool a b = true → Qeq_bool a k = Qeq_bool b k.
Proof.
  intros Hab. apply Qeq_bool_iff in Hab.
  destruct (Qeq_bool a k) eqn:Ea, (Qeq_bool b k) eqn:Eb; try done.
  - apply Qeq_bool_iff in Ea. rewrite Hab in Ea. apply Qeq_bool_iff in Ea. congruence.
  - apply Qeq_bool_iff in Eb. rewrite <- Hab in Eb. apply Qeq_bool_iff in Eb. congruence.
Qed.

Lemma is_binary_eqb (a b : cell) : cell_eqb a b = true → is_binary a = is_binary b.
Proof.
  destruct a as [p|s|], b as [q|t|]; simpl; try done.
  intros H. by rewrite (Qeq_bool_trans_l p q 0 H), (Qeq_bool_trans_l p q 1 H).
Qed.

Lemma forallb_unique_acc (P : cell → bool) (seen : list cell) (s : Series) :
  (∀ a b, cell_eqb a b = true → P a = P b) →
  forallb P seen = true →
  forallb P (unique_acc seen s) = forallb P s.
Proof.
  intros HP. revert seen. induction s as [|c s IH]; intros seen Hseen; simpl; [done|].
  destruct (existsb (cell_eqb c) seen) eqn:E.
  - apply existsb_exists in E as (x & Hx & Hcx).
    rewrite forallb_forall in Hseen. rewrite (HP c x Hcx), (Hseen x Hx). simpl.
    apply IH. by apply forallb_forall.
  - simpl. destruct (P c) eqn:Ec; simpl; [|done].
    apply IH. simpl. by rewrite Ec.
Qed.

Lemma forallb_unique (P : cell → bool) (s : Series) :
  (∀ a b, cell_eqb a b = true → P a = P b) →
  forallb P (unique s) = forallb P s.
Proof. intros HP. by apply forallb_unique_acc. Qed.

Lemma forallb_false_elem {A} (P : A → bool) (l : list A) :
  forallb P l = false ↔ ∃ x, x ∈ l ∧ P x = false.
Proof.
  induction l as [|a l IH]; simpl.
  - split; [done|]. by intros (x & ?%elem_of_nil & _).
  - rewrite andb_false_iff, IH. split.
    + intros [H|(x & Hx & HP)]; [exists a; split; [left|done]|].
      exists x. split; [by right|done].
    + intros (x & [->|Hx]%elem_of_cons & HP); [by left|]. right. eauto.
Qed.

Lemma non_binary_loop_spec (cols : list string) (d : DataFrame) :
  ∃ l, non_binary_loop cols d = Ok l
       ∧ (l ≠ [] ↔ ∃ c s x, c ∈ cols ∧ column_of d c = Some s
                             ∧ x ∈ s ∧ is_binary x = false).
Proof.
  induction cols as [|col cols (l & Hl & IH)]; simpl.
  - exists []. split; [done|]. split; [done|]. by intros (c & s & x & ?%elem_of_nil & _).
  - destruct (has_column d col) eqn:E.
    + apply has_column_true in E as [s Hs]. rewrite (getitem_column _ _ _ Hs). simpl.
      rewrite Hl. simpl. rewrite (forallb_unique _ _ is_binary_eqb).
      destruct (forallb is_binary s) eqn:Eb; simpl.
      * exists l. split; [done|]. rewrite IH. split.
        -- intros (c & s' & x & Hc & Hrest). exists c, s', x. split; [by right|done].
        -- intros (c & s' & x & [->|Hc]%elem_of_cons & Hs' & Hx & Hb).
           ++ rewrite Hs in Hs'. injection Hs' as <-.
              assert (forallb is_binary s = false) by (apply forallb_false_elem; eauto).
              congruence.
           ++ exists c, s', x. done.
      * eexists. split; [done|]. split; [|done]. intros _.
        apply forallb_false_elem in Eb as (x & Hx & Hb).
        exists col, s, x. split; [left|done].
    + exists l. split; [done|]. rewrite IH. apply has_column_false in E. split.
      * intros (c & s' & x & Hc & Hrest). exists c, s', x. split; [by right|done].
      * intros (c & s' & x & [->|Hc]%elem_of_cons & Hs' & Hx & Hb); [congruence|].
        exists c, s', x. done.
Qed.

(** C2, as stated, fails for the Binary Flags check: on a table without the
    target and the failure mode columns it returns PASS, not WARN. *)
Lemma binary_flags_pass_on_missing_columns :
  has_column no_flags TARGET_COL = false
  ∧ Forall (λ c, has_column no_flags c = false) FAILURE_MODE_COLS
  ∧ ∃ r, binary_flags_result no_flags = Ok r ∧ status r = PASS ∧ status r ≠ WARN.
Proof.
  split; [done|]. split; [by repeat constructor|].
  eexists. split; [by vm_compute|]. done.
Qed.

(** C2 (amended). For a column [col] that the table lacks, no check raises:
    the range check of [col] gives WARN; Failure Consistency gives WARN when
    [col] is the target; Type Domain gives FAIL when [col] is ["Type"];
    Required Columns gives FAIL when [col] is required. Binary Flags never
    gives WARN: it skips the flag columns that are absent and gives FAIL
    exactly when a flag column that is present holds a cell other than the
    numbers 0 and 1, PASS otherwise. Failure Consistency, which skips the
    failure mode columns that are absent, never gives FAIL. *)
Theorem missing_column_policy (d : DataFrame) (col : string) :
  has_column d col = false →
  (∀ rules, ∃ r, range_result col rules d = Ok r ∧ status r = WARN)
  ∧ (col = TARGET_COL → ∃ r, failure_consistency_result d = Ok r ∧ status r = WARN)
  ∧ (col = "Type" → ∃ r, type_domain_result d = Ok r ∧ status r = FAIL)
  ∧ (col ∈ REQUIRED_COLUMNS → ∃ r, required_columns_result d = Ok r ∧ status r = FAIL)
  ∧ ∃ r, binary_flags_result d = Ok r
      ∧ status r ≠ WARN
      ∧ (status r = PASS ∨ status r = FAIL)
      ∧ (status r = FAIL ↔
         ∃ c s x, c ∈ TARGET_COL :: FAILURE_MODE_COLS ∧ column_of d c = Some s
                  ∧ x ∈ s ∧ is_binary x = false)
      ∧ ∃ r', failure_consistency_result d = Ok r' ∧ status r' ≠ FAIL.
Proof.
  intros Hcol. split; [|split; [|split; [|split]]].
  - intros rules. destruct (range_result_missing col rules d Hcol) as (r & Hr & _ & Hs).
    eauto.
  - intros ->. unfold failure_consistency_result. rewrite Hcol. cbn [negb]. eauto.
  - intros ->. unfold type_domain_result. rewrite Hcol. cbn [negb]. eauto.
  - intros Hreq. destruct (required_columns_fail d) as (r & Hr & Hs & _); [|eauto].
    intros He. assert (Hin : col ∈ missing_of d).
    { unfold missing_of. rewrite elem_of_difference, !elem_of_list_to_set.
      split; [done|]. unfold has_column in Hcol. by apply bool_decide_eq_false in Hcol. }
    rewrite He in Hin. by apply not_elem_of_empty in Hin.
  - unfold binary_flags_result.
    destruct (non_binary_loop_spec (TARGET_COL :: FAILURE_MODE_COLS) d) as (l & -> & Hl).
    destruct (failure_consistency_total d) as (r' & Hr' & _ & Hs').
    cbn [mbind result_bind]. destruct l as [|b l].
    + eexists. split; [done|]. cbn [status]. split; [done|]. split; [by left|].
      split; [rewrite <- Hl; done|eauto].
    + eexists. split; [done|]. cbn [status]. split; [done|]. split; [by right|].
      split; [rewrite <- Hl; done|eauto].
Qed.

Lemma missing_column_policy_witness :
  has_column no_flags TARGET_COL = false
  ∧ (∃ r, failure_consistency_result no_flags = Ok r ∧ status r = WARN)
  ∧ (∃ r, binary_flags_result no_flags = Ok r ∧ status r ≠ WARN).
Proof.
  destruct (missing_column_policy no_flags TARGET_COL eq_refl)
    as (_ & Hfc & _ & _ & r & Hr & Hs & _).
  split; [done|]. split; [by apply Hfc|]. by exists r.
Defined.

(** ** Degenerate inputs of the KPI aggregations *)

Import kpi.

Lemma series_sum_numeric (s : Series) :
  numeric s = true → series_sum s = Ok (Qsum (numbers s)).
Proof. intros H. unfold series_sum. by rewrite dropna_numeric. Qed.

Lemma overall_failure_rate_no_rows (d : DataFrame) (target : Series) :
  len d = 0 →
  column_of d TARGET_COL = Some target →
  numeric target = true →
  ∃ o, compute_overall_failure_rate d = Ok o
       ∧ total_records o = 0 ∧ failure_rate o = 0%Q ∧ failure_rate_pct o = (0 * 100)%Q.
Proof.
  intros Hlen Ht Hnum. unfold compute_overall_failure_rate.
  rewrite (getitem_column _ _ _ Ht). cbn [mbind result_bind].
  rewrite series_sum_numeric by done. rewrite Hlen.
  rewrite bool_decide_eq_false_2 by lia. eauto.
Qed.

Lemma mode_record_no_rows (d : DataFrame) (total_failures : Q) (mode : string)
    (s : Series) :
  column_of d mode = Some s →
  numeric s = true →
  mode_record d total_failures 0 mode = Raise ZeroDivisionError.
Proof.
  intros Hs Hnum. unfold mode_record.
  rewrite (getitem_column _ _ _ Hs). cbn [mbind result_bind].
  by rewrite series_sum_numeric by done.
Qed.

(** On a table with rows the mode counts are defined: one row per failure
    mode, in the declared order, whose percentage of failures is 0 when the
    table has no failure. *)
Lemma failure_mode_counts_with_rows (d : DataFrame) (target : Series) :
  (0 < len d)%nat →
  column_of d TARGET_COL = Some target →
  numeric target = true →
  Forall (λ mode, ∃ s, column_of d mode = Some s ∧ numeric s = true) FAILURE_MODE_COLS →
  ∃ rows, compute_failure_mode_counts d = Ok rows
          ∧ failure_mode <$> rows = FAILURE_MODE_COLS
          ∧ ((Qsum (numbers target) == 0)%Q → Forall (λ r, pct_of_failures r = 0%Q) rows).
Proof.
  intros Hlen Ht Hnum Hmodes. unfold compute_failure_mode_counts.
  rewrite (getitem_column _ _ _ Ht). cbn [mbind result_bind].
  rewrite series_sum_numeric by done.
  set (total := Qsum (numbers target)).
  set (row := λ mode, match column_of d mode with
                      | Some s =>
                          let count := int_of (Qsum (numbers s)) in
                          {| failure_mode := mode;
                             mode_count := count;
                             pct_of_failures :=
                               if Qlt_bool 0 total
                               then (inject_Z count / total * 100)%Q else 0%Q;
                             pct_of_total :=
                               (inject_Z count / inject_Z (Z.of_nat (len d)) * 100)%Q |}
                      | None => {| failure_mode := mode; mode_count := 0;
                                   pct_of_failures := 0; pct_of_total := 0 |}
                      end).
  exists (row <$> FAILURE_MODE_COLS). split; [|split].
  - apply for_each_total. intros mode Hmode.
    rewrite Forall_forall in Hmodes. destruct (Hmodes mode Hmode) as (s & Hs & Hsnum).
    unfold mode_record, row. rewrite (getitem_column _ _ _ Hs), Hs.
    cbn [mbind result_bind]. rewrite series_sum_numeric by done.
    unfold int_truediv. destruct (Z.eqb_spec (Z.of_nat (len d)) 0) as [H0|_]; [lia|].
    done.
  - rewrite <- list_fmap_compose. rewrite <- (list_fmap_id FAILURE_MODE_COLS) at 2.
    apply list_fmap_ext. intros i mode _. unfold row. simpl.
    by destruct (column_of d mode).
  - intros Hzero. apply Forall_fmap, Forall_true. intros mode. unfold row. simpl.
    destruct (column_of d mode); [|done]. simpl.
    assert (Hlt : Qlt_bool 0 total = false).
    { destruct (Qlt_bool 0 total) eqn:E; [|done]. apply Qlt_bool_iff in E.
      rewrite Hzero in E. by apply Qlt_irrefl in E. }
    by rewrite Hlt.
Qed.

(** C5, where the code departs from it. On a table without rows that holds
    the target and the first failure mode column, the overall failure rate
    defaults to 0, but [compute_failure_mode_counts] raises
    [ZeroDivisionError]: the percentage of all records divides by the row
    count without the guard that the percentage of failures has. *)
Theorem failure_mode_counts_no_rows (d : DataFrame) (target twf : Series) :
  len d = 0 →
  column_of d TARGET_COL = Some target →
  numeric target = true →
  column_of d "TWF" = Some twf →
  numeric twf = true →
  (∃ o, compute_overall_failure_rate d = Ok o ∧ failure_rate o = 0%Q)
  ∧ compute_failure_mode_counts d = Raise ZeroDivisionError.
Proof.
  intros Hlen Ht Hnum Hm Hmnum. split.
  - destruct (overall_failure_rate_no_rows d target) as (o & Ho & _ & Hr & _); eauto.
  - unfold compute_failure_mode_counts.
    rewrite (getitem_column _ _ _ Ht). cbn [mbind result_bind].
    rewrite series_sum_numeric by done.
    unfold FAILURE_MODE_COLS. cbn [for_each mbind result_bind]. rewrite Hlen.
    by rewrite (mode_record_no_rows d _ "TWF" twf).
Qed.

Lemma failure_mode_counts_no_rows_witness :
  len empty_table = 0
  ∧ compute_failure_mode_counts empty_table = Raise ZeroDivisionError.
Proof.
  split; [done|].
  apply (failure_mode_counts_no_rows empty_table [] [] eq_refl eq_refl eq_refl eq_refl eq_refl).
Defined.

(** ** Temperature delta statistics *)

Lemma numeric_select (m : list bool) (s : Series) :
  numeric s = true → numeric (select m s) = true.
Proof.
  revert m. induction s as [|c s IH]; intros m; destruct m as [|b m]; simpl; try done.
  intros [Hc Hs]%andb_true_iff. destruct b; simpl; [rewrite Hc|]; by apply IH.
Qed.

Lemma series_mean_numeric (s : Series) :
  numeric s = true → ∃ c, series_mean s = Ok c.
Proof.
  intros H. unfold series_mean. rewrite dropna_numeric by done. simpl.
  destruct (numbers s); eauto.
Qed.

Lemma series_median_numeric (s : Series) :
  numeric s = true → ∃ c, series_median s = Ok c.
Proof.
  intros H. unfold series_median. rewrite dropna_numeric by done. simpl.
  destruct (length _); [eauto|]. destruct (Nat.even _); eauto.
Qed.

Lemma series_std_numeric (s : Series) :
  numeric s = true →
  ∃ c, series_std s = Ok c ∧ (length (numbers s) < 2 → c = RootNaN).
Proof.
  intros H. unfold series_std. rewrite dropna_numeric by done. simpl.
  destruct (bool_decide _) eqn:E.
  - eauto.
  - apply bool_decide_eq_false in E. eexists. split; [done|]. intros ?. lia.
Qed.

Lemma group_statistics_numeric (s : Series) :
  numeric s = true →
  ∃ g, group_statistics s = Ok g ∧ group_count g = length s
       ∧ (length (numbers s) < 2 → group_std g = RootNaN).
Proof.
  intros H. unfold group_statistics.
  destruct (series_mean_numeric s H) as [m ->].
  destruct (series_median_numeric s H) as [md ->].
  destruct (series_std_numeric s H) as (sd & -> & Hsd). simpl. eauto.
Qed.

(** C7, as stated, fails: with the derived column and without the target
    column the function raises [KeyError] instead of returning the
    statistics. *)
Lemma temp_delta_stats_without_target :
  has_column delta_without_target "Temp_Delta [K]" = true
  ∧ compute_temp_delta_stats delta_without_target = Raise (KeyError TARGET_COL).
Proof. split; by vm_compute. Qed.

(** C7 (amended). Without the derived column, [compute_temp_delta_stats]
    returns the mapping with the error message and raises nothing, whatever
    else the table holds. With the derived column it reads the target
    column: without it, it raises [KeyError]; with it and a numeric derived
    column, it returns the three statistics mappings. The overall mean,
    median and standard deviation are those of the whole derived column, its
    minimum and maximum are the least and the greatest of its numbers, the
    statistics of the failed and of the non-failed group are those of the
    derived values in the rows with target 1 and with target 0, whose number
    is the group's count, and the standard deviation is not-a-number on
    fewer than two values. *)
Theorem temp_delta_stats_payload (d : DataFrame) :
  (has_column d "Temp_Delta [K]" = false →
   compute_temp_delta_stats d
   = Ok (error "Column 'Temp_Delta [K]' not found. Run preprocessing first."))
  ∧ (has_column d "Temp_Delta [K]" = true →
     column_of d TARGET_COL = None →
     compute_temp_delta_stats d = Raise (KeyError TARGET_COL))
  ∧ (∀ delta target,
       column_of d "Temp_Delta [K]" = Some delta →
       numeric delta = true →
       column_of d TARGET_COL = Some target →
       ∃ o f nf,
         compute_temp_delta_stats d = Ok (stats o f nf)
         ∧ series_mean delta = Ok (mean o)
         ∧ series_median delta = Ok (median o)
         ∧ series_std delta = Ok (std o)
         ∧ least_of (numbers delta) (min o)
         ∧ greatest_of (numbers delta) (max o)
         ∧ group_statistics (select (eq_scalar target 1) delta) = Ok f
         ∧ group_statistics (select (eq_scalar target 0) delta) = Ok nf
         ∧ group_count f = length (select (eq_scalar target 1) delta)
         ∧ group_count nf = length (select (eq_scalar target 0) delta)
         ∧ (length (numbers delta) < 2 → std o = RootNaN)).
Proof.
  split; [|split].
  - intros H. unfold compute_temp_delta_stats. by rewrite H.
  - intros Hhas Hnone.
    assert (Hget : getitem d TARGET_COL = Raise (KeyError TARGET_COL)).
    { unfold getitem. unfold column_of in Hnone. by rewrite Hnone. }
    unfold compute_temp_delta_stats. by rewrite Hhas, Hget.
  - intros delta target Hd Hnum Ht.
    assert (Hhas : has_column d "Temp_Delta [K]" = true) by (apply has_column_true; eauto).
    destruct (series_mean_numeric delta Hnum) as [m Hm].
    destruct (series_median_numeric delta Hnum) as [md Hmd].
    destruct (series_std_numeric delta Hnum) as (sd & Hsd & Hfew).
    destruct (group_statistics_numeric (select (eq_scalar target 1) delta))
      as (f & Hf & Hfc & _); [by apply numeric_select|].
    destruct (group_statistics_numeric (select (eq_scalar target 0) delta))
      as (nf & Hnf & Hnfc & _); [by apply numeric_select|].
    unfold compute_temp_delta_stats. rewrite Hhas. cbn [negb].
    rewrite (getitem_column _ _ _ Ht), (getitem_column _ _ _ Hd). cbn [mbind result_bind].
    rewrite Hm, Hmd, Hsd. cbn [mbind result_bind].
    unfold series_min, series_max. rewrite dropna_numeric by done.
    cbn [mbind result_bind]. rewrite Hf, Hnf. cbn [mbind result_bind].
    eexists _, f, nf. split; [done|]. cbn [mean median min max std].
    split; [done|]. split; [done|]. split; [done|].
    split; [apply reduce_Qmin_least|]. split; [apply reduce_Qmax_greatest|]. done.
Qed.

Lemma temp_delta_stats_payload_witness :
  compute_temp_delta_stats three_machines
  = Ok (error "Column 'Temp_Delta [K]' not found. Run preprocessing first.")
  ∧ ∃ o f nf,
      compute_temp_delta_stats
        (assign "Temp_Delta [K]" (ints [10; 11; 10]%Z) three_machines)
      = Ok (stats o f nf)
      ∧ group_count f = 1 ∧ group_count nf = 2.
Proof.
  split.
  - apply (proj1 (temp_delta_stats_payload three_machines) eq_refl).
  - destruct (proj2 (proj2 (temp_delta_stats_payload
                       (assign "Temp_Delta [K]" (ints [10; 11; 10]%Z) three_machines)))
                (ints [10; 11; 10]%Z) (ints [0; 1; 0]%Z) eq_refl eq_refl eq_refl)
      as (o & f & nf & H & _ & _ & _ & _ & _ & _ & _ & Hf & Hnf & _).
    by exists o, f, nf.
Defined.

(** ** Quantile categories *)

Import preprocess.

Lemma quantile_numeric (s : Series) (q : Q) :
  numeric s = true → (0 <= q)%Q → (q <= 1)%Q →
  quantile s q
  = Ok (match numbers s with
        | [] => NaN
        | _ :: _ => Num (interpolate (sort_by Qle_bool (numbers s)) q)
        end).
Proof.
  intros Hs H0 H1. unfold quantile.
  apply Qle_bool_iff in H0, H1. rewrite H0, H1. cbn [andb negb].
  rewrite dropna_numeric by done. cbn [mbind result_bind]. by destruct (numbers s).
Qed.

Lemma numbers_nil_cells (s : Series) :
  numeric s = true → numbers s = [] → Forall (λ c, c = NaN) s.
Proof.
  induction s as [|c s IH]; simpl; [constructor|].
  destruct c as [q|t|]; simpl; try done. intros H Hn. constructor; [done|by apply IH].
Qed.

Lemma assign_category_label (l h : Q) (x : cell) :
  (∀ t, x ≠ Str t) →
  assign_category (Num l) (Num h) x = Ok (label_of (Num l) (Num h) x).
Proof.
  intros Hx. destruct x as [a|t|]; [|by destruct (Hx t)|done].
  unfold assign_category, label_of. simpl. unfold Qge_bool.
  destruct (Qle_bool a l); [done|]. simpl. by destruct (Qle_bool h a).
Qed.

Lemma numeric_elem (s : Series) (x : cell) :
  numeric s = true → x ∈ s → ∀ t, x ≠ Str t.
Proof.
  intros H Hx t ->. unfold numeric in H. rewrite forallb_forall in H.
  apply list_elem_of_In in Hx. by apply H in Hx.
Qed.

Lemma label_of_cases (l h : Q) (x : cell) :
  let lab := label_of (Num l) (Num h) x in
  (lab = "Low" ∨ lab = "Medium" ∨ lab = "High")
  ∧ (lab = "Low" ↔ cell_le x (Num l))
  ∧ (lab = "High" ↔ cell_lt (Num l) x ∧ cell_le (Num h) x)
  ∧ (lab = "Medium" ↔ ¬ cell_le x (Num l) ∧ ¬ cell_le (Num h) x).
Proof.
  destruct x as [a|t|]; simpl; try (by intuition discriminate).
  destruct (Qle_bool a l) eqn:El.
  - apply Qle_bool_iff in El. split; [by left|]. split; [done|]. split.
    + split; [done|]. intros [Hlt _]. by apply Qlt_not_le in Hlt.
    + split; [done|]. by intros [? _].
  - assert (Hgt : (l < a)%Q).
    { apply Qnot_le_lt. intros H. apply Qle_bool_iff in H. congruence. }
    assert (Hnle : ¬ (a <= l)%Q) by by apply Qlt_not_le.
    destruct (Qle_bool h a) eqn:Eh.
    + apply Qle_bool_iff in Eh. split; [by right; right|].
      split; [done|]. split; [done|]. split; [done|]. by intros [_ ?].
    + assert (Hnh : ¬ (h <= a)%Q).
      { intros H. apply Qle_bool_iff in H. congruence. }
      split; [by right; left|]. split; [done|]. split; [|done].
      split; [done|]. by intros [_ ?].
Qed.

Lemma occurrences_partition (labels : list string) :
  Forall (λ lab, lab = "Low" ∨ lab = "Medium" ∨ lab = "High") labels →
  occurrences "Low" labels + occurrences "Medium" labels + occurrences "High" labels
  = length labels.
Proof.
  unfold occurrences. induction 1 as [|lab labels Hlab _ IH]; [done|].
  rewrite !fmap_cons. cbn [count_true length].
  destruct Hlab as [-> | [-> | ->]]; simpl in *; lia.
Qed.

(** C10. On a numeric series and quantiles in [0, 1], every element gets
    exactly one of the three labels, with Low taking precedence: Low iff
    [x <= low], High iff [x > low] and [x >= high], Medium otherwise; the
    three label counts add up to the length of the series. *)
Theorem categorize_by_quantiles_labels (series : Series) (q_low q_high : Q) :
  numeric series = true →
  (0 <= q_low)%Q → (q_low <= 1)%Q →
  (0 <= q_high)%Q → (q_high <= 1)%Q →
  ∃ lo hi labels,
    quantile series q_low = Ok lo
    ∧ quantile series q_high = Ok hi
    ∧ categorize_by_quantiles series q_low q_high = Ok labels
    ∧ length labels = length series
    ∧ (∀ i x, series !! i = Some x →
         ∃ lab, labels !! i = Some lab
           ∧ (lab = "Low" ∨ lab = "Medium" ∨ lab = "High")
           ∧ (lab = "Low" ↔ cell_le x lo)
           ∧ (lab = "High" ↔ cell_lt lo x ∧ cell_le hi x)
           ∧ (lab = "Medium" ↔ ¬ cell_le x lo ∧ ¬ cell_le hi x))
    ∧ occurrences "Low" labels + occurrences "Medium" labels
      + occurrences "High" labels = length series.
Proof.
  intros Hnum Hl0 Hl1 Hh0 Hh1. unfold categorize_by_quantiles.
  rewrite !quantile_numeric by done. cbn [mbind result_bind].
  destruct (numbers series) as [|n ns] eqn:En.
  - pose proof (numbers_nil_cells series Hnum En) as Hall.
    exists NaN, NaN, ((λ _, "Medium") <$> series).
    split; [done|]. split; [done|]. split.
    { apply for_each_total. intros x Hx. rewrite Forall_forall in Hall.
      by rewrite (Hall x Hx). }
    split; [by rewrite length_fmap|]. split.
    + intros i x Hx. exists "Medium". rewrite list_lookup_fmap, Hx.
      split; [done|]. split; [by right; left|].
      destruct x; simpl; intuition discriminate.
    + rewrite <- (length_fmap (λ _ : cell, "Medium") series).
      apply occurrences_partition, Forall_fmap, Forall_true. intros ?. by right; left.
  - set (lo := interpolate (sort_by Qle_bool (n :: ns)) q_low).
    set (hi := interpolate (sort_by Qle_bool (n :: ns)) q_high).
    exists (Num lo), (Num hi), (label_of (Num lo) (Num hi) <$> series).
    split; [done|]. split; [done|]. split.
    { apply for_each_total. intros x Hx. apply assign_category_label.
      by apply (numeric_elem series). }
    split; [by rewrite length_fmap|]. split.
    + intros i x Hx. exists (label_of (Num lo) (Num hi) x).
      rewrite list_lookup_fmap, Hx. split; [done|]. apply label_of_cases.
    + rewrite <- (length_fmap (label_of (Num lo) (Num hi)) series).
      apply occurrences_partition, Forall_fmap, Forall_true. intros x.
      apply label_of_cases.
Qed.

Lemma categorize_by_quantiles_labels_witness :
  ∃ lo hi labels,
    quantile (ints [7; 7; 7]%Z) QUANTILE_LOW = Ok lo
    ∧ quantile (ints [7; 7; 7]%Z) QUANTILE_HIGH = Ok hi
    ∧ categorize_by_quantiles (ints [7; 7; 7]%Z) QUANTILE_LOW QUANTILE_HIGH = Ok labels
    ∧ labels = ["Low"; "Low"; "Low"]
    ∧ occurrences "Low" labels + occurrences "Medium" labels
      + occurrences "High" labels = 3.
Proof.
  destruct (categorize_by_quantiles_labels (ints [7; 7; 7]%Z) QUANTILE_LOW QUANTILE_HIGH)
    as (lo & hi & labels & Hlo & Hhi & Hc & _ & _ & Hocc);
    [done | by vm_compute | by vm_compute | by vm_compute | by vm_compute |].
  exists lo, hi, labels. split; [done|]. split; [done|]. split; [done|].
  split; [|done].
  assert (Hrun : categorize_by_quantiles (ints [7; 7; 7]%Z) QUANTILE_LOW QUANTILE_HIGH
                 = Ok ["Low"; "Low"; "Low"]) by by vm_compute.
  rewrite Hrun in Hc. by injection Hc.
Defined.

(** ** The derived temperature column *)

Lemma series_sub_numeric (a b : Series) :
  numeric a = true → numeric b = true →
  series_sub a b = Ok ((λ p, difference p.1 p.2) <$> zip a b).
Proof.
  intros Ha Hb. unfold series_sub. apply for_each_total.
  intros [x y] Hxy. simpl.
  assert (Hx : x ∈ a) by (eapply elem_of_zip_l; eauto).
  assert (Hy : y ∈ b) by (eapply elem_of_zip_r; eauto).
  pose proof (numeric_elem a x Ha Hx) as Hnx.
  pose proof (numeric_elem b y Hb Hy) as Hny.
  destruct x as [u|t|], y as [v|t'|]; simpl; try done;
    try (by destruct (Hnx t)); by destruct (Hny t').
Qed.

Lemma set_column_new (name : string) (s : Series) (cols : list (string * Series)) :
  name ∉ cols.*1 → set_column name s cols = (cols ++ [(name, s)])%list.
Proof.
  induction cols as [|[k c] cols IH]; simpl; [done|].
  intros [Hk Hrest]%not_elem_of_cons.
  destruct (String.eqb_spec name k); [done|]. by rewrite IH.
Qed.

Lemma wf_column_length (d : DataFrame) (col : string) (s : Series) :
  wf_df d → column_of d col = Some s → length s = nrows d.
Proof.
  intros [_ Hlen]. unfold column_of. induction Hlen as [|[k c] cols Hc _ IH]; simpl; [done|].
  destruct (String.eqb col k); [|done]. by intros [= <-].
Qed.

Lemma assoc_set_column_eq (name : string) (s : Series) (cols : list (string * Series)) :
  assoc name (set_column name s cols) = Some s.
Proof.
  induction cols as [|[k c] cols IH]; simpl.
  - by rewrite String.eqb_refl.
  - destruct (String.eqb name k) eqn:E; simpl; by rewrite E.
Qed.

Lemma assoc_set_column_ne (name c : string) (s : Series) (cols : list (string * Series)) :
  c ≠ name → assoc c (set_column name s cols) = assoc c cols.
Proof.
  intros Hne. induction cols as [|[k v] cols IH]; simpl.
  - destruct (String.eqb_spec c name); [done|done].
  - destruct (String.eqb_spec name k) as [->|Hk]; simpl.
    + by destruct (String.eqb_spec c k).
    + by rewrite IH.
Qed.

Lemma set_column_names_present (name : string) (s : Series) (cols : list (string * Series)) :
  name ∈ cols.*1 → (set_column name s cols).*1 = cols.*1.
Proof.
  induction cols as [|[k v] cols IH]; simpl; [by intros ?%elem_of_nil|].
  destruct (String.eqb_spec name k) as [->|Hk]; [done|].
  intros [?|Hin]%elem_of_cons; [done|]. csimpl. by rewrite IH.
Qed.




(** ** Sorting *)

Section SortingFacts.
Context {A : Type} (leb : A → A → bool).
Hypothesis leb_total : ∀ a b, leb a b = true ∨ leb b a = true.
Hypothesis leb_trans : ∀ a b c, leb a b = true → leb b c = true → leb a c = true.

Lemma insert_sorted_perm (x : A) (l : list A) : insert_sorted leb x l ≡ₚ x :: l.
Proof.
  induction l as [|y l IH]; simpl; [done|].
  destruct (leb x y); [done|]. rewrite IH. apply Permutation_swap.
Qed.

Lemma sort_by_perm (l : list A) : sort_by leb l ≡ₚ l.
Proof.
  induction l as [|x l IH]; simpl; [done|].
  rewrite insert_sorted_perm. by constructor.
Qed.

Lemma sort_by_length (l : list A) : length (sort_by leb l) = length l.
Proof. by rewrite sort_by_perm. Qed.

Lemma insert_sorted_sorted (x : A) (l : list A) :
  StronglySorted (λ a b, leb a b = true) l →
  StronglySorted (λ a b, leb a b = true) (insert_sorted leb x l).
Proof.
  induction 1 as [|y l Hl IH Hy]; simpl; [by repeat constructor|].
  destruct (leb x y) eqn:E.
  - constructor; [by constructor|]. constructor; [done|].
    eapply Forall_impl; [exact Hy|]. intros z Hz. by eapply leb_trans.
  - constructor; [done|]. rewrite insert_sorted_perm. constructor; [|done].
    destruct (leb_total x y); [congruence|done].
Qed.

Lemma sort_by_sorted (l : list A) :
  StronglySorted (λ a b, leb a b = true) (sort_by leb l).
Proof.
  induction l as [|x l IH]; simpl; [constructor|]. by apply insert_sorted_sorted.
Qed.

End SortingFacts.

Lemma StronglySorted_weaken {A} (R S : A → A → Prop) (l : list A) :
  (∀ a b, R a b → S a b) → StronglySorted R l → StronglySorted S l.
Proof.
  intros HRS. induction 1 as [|x l Hl IH Hx]; constructor; [done|].
  eapply Forall_impl; [exact Hx|]. intros y. apply HRS.
Qed.

Lemma sort_Q_sorted (l : list Q) : StronglySorted Qle (sort_by Qle_bool l).
Proof.
  eapply StronglySorted_weaken; [|apply sort_by_sorted].
  - intros a b H. by apply Qle_bool_iff.
  - intros a b. destruct (Qlt_le_dec a b) as [H|H].
    + left. by apply Qle_bool_iff, Qlt_le_weak.
    + right. by apply Qle_bool_iff.
  - intros a b c Hab Hbc. apply Qle_bool_iff in Hab, Hbc.
    apply Qle_bool_iff. by eapply Qle_trans.
Qed.

Lemma sorted_nth (v : list Q) (i j : nat) :
  StronglySorted Qle v → (i ≤ j)%nat → (j < length v)%nat →
  (nth i v 0 <= nth j v 0)%Q.
Proof.
  intros Hs. revert i j. induction Hs as [|x v Hv IH Hx]; intros i j Hij Hj; simpl in *.
  - lia.
  - destruct i as [|i], j as [|j]; try lia.
    + apply Qle_refl.
    + rewrite Forall_forall in Hx. apply Hx, list_elem_of_In, nth_In. lia.
    + apply IH; lia.
Qed.

(** ** Quantiles *)

Lemma interpolate_between (v : list Q) (q : Q) :
  StronglySorted Qle v → v ≠ [] → (0 <= q)%Q → (q <= 1)%Q →
  let m := length v - 1 in
  let i := Z.to_nat (Qfloor (q * inject_Z (Z.of_nat m))) in
  (i ≤ m)%nat
  ∧ (nth i v 0 <= interpolate v q)%Q
  ∧ (interpolate v q <= nth (Nat.min (i + 1) m) v 0)%Q.
Proof.
  intros Hs Hv H0 H1 m i.
  assert (Hlen : (0 < length v)%nat) by (destruct v; simpl; [done|lia]).
  set (M := inject_Z (Z.of_nat m)) in *.
  assert (HM : (0 <= M)%Q).
  { unfold M. rewrite <- (Zle_Qle 0). lia. }
  assert (Hpos0 : (0 <= q * M)%Q) by by apply Qmult_le_0_compat.
  assert (HposM : (q * M <= M)%Q).
  { rewrite <- (Qmult_1_l M) at 2. by apply Qmult_le_compat_r. }
  assert (Hf0 : (0 <= Qfloor (q * M))%Z).
  { rewrite <- (Qfloor_Z 0). by apply Qfloor_resp_le. }
  assert (HfM : (Qfloor (q * M) <= Z.of_nat m)%Z).
  { rewrite <- (Qfloor_Z (Z.of_nat m)). by apply Qfloor_resp_le. }
  assert (Hi : (i ≤ m)%nat) by (unfold i; lia).
  split; [done|].
  assert (Hab : (nth i v 0 <= nth (Nat.min (i + 1) m) v 0)%Q).
  { apply sorted_nth; [done|lia|lia]. }
  pose proof (Qfloor_le (q * M)) as Hfl.
  pose proof (Qlt_floor (q * M)) as Hfu.
  rewrite inject_Z_plus in Hfu.
  unfold interpolate. fold m. fold M. fold i.
  set (a := nth i v 0%Q) in *. set (b := nth (Nat.min (i + 1) m) v 0%Q) in *.
  set (fl := inject_Z (Qfloor (q * M))) in *.
  set (pos := (q * M)%Q) in *.
  change (inject_Z 1) with 1%Q in Hfu.
  split; nra.
Qed.

Lemma interpolate_monotone (v : list Q) (q1 q2 : Q) :
  StronglySorted Qle v → v ≠ [] →
  (0 <= q1)%Q → (q1 <= q2)%Q → (q2 <= 1)%Q →
  (interpolate v q1 <= interpolate v q2)%Q.
Proof.
  intros Hs Hv H0 H12 H1.
  assert (Hlen : (0 < length v)%nat) by (destruct v; simpl; [done|lia]).
  destruct (interpolate_between v q1 Hs Hv H0 ltac:(by eapply Qle_trans))
    as (Hi1 & Ha1 & Hb1).
  destruct (interpolate_between v q2 Hs Hv ltac:(by eapply Qle_trans) H1)
    as (Hi2 & Ha2 & Hb2).
  set (m := length v - 1) in *. set (M := inject_Z (Z.of_nat m)) in *.
  assert (HM : (0 <= M)%Q).
  { unfold M. rewrite <- (Zle_Qle 0). lia. }
  assert (Hpos : (q1 * M <= q2 * M)%Q) by by apply Qmult_le_compat_r.
  assert (Hpos0 : (0 <= q1 * M)%Q) by by apply Qmult_le_0_compat.
  assert (Hf0 : (0 <= Qfloor (q1 * M))%Z).
  { rewrite <- (Qfloor_Z 0). by apply Qfloor_resp_le. }
  pose proof (Qfloor_resp_le _ _ Hpos) as Hf.
  destruct (decide (Qfloor (q1 * M) = Qfloor (q2 * M))) as [Heq|Hneq].
  - unfold interpolate. fold m. fold M. rewrite <- Heq.
    set (i := Z.to_nat (Qfloor (q1 * M))) in *.
    assert (Hab : (nth i v 0 <= nth (Nat.min (i + 1) m) v 0)%Q).
    { apply sorted_nth; [done|lia|lia]. }
    set (a := nth i v 0%Q) in *. set (b := nth (Nat.min (i + 1) m) v 0%Q) in *.
    set (fl := inject_Z (Qfloor (q1 * M))) in *.
    nra.
  - set (i1 := Z.to_nat (Qfloor (q1 * M))) in *.
    set (i2 := Z.to_nat (Qfloor (q2 * M))) in *.
    assert (Hlt : (i1 + 1 ≤ i2)%nat) by (unfold i1, i2; lia).
    eapply Qle_trans; [exact Hb1|]. eapply Qle_trans; [|exact Ha2].
    apply sorted_nth; [done|lia|lia].
Qed.

(** ** Quantile segments *)

Lemma cmp_threshold_missing (op : Q → Q → bool) (s : Series) :
  numeric s = true → cmp_threshold op s NaN = Ok ((λ _, false) <$> s).
Proof.
  intros Hs. unfold cmp_threshold. apply for_each_total.
  intros c Hc. destruct c as [q|t|]; try done.
  by destruct (numeric_elem s (Str t) Hs Hc t).
Qed.

Lemma segment_stats_numeric (d : DataFrame) (mask : list bool) (label : string)
    (target : Series) :
  column_of d TARGET_COL = Some target →
  numeric target = true →
  ∃ seg, segment_stats d mask label = Ok seg
         ∧ segment_label seg = label
         ∧ segment_count seg = count_true mask.
Proof.
  intros Ht Hnum. unfold segment_stats.
  rewrite (getitem_column _ _ _ Ht). cbn [mbind result_bind].
  rewrite series_sum_numeric by by apply numeric_select. eauto.
Qed.

Lemma count_all_false {A} (l : list A) : count_true ((λ _, false) <$> l) = 0.
Proof. induction l; simpl; [done|]. done. Qed.

Lemma count_mid_all {A} (l : list A) :
  count_true (mask_and (mask_not ((λ _, false) <$> l)) (mask_not ((λ _, false) <$> l)))
  = length l.
Proof. induction l as [|a l IH]; simpl; [done|]. f_equal. exact IH. Qed.

Lemma both_masks_at_thresholds (q lo hi : Q) :
  (lo <= hi)%Q →
  Qle_bool q lo && Qge_bool q hi = Qeq_bool q lo && Qeq_bool q hi.
Proof.
  intros Hle. unfold Qge_bool.
  destruct (Qle_bool q lo) eqn:El, (Qle_bool hi q) eqn:Eh; simpl.
  - apply Qle_bool_iff in El, Eh.
    assert (H1 : (q == lo)%Q) by (apply Qle_antisym; [done|]; by eapply Qle_trans).
    assert (H2 : (q == hi)%Q) by (apply Qle_antisym; [|done]; by eapply Qle_trans).
    apply Qeq_bool_iff in H1, H2. by rewrite H1, H2.
  - destruct (Qeq_bool q hi) eqn:E; [|by rewrite andb_false_r].
    apply Qeq_bool_iff in E. assert (H : (hi <= q)%Q) by (rewrite E; apply Qle_refl).
    apply Qle_bool_iff in H. congruence.
  - destruct (Qeq_bool q lo) eqn:E; [|done].
    apply Qeq_bool_iff in E. assert (H : (q <= lo)%Q) by (rewrite E; apply Qle_refl).
    apply Qle_bool_iff in H. congruence.
  - destruct (Qeq_bool q lo) eqn:E; [|done].
    apply Qeq_bool_iff in E. assert (H : (q <= lo)%Q) by (rewrite E; apply Qle_refl).
    apply Qle_bool_iff in H. congruence.
Qed.

Lemma segment_counts_identity (s : Series) (lo hi : Q) :
  (lo <= hi)%Q →
  let low := (λ c, match c with Num q => Qle_bool q lo | _ => false end) <$> s in
  let high := (λ c, match c with Num q => Qge_bool q hi | _ => false end) <$> s in
  count_true low + count_true (mask_and (mask_not low) (mask_not high)) + count_true high
  = length s
    + count_true ((λ x, at_threshold (Num lo) x && at_threshold (Num hi) x) <$> s).
Proof.
  intros Hle. induction s as [|c s IH]; [done|].
  cbn zeta in *. rewrite !fmap_cons. cbn [mask_not mask_and fmap list_fmap zip_with].
  cbn [count_true length].
  destruct c as [q|t|]; cbn [at_threshold negb andb].
  - rewrite <- (both_masks_at_thresholds q lo hi Hle).
    unfold mask_and, mask_not in IH.
    destruct (Qle_bool q lo), (Qge_bool q hi); cbn [negb andb]; lia.
  - unfold mask_and, mask_not in IH. lia.
  - unfold mask_and, mask_not in IH. lia.
Qed.




(** ** Groups of the failure rate by type *)

Lemma cell_eqb_refl (c : cell) : cell_eqb c c = true.
Proof.
  destruct c as [q|s|]; simpl; [|apply String.eqb_refl|done].
  by apply Qeq_bool_iff.
Qed.

Lemma cell_eqb_sym (a b : cell) : cell_eqb a b = cell_eqb b a.
Proof.
  destruct a as [p|s|], b as [q|t|]; simpl; try done.
  - destruct (Qeq_bool p q) eqn:E1, (Qeq_bool q p) eqn:E2; try done.
    + apply Qeq_bool_iff, Qeq_sym, Qeq_bool_iff in E1. congruence.
    + apply Qeq_bool_iff, Qeq_sym, Qeq_bool_iff in E2. congruence.
  - apply String.eqb_sym.
Qed.

Lemma elem_of_list_filter_bool {A} (f : A → bool) (l : list A) (x : A) :
  x ∈ List.filter f l ↔ x ∈ l ∧ f x = true.
Proof. rewrite !list_elem_of_In. apply filter_In. Qed.

Lemma list_filter_sublist {A} (f : A → bool) (l : list A) :
  List.filter f l `sublist_of` l.
Proof.
  induction l as [|a l IH]; simpl; [constructor|].
  destruct (f a); by constructor.
Qed.

Lemma fmap_list_filter {A B} (f : A → B) (P : B → bool) (Q : A → bool) (l : list A) :
  (∀ a, Q a = P (f a)) →
  f <$> List.filter Q l = List.filter P (f <$> l).
Proof.
  intros HQ. induction l as [|a l IH]; csimpl; [done|].
  rewrite HQ. destruct (P (f a)); csimpl; by rewrite IH.
Qed.

Lemma fmap_insert_sorted {A B} (f : A → B) (leb : B → B → bool) (x : A) (l : list A) :
  f <$> insert_sorted (λ a b, leb (f a) (f b)) x l = insert_sorted leb (f x) (f <$> l).
Proof.
  induction l as [|y l IH]; csimpl; [done|].
  destruct (leb (f x) (f y)); csimpl; [done|]. by rewrite IH.
Qed.

Lemma fmap_sort_by {A B} (f : A → B) (leb : B → B → bool) (l : list A) :
  f <$> sort_by (λ a b, leb (f a) (f b)) l = sort_by leb (f <$> l).
Proof.
  induction l as [|x l IH]; csimpl; [done|].
  by rewrite fmap_insert_sorted, IH.
Qed.

Lemma unique_acc_elem (seen : list cell) (s : Series) (x : cell) :
  x ∈ unique_acc seen s → x ∈ s.
Proof.
  revert seen. induction s as [|c s IH]; intros seen; simpl; [done|].
  destruct (existsb (cell_eqb c) seen).
  - intros H. right. by eapply IH.
  - intros [->|H]%elem_of_cons; [left|right; by eapply IH].
Qed.

Lemma unique_acc_NoDup (seen : list cell) (s : Series) :
  NoDup (unique_acc seen s)
  ∧ ∀ x, x ∈ unique_acc seen s → existsb (cell_eqb x) seen = false.
Proof.
  revert seen. induction s as [|c s IH]; intros seen; simpl.
  - split; [constructor|]. by intros x ?%elem_of_nil.
  - destruct (existsb (cell_eqb c) seen) eqn:E; [apply IH|].
    destruct (IH (c :: seen)) as [Hnd Hseen]. split.
    + constructor; [|done]. intros Hc. apply Hseen in Hc. simpl in Hc.
      by rewrite cell_eqb_refl in Hc.
    + intros x [->|Hx]%elem_of_cons; [done|].
      apply Hseen in Hx. simpl in Hx. by apply orb_false_iff in Hx as [_ ?].
Qed.

Lemma unique_acc_covers (seen : list cell) (s : Series) (c : cell) :
  c ∈ s →
  (∃ k, k ∈ seen ∧ cell_eqb c k = true)
  ∨ (∃ k, k ∈ unique_acc seen s ∧ cell_eqb c k = true).
Proof.
  revert seen. induction s as [|c' s IH]; intros seen; simpl; [by intros ?%elem_of_nil|].
  intros [->|Hc]%elem_of_cons.
  - destruct (existsb (cell_eqb c') seen) eqn:E.
    + left. apply existsb_exists in E as (k & Hk & Hck).
      exists k. split; [by apply list_elem_of_In|done].
    + right. exists c'. split; [left|apply cell_eqb_refl].
  - destruct (existsb (cell_eqb c') seen) eqn:E; [by apply IH|].
    destruct (IH (c' :: seen) Hc) as [(k & [->|Hk]%elem_of_cons & Hck)|(k & Hk & Hck)].
    + right. exists c'. split; [left|done].
    + left. eauto.
    + right. exists k. split; [by right|done].
Qed.

Lemma unique_NoDup (s : Series) : NoDup (unique s).
Proof. apply unique_acc_NoDup. Qed.

Lemma unique_covers (s : Series) (c : cell) :
  c ∈ s → ∃ k, k ∈ unique s ∧ cell_eqb c k = true.
Proof.
  intros Hc. destruct (unique_acc_covers [] s c Hc) as [(k & ?%elem_of_nil & _)|H]; done.
Qed.

Lemma group_keys_elem (s : Series) (k : cell) :
  k ∈ group_keys s ↔ k ∈ unique s ∧ isnull k = false.
Proof.
  unfold group_keys. rewrite sort_by_perm, elem_of_list_filter_bool.
  by rewrite negb_true_iff.
Qed.

Lemma group_keys_NoDup (s : Series) : NoDup (group_keys s).
Proof.
  unfold group_keys. rewrite sort_by_perm.
  eapply sublist_NoDup; [apply unique_NoDup|apply list_filter_sublist].
Qed.

Lemma type_order_known (c : cell) (n : nat) :
  type_order c = Some n → c ∈ [Str "L"; Str "M"; Str "H"] ∧ n < 3.
Proof.
  destruct c as [q|s|]; simpl; try done.
  destruct s as [|a s]; [done|].
  destruct a as [[] [] [] [] [] [] [] []]; try done; destruct s; try done;
    intros [= <-]; (split; [|lia]);
    first [ by left | by right; left | by right; right; left ].
Qed.

Lemma type_order_unknown (c : cell) :
  type_order c = None → c ∉ [Str "L"; Str "M"; Str "H"].
Proof.
  intros H Hin. repeat (apply elem_of_cons in Hin as [->|Hin]; [done|]).
  by apply elem_of_nil in Hin.
Qed.

Lemma rank_injective (a b : cell) :
  a ∈ [Str "L"; Str "M"; Str "H"] → b ∈ [Str "L"; Str "M"; Str "H"] →
  rank a = rank b → a = b.
Proof.
  intros Ha Hb.
  repeat (apply elem_of_cons in Ha as [->|Ha]);
    repeat (apply elem_of_cons in Hb as [->|Hb]);
    try (by apply elem_of_nil in Ha); try (by apply elem_of_nil in Hb); done.
Qed.

Lemma sorted_sublist {A} (rk : A → nat) (cand l : list A) :
  StronglySorted (λ a b, rk a < rk b) cand →
  StronglySorted (λ a b, rk a < rk b) l →
  (∀ x, x ∈ l → x ∈ cand) →
  l `sublist_of` cand.
Proof.
  intros Hcand. revert l. induction Hcand as [|c cand Hs IH Hc]; intros l Hl Hin.
  - destruct l as [|x l]; [constructor|].
    exfalso. eapply not_elem_of_nil, (Hin x). left.
  - destruct l as [|x l]; [apply sublist_nil_l|].
    apply StronglySorted_inv in Hl as [Hl Hx].
    rewrite Forall_forall in Hx, Hc.
    assert (Hxin : x ∈ c :: cand) by (apply Hin; left).
    assert (Htail : ∀ y, y ∈ l → y ∈ cand).
    { intros y Hy. assert (Hyin : y ∈ c :: cand) by (apply Hin; by right).
      apply elem_of_cons in Hyin as [->|?]; [|done].
      exfalso. pose proof (Hx c Hy) as H1.
      apply elem_of_cons in Hxin as [->|Hxc]; [lia|].
      pose proof (Hc x Hxc). lia. }
    apply elem_of_cons in Hxin as [->|Hxc].
    + apply sublist_skip. by apply IH.
    + apply sublist_cons. apply IH.
      * constructor; [done|by apply Forall_forall].
      * intros y [->|Hy]%elem_of_cons; [done|by apply Htail].
Qed.

Lemma order_leb_total (a b : option nat) :
  order_leb a b = true ∨ order_leb b a = true.
Proof.
  destruct a as [m|], b as [n|]; simpl; auto.
  destruct (Nat.leb_spec m n); [by left|right]. apply Nat.leb_le. lia.
Qed.

Lemma order_leb_trans (a b c : option nat) :
  order_leb a b = true → order_leb b c = true → order_leb a c = true.
Proof.
  destruct a as [m|], b as [n|], c as [k|]; simpl; try done.
  rewrite !Nat.leb_le. lia.
Qed.

Lemma known_types_sublist (keys : list cell) :
  NoDup keys →
  sort_by (λ a b, order_leb (type_order a) (type_order b))
    (List.filter (λ c, bool_decide (is_Some (type_order c))) keys)
  `sublist_of` [Str "L"; Str "M"; Str "H"].
Proof.
  intros Hnd.
  set (leb := λ a b : cell, order_leb (type_order a) (type_order b)).
  set (known := List.filter (λ c, bool_decide (is_Some (type_order c))) keys).
  assert (Hknown : ∀ x, x ∈ sort_by leb known → x ∈ [Str "L"; Str "M"; Str "H"]).
  { intros x. rewrite sort_by_perm. unfold known. rewrite elem_of_list_filter_bool.
    intros [_ [n Hn]%bool_decide_eq_true]. by apply type_order_known in Hn as [? _]. }
  assert (Hnd' : NoDup (sort_by leb known)).
  { rewrite sort_by_perm. eapply sublist_NoDup; [exact Hnd|apply list_filter_sublist]. }
  assert (Hsorted : StronglySorted (λ a b, leb a b = true) (sort_by leb known)).
  { apply sort_by_sorted.
    - intros a b. apply order_leb_total.
    - intros a b c. apply order_leb_trans. }
  apply (sorted_sublist rank); [| |done].
  - repeat constructor; cbv; lia.
  - induction Hsorted as [|x l Hl IH Hx]; [constructor|].
    apply NoDup_cons in Hnd' as [Hxl Hndl].
    constructor.
    + apply IH; [|done]. intros y Hy. apply Hknown. by right.
    + apply Forall_forall. intros y Hy. rewrite Forall_forall in Hx.
      pose proof (Hx y Hy) as Hle. unfold leb in Hle.
      assert (Hkx : x ∈ [Str "L"; Str "M"; Str "H"]) by (apply Hknown; left).
      assert (Hky : y ∈ [Str "L"; Str "M"; Str "H"]) by (apply Hknown; by right).
      assert (Hne : rank x ≠ rank y).
      { intros Heq. apply (rank_injective x y Hkx Hky) in Heq. by subst. }
      assert (Hrle : (rank x ≤ rank y)%nat).
      { clear -Hle Hkx Hky.
        repeat (apply elem_of_cons in Hkx as [->|Hkx]);
          repeat (apply elem_of_cons in Hky as [->|Hky]);
          try (by apply elem_of_nil in Hkx); try (by apply elem_of_nil in Hky);
          cbv in *; try lia; done. }
      lia.
Qed.

Lemma sort_values_perm {A} (key : A → option nat) (rows : list A) :
  sort_values key rows ≡ₚ rows.
Proof.
  unfold sort_values. rewrite sort_by_perm.
  induction rows as [|a rows IH]; [done|]. cbn [List.filter].
  destruct (key a) as [n|] eqn:E.
  - rewrite bool_decide_eq_true_2 by eauto. rewrite bool_decide_eq_false_2 by done.
    simpl. by rewrite IH.
  - rewrite bool_decide_eq_false_2 by (by intros [? ?]).
    rewrite bool_decide_eq_true_2 by done.
    rewrite <- Permutation_middle. by rewrite IH.
Qed.

Lemma fmap_sort_values {A B} (f : A → B) (key : B → option nat) (l : list A) :
  f <$> sort_values (λ a, key (f a)) l = sort_values key (f <$> l).
Proof.
  unfold sort_values. rewrite fmap_app.
  rewrite (fmap_sort_by f (λ a b, order_leb (key a) (key b))).
  rewrite (fmap_list_filter f (λ b, bool_decide (is_Some (key b)))
             (λ a, bool_decide (is_Some (key (f a))))) by done.
  by rewrite (fmap_list_filter f (λ b, bool_decide (key b = None))
                (λ a, bool_decide (key (f a) = None))) by done.
Qed.

Lemma aggregate_numeric (types target : Series) (k : cell) :
  numeric target = true →
  aggregate types target k = Ok (group_row types target k).
Proof.
  intros H. unfold aggregate.
  by rewrite series_sum_numeric by by apply numeric_select.
Qed.

(** C8, as stated, fails: the group of a type outside the domain is kept,
    after the groups of the known types. *)
Lemma unknown_type_group_is_kept :
  ∃ rows, compute_failure_rate_by_type unknown_type = Ok rows
          ∧ Type_ <$> rows = [Str "L"; Str "X"]
          ∧ count <$> rows = [1; 2].
Proof. eexists. split; [by vm_compute|]. done. Qed.

(** C8 (amended). On a table with the type column and a numeric target, the
    output has one row per distinct type present (missing types apart): the
    rows of the types L, M, H that occur, in that order, followed by the
    rows of the types outside the domain, which are not dropped. Every row
    counts the records of its type. *)
Theorem failure_rate_by_type_groups (d : DataFrame) (types target : Series) :
  column_of d "Type" = Some types →
  column_of d TARGET_COL = Some target →
  numeric target = true →
  ∃ rows known unknown,
    compute_failure_rate_by_type d = Ok rows
    ∧ Type_ <$> rows = (known ++ unknown)%list
    ∧ known `sublist_of` [Str "L"; Str "M"; Str "H"]
    ∧ Forall (λ c, c ∉ [Str "L"; Str "M"; Str "H"]) unknown
    ∧ NoDup (Type_ <$> rows)
    ∧ (∀ c, c ∈ types → c ≠ NaN → ∃ k, k ∈ Type_ <$> rows ∧ cell_eqb c k = true)
    ∧ (∀ r, r ∈ rows →
         Type_ r ∈ types ∧ Type_ r ≠ NaN
         ∧ count r = count_true (cell_eqb (Type_ r) <$> types)).
Proof.
  intros Hty Ht Hnum.
  set (keys := group_keys types).
  set (grouped := group_row types target <$> keys).
  set (rows := sort_values (λ r, type_order (Type_ r)) grouped).
  assert (Hkeys : Type_ <$> grouped = keys).
  { unfold grouped. rewrite <- list_fmap_compose.
    rewrite <- (list_fmap_id keys) at 2. by apply list_fmap_ext. }
  assert (Hperm : Type_ <$> rows ≡ₚ keys).
  { unfold rows. by rewrite sort_values_perm, Hkeys. }
  exists rows,
    (sort_by (λ a b, order_leb (type_order a) (type_order b))
       (List.filter (λ c, bool_decide (is_Some (type_order c))) keys)),
    (List.filter (λ c, bool_decide (type_order c = None)) keys).
  split; [|split; [|split; [|split; [|split; [|split]]]]].
  - unfold compute_failure_rate_by_type.
    rewrite (getitem_column _ _ _ Hty), (getitem_column _ _ _ Ht).
    cbn [mbind result_bind].
    rewrite (for_each_total _ (group_row types target)); [done|].
    intros k _. by apply aggregate_numeric.
  - unfold rows. by rewrite (fmap_sort_values Type_ type_order), Hkeys.
  - apply known_types_sublist, group_keys_NoDup.
  - apply Forall_forall. intros c [_ Hc%bool_decide_eq_true]%elem_of_list_filter_bool.
    by apply type_order_unknown.
  - rewrite Hperm. apply group_keys_NoDup.
  - intros c Hc Hnn. destruct (unique_covers types c Hc) as (k & Hk & Hck).
    exists k. split; [|done]. rewrite Hperm. apply group_keys_elem. split; [done|].
    destruct k; try done. by destruct c.
  - intros r Hr. unfold rows in Hr. rewrite sort_values_perm in Hr.
    apply list_elem_of_fmap in Hr as (k & -> & Hk). cbn [Type_ count group_row].
    apply group_keys_elem in Hk as [Hk Hnull].
    split; [by eapply unique_acc_elem|]. split; [by destruct k|done].
Qed.

Lemma failure_rate_by_type_groups_witness :
  ∃ rows, compute_failure_rate_by_type three_machines = Ok rows
          ∧ NoDup (Type_ <$> rows)
          ∧ ∃ k, k ∈ Type_ <$> rows ∧ cell_eqb (Str "H") k = true.
Proof.
  destruct (failure_rate_by_type_groups three_machines
              [Str "M"; Str "L"; Str "H"] (ints [0; 1; 0]%Z) eq_refl eq_refl eq_refl)
    as (rows & known & unknown & Hr & _ & _ & _ & Hnd & Hall & _).
  exists rows. split; [done|]. split; [done|].
  apply Hall; [|done]. by right; right; left.
Defined.

(** * Further properties *)

(** ** The validator reads its table and never changes it *)

Lemma keeps_df_mthen {A B} (m : method A) (k : A → method B) :
  keeps_df m → (∀ a, keeps_df (k a)) → keeps_df (mthen m k).
Proof.
  intros Hm Hk v. unfold mthen. specialize (Hm v).
  destruct (m v) as [[a|e] v']; simpl in *; [|done].
  by rewrite Hk.
Qed.

Lemma keeps_df_record_check (f : DataFrame → result ValidationResult) :
  keeps_df (record_check f).
Proof.
  intros v. unfold record_check, mthen, eval, append_result, mreturn.
  by destruct (f (df v)).
Qed.

Lemma keeps_df_range_loop (rules : list (string * rule)) (acc : list ValidationResult) :
  keeps_df (range_loop rules acc).
Proof.
  revert acc. induction rules as [|[col r] rules IH]; intros acc v; simpl; [done|].
  unfold mthen, eval, append_result.
  destruct (range_result col r (df v)); simpl; [|done]. by rewrite IH.
Qed.

Lemma keeps_df_run_all_checks (rules : list (string * rule)) :
  keeps_df (run_all_checks_with rules).
Proof.
  unfold run_all_checks_with.
  repeat (apply keeps_df_mthen; [|intros ?]);
    try apply keeps_df_record_check; try apply keeps_df_range_loop; by intros v.
Qed.

(** X1. [run_all_checks] never changes the table of the validator, and what
    it returns and leaves in [results] depends on that table only: running it
    again on the validator it left gives the same outcome, the earlier
    results being reset and not accumulated. *)
Theorem run_all_checks_rerun (rules : list (string * rule)) (v : DataValidator) :
  df (run_all_checks_with rules v).2 = df v
  ∧ run_all_checks_with rules v = run_all_checks_with rules (init (df v))
  ∧ run_all_checks_with rules (run_all_checks_with rules v).2
    = run_all_checks_with rules v.
Proof.
  assert (Hinit : ∀ w, run_all_checks_with rules w = run_all_checks_with rules (init (df w))).
  { intros w. unfold run_all_checks_with, mthen at 1, reset_results. simpl.
    symmetry. by unfold mthen at 1. }
  split; [apply keeps_df_run_all_checks|]. split; [apply Hinit|].
  rewrite (Hinit (run_all_checks_with rules v).2), (Hinit v).
  by rewrite keeps_df_run_all_checks.
Qed.

(** ** Columns that the checks and the aggregations do not read *)

Lemma column_of_assign_ne (name c : string) (s : Series) (d : DataFrame) :
  c ≠ name → column_of (assign name s d) c = column_of d c.
Proof. intros H. by apply assoc_set_column_ne. Qed.

Lemma has_column_assign_ne (name c : string) (s : Series) (d : DataFrame) :
  c ≠ name → has_column (assign name s d) c = has_column d c.
Proof.
  intros H. unfold has_column. apply bool_decide_ext.
  by apply column_names_assign_other.
Qed.

Lemma getitem_assign_ne (name c : string) (s : Series) (d : DataFrame) :
  c ≠ name → getitem (assign name s d) c = getitem d c.
Proof.
  intros H. unfold getitem. fold (column_of (assign name s d) c) (column_of d c).
  by rewrite column_of_assign_ne.
Qed.

Lemma non_binary_loop_assign (cols : list string) (name : string) (s : Series)
    (d : DataFrame) :
  name ∉ cols → non_binary_loop cols (assign name s d) = non_binary_loop cols d.
Proof.
  induction cols as [|col cols IH]; [done|]. intros [Hne Hrest]%not_elem_of_cons.
  cbn [non_binary_loop].
  rewrite has_column_assign_ne, getitem_assign_ne, IH by done. done.
Qed.

Lemma inconsistent_loop_assign (cols : list string) (m : list bool) (name : string)
    (s : Series) (d : DataFrame) :
  name ∉ cols → inconsistent_loop cols m (assign name s d) = inconsistent_loop cols m d.
Proof.
  induction cols as [|col cols IH]; [done|]. intros [Hne Hrest]%not_elem_of_cons.
  cbn [inconsistent_loop].
  rewrite has_column_assign_ne, getitem_assign_ne, IH by done. done.
Qed.

Lemma required_not (name c : string) :
  name ∉ REQUIRED_COLUMNS → c ∈ REQUIRED_COLUMNS → c ≠ name.
Proof. intros Hn Hc ->. done. Qed.

(** X2. A column whose label is not a required one is invisible to the
    validator: assigning it (as the feature deriver does with the derived
    column) leaves the result of Required Columns, Type Domain, every
    configured range check, Binary Flags and Failure Consistency exactly as
    it was. Only Null Values, which scans every column, can change. *)
Theorem validation_ignores_other_columns (name : string) (s : Series) (d : DataFrame) :
  name ∉ REQUIRED_COLUMNS →
  required_columns_result (assign name s d) = required_columns_result d
  ∧ type_domain_result (assign name s d) = type_domain_result d
  ∧ Forall (λ r, range_result r.1 r.2 (assign name s d) = range_result r.1 r.2 d)
      VALIDATION_RULES
  ∧ binary_flags_result (assign name s d) = binary_flags_result d
  ∧ failure_consistency_result (assign name s d) = failure_consistency_result d.
Proof.
  intros Hname.
  assert (Hne : ∀ c, c ∈ REQUIRED_COLUMNS → c ≠ name) by (intros c; by apply required_not).
  assert (Hflags : name ∉ TARGET_COL :: FAILURE_MODE_COLS).
  { intros Hin. apply Hname.
    assert (Hsub : Forall (λ c, c ∈ REQUIRED_COLUMNS) (TARGET_COL :: FAILURE_MODE_COLS))
      by compute_done.
    rewrite Forall_forall in Hsub. by apply Hsub. }
  split; [|split; [|split; [|split]]].
  - unfold required_columns_result.
    fold (missing_of (assign name s d)) (missing_of d). by rewrite missing_of_assign.
  - unfold type_domain_result.
    rewrite has_column_assign_ne, getitem_assign_ne by (apply Hne; compute_done). done.
  - assert (Hrules : Forall (λ r : string * rule, r.1 ∈ REQUIRED_COLUMNS) VALIDATION_RULES)
      by compute_done.
    eapply Forall_impl; [exact Hrules|]. intros [col r] Hcol. simpl in *.
    unfold range_result.
    rewrite has_column_assign_ne, getitem_assign_ne by by apply Hne. done.
  - unfold binary_flags_result. by rewrite non_binary_loop_assign.
  - unfold failure_consistency_result.
    rewrite has_column_assign_ne, getitem_assign_ne by (apply Hne; compute_done).
    destruct (has_column d TARGET_COL); cbn [negb]; [|done].
    destruct (getitem d TARGET_COL) as [target|]; cbn [mbind result_bind]; [|done].
    rewrite inconsistent_loop_assign; [done|].
    intros Hin. apply Hflags. by right.
Qed.

Lemma validation_ignores_other_columns_witness :
  type_domain_result (assign "Temp_Delta [K]" (ints [10; 11; 10]%Z) three_machines)
  = type_domain_result three_machines
  ∧ failure_consistency_result
      (assign "Temp_Delta [K]" (ints [10; 11; 10]%Z) three_machines)
    = failure_consistency_result three_machines.
Proof.
  destruct (validation_ignores_other_columns "Temp_Delta [K]" (ints [10; 11; 10]%Z)
              three_machines) as (_ & Ht & _ & _ & Hf); [compute_done|].
  by split.
Defined.

(** ** Type Domain *)

Lemma is_valid_type_spec (c : cell) :
  is_valid_type c = true ↔ c ∈ valid_type_cells.
Proof.
  unfold valid_type_cells. destruct c as [q|s|]; simpl.
  - split; [done|]. intros H.
    repeat (apply elem_of_cons in H as [H|H]; [done|]). by apply elem_of_nil in H.
  - rewrite bool_decide_eq_true. unfold VALID_TYPES. split.
    + intros H. repeat (apply elem_of_cons in H as [->|H]);
        [by left|by right; left|by right; right; left|by apply elem_of_nil in H].
    + intros H. repeat (apply elem_of_cons in H as [[= ->]|H]);
        [by left|by right; left|by right; right; left|by apply elem_of_nil in H].
  - split; [done|]. intros H.
    repeat (apply elem_of_cons in H as [H|H]; [done|]). by apply elem_of_nil in H.
Qed.

Lemma is_valid_type_eqb (a b : cell) :
  cell_eqb a b = true → is_valid_type a = is_valid_type b.
Proof.
  destruct a as [p|s|], b as [q|t|]; simpl; try done.
  by intros ->%String.eqb_eq.
Qed.

(** X3. On a table that has the type column, Type Domain passes exactly when
    every cell of the column is one of the texts L, M, H -- so an empty
    column passes and a missing value fails -- and then lists under
    [found_types] the distinct values of the column, in some order.
    Otherwise it fails, listing under [invalid_values] each distinct
    offending value once and nothing else. *)
Theorem type_domain_semantics (d : DataFrame) (types : Series) :
  column_of d "Type" = Some types →
  ∃ r, type_domain_result d = Ok r
    ∧ (status r = PASS ∨ status r = FAIL)
    ∧ (status r = PASS ↔ Forall (λ c, c ∈ valid_type_cells) types)
    ∧ (status r = PASS →
       ∃ found, detail_of r "found_types" = Some (DCells found)
                ∧ found ≡ₚ unique types)
    ∧ (status r = FAIL →
       ∃ invalid, detail_of r "invalid_values" = Some (DCells invalid)
         ∧ invalid ≠ []
         ∧ NoDup invalid
         ∧ (∀ c, c ∈ invalid → c ∈ types ∧ c ∉ valid_type_cells)
         ∧ (∀ c, c ∈ types → c ∉ valid_type_cells →
                 ∃ k, k ∈ invalid ∧ cell_eqb c k = true)).
Proof.
  intros Hty.
  assert (Hhas : has_column d "Type" = true) by (apply has_column_true; eauto).
  set (invalid := List.filter (λ c, negb (is_valid_type c)) (unique types)).
  assert (Hinv : ∀ c, c ∈ invalid ↔ c ∈ unique types ∧ c ∉ valid_type_cells).
  { intros c. unfold invalid. rewrite elem_of_list_filter_bool, negb_true_iff.
    rewrite <- is_valid_type_spec, not_true_iff_false. done. }
  assert (Hall : invalid = [] ↔ Forall (λ c, c ∈ valid_type_cells) types).
  { split.
    - intros Hnil. apply Forall_forall. intros c Hc.
      destruct (is_valid_type c) eqn:E; [by apply is_valid_type_spec|].
      destruct (unique_covers types c Hc) as (k & Hk & Hck).
      assert (Hkin : k ∈ invalid).
      { apply Hinv. split; [done|]. rewrite <- is_valid_type_spec.
        rewrite <- (is_valid_type_eqb c k Hck), E. done. }
      rewrite Hnil in Hkin. by apply elem_of_nil in Hkin.
    - intros Hvalid. destruct invalid as [|c l] eqn:E; [done|].
      assert (Hc : c ∈ c :: l) by left.
      apply Hinv in Hc as [Hc Hnot]. exfalso. apply Hnot.
      rewrite Forall_forall in Hvalid. by eapply Hvalid, unique_acc_elem. }
  unfold type_domain_result. rewrite Hhas. cbn [negb].
  rewrite (getitem_column _ _ _ Hty). cbn [mbind result_bind]. fold invalid.
  destruct invalid as [|c l] eqn:E.
  - eexists. split; [done|]. cbn [status]. split; [by left|].
    split; [by split; [intros _; apply Hall|]|]. split; [|done].
    intros _. by exists (unique types).
  - eexists. split; [done|]. cbn [status]. split; [by right|].
    split; [split; [done|by intros ?%Hall]|]. split; [done|].
    intros _. exists (c :: l). split; [done|]. split; [done|]. split.
    { rewrite <- E. eapply sublist_NoDup; [apply unique_NoDup|apply list_filter_sublist]. }
    split.
    + intros x Hx. apply Hinv in Hx as [Hx Hnot]. split; [|done].
      by eapply unique_acc_elem.
    + intros x Hx Hnot. destruct (unique_covers types x Hx) as (k & Hk & Hxk).
      exists k. split; [|done]. apply Hinv. split; [done|].
      rewrite <- is_valid_type_spec in *.
      by rewrite <- (is_valid_type_eqb x k Hxk).
Qed.

Lemma type_domain_semantics_witness :
  ∃ r, type_domain_result unknown_type = Ok r ∧ status r = FAIL
       ∧ detail_of r "invalid_values" = Some (DCells [Str "X"]).
Proof.
  destruct (type_domain_semantics unknown_type [Str "X"; Str "L"; Str "X"] eq_refl)
    as (r & Hr & _ & _ & _ & _).
  exists r. split; [done|].
  assert (Hrun : type_domain_result unknown_type
                 = Ok {| check_name := "Type Domain"; status := FAIL;
                         message := "Invalid Type values found: {'X'}";
                         details := [("invalid_values", DCells [Str "X"]);
                                     ("valid_values", DNames ["L"; "M"; "H"])] |})
    by by vm_compute.
  rewrite Hrun in Hr. injection Hr as <-. done.
Defined.

(** ** Null Values *)

Lemma null_count_pos (s : Series) : (0 < null_count s)%nat ↔ NaN ∈ s.
Proof.
  unfold null_count. induction s as [|c s IH]; csimpl.
  - split; [lia|by intros ?%elem_of_nil].
  - rewrite elem_of_cons. destruct c as [q|t|]; simpl.
    + rewrite IH. split; [by right|by intros [?|?]].
    + rewrite IH. split; [by right|by intros [?|?]].
    + split; [by left|lia].
Qed.

(** X4. Null Values never fails and never raises: it passes exactly when no
    column of the table holds a missing value, and otherwise warns, listing
    under [null_counts] exactly the columns that hold one, each with the
    number of its missing cells. *)
Theorem null_values_semantics (d : DataFrame) :
  ∃ r, null_values_result d = Ok r
    ∧ (status r = PASS ∨ status r = WARN)
    ∧ (status r = PASS ↔ ∀ name s, (name, s) ∈ columns d → NaN ∉ s)
    ∧ (status r = PASS → detail_of r "total_rows" = Some (DInt (len d)))
    ∧ (status r = WARN →
       ∃ counts, detail_of r "null_counts" = Some (DCounts counts)
         ∧ ∀ name n, (name, n) ∈ counts ↔
             ∃ s, (name, s) ∈ columns d ∧ NaN ∈ s ∧ n = count_cells isnull s).
Proof.
  set (counts := List.filter (λ c : string * nat, bool_decide (0 < c.2)%nat)
                   ((λ c : string * Series, (c.1, null_count c.2)) <$> columns d)).
  assert (Hcounts : ∀ name n, (name, n) ∈ counts ↔
             ∃ s, (name, s) ∈ columns d ∧ NaN ∈ s ∧ n = count_cells isnull s).
  { intros name n. unfold counts.
    rewrite elem_of_list_filter_bool, list_elem_of_fmap, bool_decide_eq_true. split.
    - intros [([name' s] & [= -> ->] & Hin) Hpos]. exists s.
      split; [done|]. split; [by apply null_count_pos|done].
    - intros (s & Hin & Hnan & ->). split; [by exists (name, s)|].
      by apply null_count_pos. }
  assert (Hnil : counts = [] ↔ ∀ name s, (name, s) ∈ columns d → NaN ∉ s).
  { split.
    - intros Hnil name s Hin Hnan.
      assert (Hc : (name, count_cells isnull s) ∈ counts) by (apply Hcounts; eauto).
      rewrite Hnil in Hc. by apply elem_of_nil in Hc.
    - intros Hnone. destruct counts as [|[name n] l]; [done|].
      destruct (Hcounts name n) as [(s & Hin & Hnan & _) _]; [left|].
      by destruct (Hnone name s Hin). }
  unfold null_values_result. fold counts.
  destruct counts as [|c l]; simpl.
  - eexists. split; [done|]. cbn [status]. split; [by left|].
    split; [by split; [intros _; apply Hnil|]|]. done.
  - eexists. split; [done|]. cbn [status]. split; [by right|].
    split; [split; [done|by intros ?%Hnil]|]. split; [done|].
    intros _. by exists (c :: l).
Qed.

(** ** Binary Flags *)

Lemma non_binary_loop_members (cols : list string) (d : DataFrame) :
  ∃ l, non_binary_loop cols d = Ok l
       ∧ ∀ col vals, (col, vals) ∈ l ↔
           col ∈ cols ∧ ∃ s, column_of d col = Some s
                             ∧ flag_column s = false ∧ vals = unique s.
Proof.
  unfold flag_column.
  induction cols as [|c cols (l & Hl & IH)]; simpl.
  - exists []. split; [done|]. intros col vals. split.
    + by intros ?%elem_of_nil.
    + by intros [?%elem_of_nil _].
  - destruct (has_column d c) eqn:E.
    + apply has_column_true in E as [s Hs]. rewrite (getitem_column _ _ _ Hs). simpl.
      rewrite Hl. simpl. rewrite (forallb_unique _ _ is_binary_eqb).
      destruct (forallb is_binary s) eqn:Eb; simpl.
      * exists l. split; [done|]. intros col vals. rewrite IH, elem_of_cons. split.
        -- intros [Hc Hrest]. split; [by right|done].
        -- intros [[->|Hc] (s' & Hs' & Hb & Hv)]; [|by eauto].
           rewrite Hs in Hs'. injection Hs' as <-. congruence.
      * eexists. split; [done|]. intros col vals. rewrite !elem_of_cons, IH. split.
        -- intros [[= -> ->]|[Hc Hrest]]; [|split; [by right|done]].
           split; [by left|]. by exists s.
        -- intros [[->|Hc] (s' & Hs' & Hb & Hv)]; [|right; by eauto].
           rewrite Hs in Hs'. injection Hs' as <-. left. by rewrite Hv.
    + exists l. split; [done|]. apply has_column_false in E.
      intros col vals. rewrite IH, elem_of_cons. split.
      * intros [Hc Hrest]. split; [by right|done].
      * intros [[->|Hc] (s' & Hs' & Hb & Hv)]; [congruence|by eauto].
Qed.

(** X5. Binary Flags never raises and never warns. It passes exactly when
    each of the six flag columns that the table has holds only the numbers 0
    and 1, and otherwise fails, reporting under [non_binary_columns] exactly
    the flag columns with another value (a text, a missing value, any other
    number), each with all the distinct values of that column, the valid
    ones included, in some order. *)
Theorem binary_flags_semantics (d : DataFrame) :
  ∃ r, binary_flags_result d = Ok r
    ∧ (status r = PASS ∨ status r = FAIL)
    ∧ (status r = PASS ↔
       ∀ col s, col ∈ TARGET_COL :: FAILURE_MODE_COLS →
                column_of d col = Some s → flag_column s = true)
    ∧ (status r = FAIL →
       ∃ bad, detail_of r "non_binary_columns" = Some (DColumns bad)
         ∧ (∀ col, col ∈ bad.*1 ↔
              col ∈ TARGET_COL :: FAILURE_MODE_COLS
              ∧ ∃ s, column_of d col = Some s ∧ flag_column s = false)
         ∧ (∀ col vals s, (col, vals) ∈ bad → column_of d col = Some s →
              vals ≡ₚ unique s)).
Proof.
  unfold binary_flags_result.
  destruct (non_binary_loop_members (TARGET_COL :: FAILURE_MODE_COLS) d)
    as (l & -> & Hl).
  cbn [mbind result_bind].
  assert (Hnil : l = [] ↔
       ∀ col s, col ∈ TARGET_COL :: FAILURE_MODE_COLS →
                column_of d col = Some s → flag_column s = true).
  { split.
    - intros -> col s Hcol Hs. destruct (flag_column s) eqn:E; [done|].
      assert (Hin : (col, unique s) ∈ []) by (apply Hl; eauto).
      by apply elem_of_nil in Hin.
    - intros Hall. destruct l as [|[col vals] l]; [done|].
      destruct (Hl col vals) as [(Hcol & s & Hs & Hb & _) _]; [left|].
      rewrite (Hall col s Hcol Hs) in Hb. done. }
  destruct l as [|c l].
  - eexists. split; [done|]. cbn [status]. split; [by left|].
    split; [by split; [intros _; apply Hnil|]|]. done.
  - eexists. split; [done|]. cbn [status]. split; [by right|].
    split; [split; [done|by intros ?%Hnil]|].
    intros _. exists (c :: l). split; [done|]. split.
    + intros col. rewrite list_elem_of_fmap. split.
      * intros ([col' vals] & -> & Hin). apply Hl in Hin as (Hcol & s & Hs & Hb & _).
        split; [done|]. by exists s.
      * intros (Hcol & s & Hs & Hb). exists (col, unique s). split; [done|].
        apply Hl. split; [done|]. by exists s.
    + intros col vals s Hin Hs. apply Hl in Hin as (_ & s' & Hs' & _ & ->).
      rewrite Hs in Hs'. by injection Hs' as <-.
Qed.

(** ** Failure Consistency *)

Lemma select_seq_lookup (m : list bool) (k i : nat) :
  i ∈ select m (seq k (length m)) ↔ (k ≤ i)%nat ∧ m !! (i - k)%nat = Some true.
Proof.
  revert k. induction m as [|b m IH]; intros k; simpl.
  - split; [by intros ?%elem_of_nil|by intros [_ ?]].
  - assert (Hstep : (S k ≤ i)%nat ∧ m !! (i - S k)%nat = Some true
                    ↔ (k < i)%nat ∧ (b :: m) !! (i - k)%nat = Some true).
    { split; intros [Hle Hm]; (split; [lia|]).
      - by replace (i - k)%nat with (S (i - S k)) by lia.
      - by replace (i - k)%nat with (S (i - S k)) in Hm by lia. }
    destruct b.
    + rewrite elem_of_cons, IH, Hstep. split.
      * intros [->|[Hlt Hm]]; [|split; [lia|done]].
        split; [lia|]. by rewrite Nat.sub_diag.
      * intros [Hle Hm]. destruct (decide (i = k)) as [->|Hne]; [by left|].
        right. split; [lia|done].
    + rewrite IH, Hstep. split.
      * intros [Hlt Hm]. split; [lia|done].
      * intros [Hle Hm]. destruct (decide (i = k)) as [->|Hne].
        -- by rewrite Nat.sub_diag in Hm.
        -- split; [lia|done].
Qed.

Lemma mask_index_lookup (m : list bool) (i : nat) :
  i ∈ mask_index m ↔ m !! i = Some true.
Proof.
  unfold mask_index. rewrite select_seq_lookup, Nat.sub_0_r.
  split; [by intros [_ ?]|]. intros H. split; [lia|done].
Qed.

Lemma mask_and_lookup (m1 m2 : list bool) (i : nat) :
  mask_and m1 m2 !! i = Some true ↔ m1 !! i = Some true ∧ m2 !! i = Some true.
Proof.
  unfold mask_and. rewrite lookup_zip_with_Some. split.
  - intros (x & y & Hxy & Hx & Hy). symmetry in Hxy.
    apply andb_true_iff in Hxy as [-> ->]. done.
  - intros [H1 H2]. by exists true, true.
Qed.

Lemma eq_scalar_zero_lookup (s : Series) (i : nat) :
  eq_scalar s 0 !! i = Some true ↔ ∃ c, s !! i = Some c ∧ is_zero c = true.
Proof.
  unfold eq_scalar. rewrite list_lookup_fmap. destruct (s !! i) as [c|]; simpl.
  - split.
    + intros [= H]. exists c. by destruct c.
    + intros (c' & [= <-] & H). f_equal. by destruct c.
  - split; [done|]. by intros (c & ? & _).
Qed.

Lemma eq_scalar_one_lookup (s : Series) (i : nat) :
  eq_scalar s 1 !! i = Some true ↔ ∃ c, s !! i = Some c ∧ is_one c = true.
Proof.
  unfold eq_scalar. rewrite list_lookup_fmap. destruct (s !! i) as [c|]; simpl.
  - split.
    + intros [= H]. exists c. by destruct c.
    + intros (c' & [= <-] & H). f_equal. by destruct c.
  - split; [done|]. by intros (c & ? & _).
Qed.

Lemma inconsistent_loop_members (cols : list string) (m : list bool) (d : DataFrame) :
  ∃ l, inconsistent_loop cols m d = Ok l
       ∧ ∀ i, i ∈ l ↔
           m !! i = Some true
           ∧ ∃ mode s c, mode ∈ cols ∧ column_of d mode = Some s
                         ∧ s !! i = Some c ∧ is_one c = true.
Proof.
  induction cols as [|col cols (l & Hl & IH)]; simpl.
  - exists []. split; [done|]. intros i. split.
    + by intros ?%elem_of_nil.
    + by intros [_ (mode & s & c & ?%elem_of_nil & _)].
  - destruct (has_column d col) eqn:E.
    + apply has_column_true in E as [s Hs]. rewrite (getitem_column _ _ _ Hs). simpl.
      rewrite Hl. simpl.
      set (violations := mask_index (mask_and m (eq_scalar s 1))).
      exists (violations ++ l)%list. split.
      { case_bool_decide as Hlen; [done|].
        destruct violations; [done|]. simpl in Hlen. lia. }
      intros i. rewrite elem_of_app, IH. unfold violations.
      rewrite mask_index_lookup, mask_and_lookup, eq_scalar_one_lookup. split.
      * intros [[Hm (c & Hc & Hone)]|[Hm (mode & s' & c & Hmode & Hrest)]].
        -- split; [done|]. exists col, s, c. split; [left|done].
        -- split; [done|]. exists mode, s', c. split; [by right|done].
      * intros [Hm (mode & s' & c & [->|Hmode]%elem_of_cons & Hs' & Hc & Hone)].
        -- rewrite Hs in Hs'. injection Hs' as <-. left. eauto.
        -- right. split; [done|]. by exists mode, s', c.
    + exists l. split; [done|]. apply has_column_false in E.
      intros i. rewrite IH. split.
      * intros [Hm (mode & s' & c & Hmode & Hrest)].
        split; [done|]. exists mode, s', c. split; [by right|done].
      * intros [Hm (mode & s' & c & [->|Hmode]%elem_of_cons & Hs' & Hc & Hone)];
          [congruence|].
        split; [done|]. by exists mode, s', c.
Qed.

(** X6. On a table that has the target column, Failure Consistency never
    raises and never fails. It warns exactly when some row has target 0 and
    one of the failure modes that the table has at 1; [violation_count] is
    then the number of such rows, a row with several modes set counted once,
    and [sample_indices] holds distinct such rows, ten of them or all when
    there are fewer. *)
Theorem failure_consistency_semantics (d : DataFrame) (target : Series) :
  column_of d TARGET_COL = Some target →
  ∃ r, failure_consistency_result d = Ok r
    ∧ (status r = PASS ∨ status r = WARN)
    ∧ (status r = WARN ↔ ∃ i, inconsistent_row d i)
    ∧ (status r = WARN →
       ∃ rows, NoDup rows
         ∧ (∀ i, i ∈ rows ↔ inconsistent_row d i)
         ∧ detail_of r "violation_count" = Some (DInt (length rows))
         ∧ detail_of r "sample_indices" = Some (DRows (take 10 rows))).
Proof.
  intros Htarget.
  assert (Hhas : has_column d TARGET_COL = true) by (apply has_column_true; eauto).
  unfold failure_consistency_result. rewrite Hhas. cbn [negb].
  rewrite (getitem_column _ _ _ Htarget). cbn [mbind result_bind].
  destruct (inconsistent_loop_members FAILURE_MODE_COLS (eq_scalar target 0) d)
    as (l & -> & Hl).
  cbn [mbind result_bind]. cbv zeta.
  set (rows := elements (list_to_set l : gset nat)).
  assert (Hrows : ∀ i, i ∈ rows ↔ inconsistent_row d i).
  { intros i. unfold rows, inconsistent_row.
    rewrite elem_of_elements, elem_of_list_to_set, Hl, eq_scalar_zero_lookup. split.
    - intros [(c & Hc & Hz) Hmode]. split; [|done]. by exists target, c.
    - intros [(t & c & Ht & Hc & Hz) Hmode]. split; [|done].
      rewrite Htarget in Ht. injection Ht as <-. by exists c. }
  assert (Hsome : (0 < length rows)%nat ↔ ∃ i, inconsistent_row d i).
  { split.
    - destruct rows as [|i rows'] eqn:E; simpl; [lia|].
      intros _. exists i. apply Hrows. left.
    - intros [i Hi%Hrows]. destruct rows; [by apply elem_of_nil in Hi|simpl; lia]. }
  destruct (bool_decide (0 < length rows)%nat) eqn:Hlen.
  - apply bool_decide_eq_true in Hlen.
    eexists. split; [done|]. cbn [status]. split; [by right|].
    split; [by split; [intros _; apply Hsome|]|].
    intros _. exists rows. split; [apply NoDup_elements|]. done.
  - apply bool_decide_eq_false in Hlen.
    eexists. split; [done|]. cbn [status]. split; [by left|].
    split; [split; [done|by intros ?%Hsome]|]. done.
Qed.

Lemma failure_consistency_semantics_witness :
  ∃ r, failure_consistency_result silent_modes = Ok r
       ∧ (status r = WARN ↔ ∃ i, inconsistent_row silent_modes i).
Proof.
  destruct (failure_consistency_semantics silent_modes (ints [0; 1; 0]%Z) eq_refl)
    as (r & Hr & _ & Hwarn & _).
  by exists r.
Defined.

(** ** The report *)

Lemma foldl_report_row (rs : list ValidationResult) (st : report_state) :
  foldl report_row st rs
  = {| lines := (lines st ++ (table_row <$> rs))%list;
       pass_count := pass_count st + count_status PASS rs;
       warn_count := warn_count st + count_status WARN rs;
       fail_count := fail_count st + count_status FAIL rs |}.
Proof.
  revert st. induction rs as [|r rs IH]; intros st.
  - destruct st. cbn. unfold count_status. simpl.
    by rewrite app_nil_r, !Nat.add_0_r.
  - cbn [foldl]. rewrite IH. unfold count_status, report_row, has_status.
    cbn [List.filter fmap list_fmap]. fold (table_row r).
    destruct (status r); cbn [lines pass_count warn_count fail_count length];
      rewrite <- app_assoc; f_equal; lia.
Qed.

Lemma count_status_total (rs : list ValidationResult) :
  (count_status PASS rs + count_status WARN rs + count_status FAIL rs = length rs)%nat.
Proof.
  unfold count_status, has_status. induction rs as [|r rs IH]; simpl; [done|].
  destruct (status r); simpl; lia.
Qed.

(** X7. The report of a validator is ten header lines, then one table row
    per recorded result in the order of the checks, then a summary whose
    three counts are the numbers of PASS, WARN and FAIL results and add up
    to the number of rows, then a Details section that is there exactly when
    some result is not PASS and has one block per such result, in order. *)
Theorem report_structure (str_detail : detail → string) (v : DataValidator) :
  ∃ header details,
    length header = 10%nat
    ∧ report_lines str_detail v
      = (header ++ (table_row <$> results v)
         ++ [ ""; "## Summary"; "";
              ("- **PASS:** " ++ str_nat (count_status PASS (results v)))%string;
              ("- **WARN:** " ++ str_nat (count_status WARN (results v)))%string;
              ("- **FAIL:** " ++ str_nat (count_status FAIL (results v)))%string;
              "" ]
         ++ details)%list
    ∧ (count_status PASS (results v) + count_status WARN (results v)
       + count_status FAIL (results v) = length (results v))%nat
    ∧ (details = [] ↔ Forall (λ r, status r = PASS) (results v))
    ∧ (details ≠ [] →
       details = ("## Details" :: "" ::
                  concat (issue_lines str_detail
                          <$> List.filter (λ r, negb (has_status PASS r)) (results v)))%list).
Proof.
  assert (Hissue : ∀ r, is_issue r = negb (has_status PASS r)).
  { intros r. unfold is_issue, has_status. by destruct (status r). }
  assert (Hfilter : List.filter is_issue (results v)
                    = List.filter (λ r, negb (has_status PASS r)) (results v)).
  { apply List.filter_ext. intros r. apply Hissue. }
  assert (Hnil : List.filter is_issue (results v) = []
                 ↔ Forall (λ r, status r = PASS) (results v)).
  { rewrite Forall_forall. split.
    - intros Hn r Hr. destruct (is_issue r) eqn:E.
      + assert (Hin : r ∈ List.filter is_issue (results v))
          by by apply elem_of_list_filter_bool.
        rewrite Hn in Hin. by apply elem_of_nil in Hin.
      + unfold is_issue in E. by destruct (status r).
    - intros Hall. destruct (List.filter is_issue (results v)) as [|r l] eqn:E; [done|].
      assert (Hin : r ∈ List.filter is_issue (results v)) by (rewrite E; left).
      apply elem_of_list_filter_bool in Hin as [Hin Hi].
      unfold is_issue in Hi. by rewrite (Hall r Hin) in Hi. }
  unfold report_lines. cbv zeta. rewrite foldl_report_row.
  cbn [lines pass_count warn_count fail_count]. rewrite !Nat.add_0_l.
  match goal with
  | |- context [(?h ++ (table_row <$> results v))%list] => exists h
  end.
  destruct (List.filter is_issue (results v)) as [|r l] eqn:E.
  - exists []. split; [done|]. split; [by rewrite app_nil_r, <- app_assoc|].
    split; [apply count_status_total|]. split; [by split; [intros _; apply Hnil|]|done].
  - eexists. split; [done|]. split; [by rewrite <- !app_assoc|].
    split; [apply count_status_total|]. split.
    + split; [done|]. by intros ?%Hnil.
    + intros _. by rewrite <- Hfilter.
Qed.

(** ** Columns of flags *)

Import kpi preprocess.

Lemma flag_column_cons (c : cell) (s : Series) :
  flag_column (c :: s) = true →
  ∃ q, c = Num q ∧ (q == 0 ∨ q == 1)%Q ∧ flag_column s = true.
Proof.
  unfold flag_column. simpl. intros [Hc Hs]%andb_true_iff.
  destruct c as [q|t|]; try done. exists q. split; [done|]. split; [|done].
  simpl in Hc. apply orb_true_iff in Hc as [H|H]; apply Qeq_bool_iff in H; eauto.
Qed.

Lemma flag_column_numeric (s : Series) : flag_column s = true → numeric s = true.
Proof.
  induction s as [|c s IH]; [done|].
  intros (q & -> & _ & Hs)%flag_column_cons. simpl. by apply IH.
Qed.

Lemma count_cells_le (f : cell → bool) (s : Series) : (count_cells f s ≤ length s)%nat.
Proof.
  unfold count_cells. induction s as [|c s IH]; csimpl; [done|].
  destruct (f c); lia.
Qed.

Lemma flag_column_sum (s : Series) :
  flag_column s = true →
  (Qsum (numbers s) == inject_Z (Z.of_nat (count_cells is_one s)))%Q.
Proof.
  unfold count_cells. induction s as [|c s IH]; [done|].
  intros (q & -> & Hq & Hs)%flag_column_cons. specialize (IH Hs).
  csimpl. unfold Qsum in *. cbn [foldr]. rewrite IH.
  destruct Hq as [Hq|Hq].
  - assert (Hone : Qeq_bool q 1 = false).
    { destruct (Qeq_bool q 1) eqn:E; [|done]. apply Qeq_bool_iff in E.
      rewrite Hq in E. done. }
    rewrite Hone, Hq. simpl. lra.
  - assert (Hone : Qeq_bool q 1 = true) by by apply Qeq_bool_iff.
    rewrite Hone, Hq, Nat2Z.inj_add, inject_Z_plus.
    change (inject_Z (Z.of_nat 1)) with 1%Q. lra.
Qed.

Lemma flag_column_select (m : list bool) (s : Series) :
  flag_column s = true → flag_column (select m s) = true.
Proof.
  revert m. induction s as [|c s IH]; intros m H.
  - by destruct m as [|[] m].
  - unfold flag_column in *. simpl in H. apply andb_true_iff in H as [Hc Hs].
    destruct m as [|[] m]; simpl; [done| |by apply IH].
    rewrite Hc. by apply IH.
Qed.

Lemma int_of_integer (q : Q) (z : Z) : (q == inject_Z z)%Q → int_of q = z.
Proof.
  unfold Qeq, int_of. simpl. rewrite Z.mul_1_r. intros ->.
  by apply Z.quot_mul.
Qed.

Lemma fraction_bounds (k n : nat) :
  (k ≤ n)%nat → (0 < n)%nat →
  (0 <= inject_Z (Z.of_nat k) / inject_Z (Z.of_nat n)
   ∧ inject_Z (Z.of_nat k) / inject_Z (Z.of_nat n) <= 1)%Q.
Proof.
  intros Hkn Hn.
  assert (Hk0 : (0 <= inject_Z (Z.of_nat k))%Q).
  { rewrite <- (Zle_Qle 0). lia. }
  assert (Hn0 : (0 < inject_Z (Z.of_nat n))%Q).
  { rewrite <- (Zlt_Qlt 0). lia. }
  assert (Hle : (inject_Z (Z.of_nat k) <= inject_Z (Z.of_nat n))%Q).
  { rewrite <- Zle_Qle. lia. }
  split.
  - apply Qle_shift_div_l; [done|]. lra.
  - apply Qle_shift_div_r; [done|]. lra.
Qed.

(** ** The overall failure rate *)

(** X8. On a table whose target column holds only the flags 0 and 1,
    [compute_overall_failure_rate] returns the number of rows, the number of
    failed rows as an integer, and a rate between 0 and 1: the number of
    failed rows over the number of rows, and 0 on a table without rows. The
    percentage is the rate times 100. *)
Theorem overall_failure_rate_flags (d : DataFrame) (target : Series) :
  wf_df d →
  column_of d TARGET_COL = Some target →
  flag_column target = true →
  ∃ o, compute_overall_failure_rate d = Ok o
    ∧ total_records o = len d
    ∧ failure_count o = Z.of_nat (count_cells is_one target)
    ∧ (0 <= failure_rate o)%Q
    ∧ (failure_rate o <= 1)%Q
    ∧ (len d = 0%nat → failure_rate o = 0%Q)
    ∧ ((0 < len d)%nat →
       (failure_rate o
        == inject_Z (failure_count o) / inject_Z (Z.of_nat (len d)))%Q)
    ∧ failure_rate_pct o = (failure_rate o * 100)%Q.
Proof.
  intros Hwf Htarget Hflags.
  pose proof (flag_column_sum target Hflags) as Hsum.
  pose proof (count_cells_le is_one target) as Hle.
  rewrite (wf_column_length d _ _ Hwf Htarget) in Hle.
  unfold compute_overall_failure_rate.
  rewrite (getitem_column _ _ _ Htarget). cbn [mbind result_bind].
  rewrite (series_sum_numeric _ (flag_column_numeric _ Hflags)). cbn [mbind result_bind].
  eexists. split; [done|].
  cbn [total_records failure_count failure_rate failure_rate_pct].
  rewrite (int_of_integer _ _ Hsum). unfold len in *.
  split; [done|]. split; [done|].
  case_bool_decide as Hrows.
  - destruct (fraction_bounds _ _ Hle Hrows) as [H0 H1].
    assert (Hpos : (0 < inject_Z (Z.of_nat (nrows d)))%Q)
      by (rewrite <- (Zlt_Qlt 0); lia).
    assert (Hrate : (Qsum (numbers target) / inject_Z (Z.of_nat (nrows d))
                     == inject_Z (Z.of_nat (count_cells is_one target))
                        / inject_Z (Z.of_nat (nrows d)))%Q)
      by (apply Qmult_comp; [exact Hsum|reflexivity]).
    split; [by apply (Qle_trans _ _ _ H0), Qle_lteq; right; symmetry|].
    split; [by eapply Qle_trans; [apply Qle_lteq; right; exact Hrate|]|].
    split; [intros Hnone; lia|]. split; [|done]. intros _. exact Hrate.
  - split; [done|]. split; [done|]. split; [done|]. split; [|done].
    intros Hsome. lia.
Qed.

Lemma overall_failure_rate_flags_witness :
  ∃ o, compute_overall_failure_rate three_machines = Ok o
       ∧ total_records o = 3%nat ∧ failure_count o = 1%Z.
Proof.
  destruct (overall_failure_rate_flags three_machines (ints [0; 1; 0]%Z))
    as (o & Ho & Htotal & Hcount & _); [by compute_done|done|done|].
  exists o. split; [done|]. split; [done|]. by rewrite Hcount.
Defined.

(** ** The failure rate by type *)

Lemma cell_eqb_congr (a b k : cell) :
  cell_eqb a b = true → cell_eqb a k = cell_eqb b k.
Proof.
  destruct a as [p|s|], b as [q|t|], k as [r|u|]; simpl; try done.
  - apply Qeq_bool_trans_l.
  - by intros ->%String.eqb_eq.
Qed.

Lemma existsb_eqb_congr (a b : cell) (l : list cell) :
  cell_eqb a b = true → existsb (cell_eqb a) l = existsb (cell_eqb b) l.
Proof.
  intros H. induction l as [|k l IH]; simpl; [done|].
  by rewrite (cell_eqb_congr a b k H), IH.
Qed.

Lemma existsb_eqb_elem (c : cell) (l : list cell) :
  c ∈ l → existsb (cell_eqb c) l = true.
Proof.
  intros H. apply existsb_exists. exists c.
  split; [by apply list_elem_of_In|apply cell_eqb_refl].
Qed.

(** Among the distinct cells of a column, exactly one is equal to a given
    cell of the column. *)
Lemma matches_unique_acc (c : cell) (seen : list cell) (s : Series) :
  count_true ((λ k, cell_eqb k c) <$> unique_acc seen s)
  = if existsb (cell_eqb c) seen then 0%nat
    else if existsb (cell_eqb c) s then 1%nat else 0%nat.
Proof.
  revert seen. induction s as [|c' s IH]; intros seen; simpl.
  - by destruct (existsb (cell_eqb c) seen).
  - destruct (existsb (cell_eqb c') seen) eqn:E.
    + rewrite IH. destruct (existsb (cell_eqb c) seen) eqn:Es; [done|].
      destruct (cell_eqb c c') eqn:Ec; [|done].
      rewrite (existsb_eqb_congr c c' seen Ec) in Es. congruence.
    + csimpl. rewrite IH. simpl. rewrite (cell_eqb_sym c' c).
      destruct (cell_eqb c c') eqn:Ec; simpl; [|done].
      by rewrite (existsb_eqb_congr c c' seen Ec), E.
Qed.

Lemma count_true_perm {A} (f : A → bool) (l l' : list A) :
  l ≡ₚ l' → count_true (f <$> l) = count_true (f <$> l').
Proof.
  induction 1 as [|x l l' _ IH|x y l|l l' l'' _ IH1 _ IH2]; csimpl; lia.
Qed.

Lemma matches_group_keys (c : cell) (s : Series) :
  count_true ((λ k, cell_eqb k c) <$> group_keys s)
  = if isnull c then 0%nat else if existsb (cell_eqb c) s then 1%nat else 0%nat.
Proof.
  unfold group_keys.
  rewrite (count_true_perm _ _ _ (sort_by_perm key_leb _)).
  pose proof (matches_unique_acc c [] s) as Hone. cbn [existsb] in Hone.
  rewrite <- Hone. clear Hone. fold (unique s).
  induction (unique s) as [|k l IH]; simpl; [by destruct (isnull c)|].
  destruct k as [q|t|]; csimpl; rewrite IH; by destruct c.
Qed.

Lemma sum_counts_cons (keys : list cell) (c : cell) (types : Series) :
  sum_list ((λ k, count_true (cell_eqb k <$> c :: types)) <$> keys)
  = (count_true ((λ k, cell_eqb k c) <$> keys)
     + sum_list ((λ k, count_true (cell_eqb k <$> types)) <$> keys))%nat.
Proof.
  induction keys as [|k keys IH]; [done|].
  rewrite !fmap_cons.
  change (sum_list (?x :: ?l)) with (x + sum_list l)%nat.
  rewrite IH. cbn beta. rewrite ?fmap_cons. cbn [count_true]. lia.
Qed.

Lemma sum_counts_of_keys (types sub : Series) :
  (∀ c, c ∈ sub → c ∈ types) →
  sum_list ((λ k, count_true (cell_eqb k <$> sub)) <$> group_keys types)
  = count_cells (λ c, negb (isnull c)) sub.
Proof.
  unfold count_cells. induction sub as [|c sub IH]; intros Hsub.
  - csimpl. induction (group_keys types) as [|k l IHl]; csimpl; [done|]. by rewrite IHl.
  - rewrite sum_counts_cons, IH by (intros x Hx; apply Hsub; by right).
    rewrite matches_group_keys, existsb_eqb_elem by (apply Hsub; left).
    csimpl. by destruct (isnull c).
Qed.

Lemma sum_list_perm (l l' : list nat) : l ≡ₚ l' → sum_list l = sum_list l'.
Proof.
  induction 1 as [|x l l' _ IH|x y l|l l' l'' _ IH1 _ IH2]; simpl; lia.
Qed.

Lemma length_select_le {A} (m : list bool) (s : list A) :
  (length (select m s) ≤ count_true m)%nat.
Proof.
  revert s. induction m as [|b m IH]; intros s; simpl; [done|].
  specialize (IH (tail s)). destruct s as [|x s], b; simpl in *; lia.
Qed.

Lemma failure_rate_by_type_rows (d : DataFrame) (types target : Series) :
  column_of d "Type" = Some types →
  column_of d TARGET_COL = Some target →
  numeric target = true →
  compute_failure_rate_by_type d
  = Ok (sort_values (λ r, type_order (Type_ r))
          (group_row types target <$> group_keys types)).
Proof.
  intros Hty Ht Hnum. unfold compute_failure_rate_by_type.
  rewrite (getitem_column _ _ _ Hty), (getitem_column _ _ _ Ht).
  cbn [mbind result_bind].
  rewrite (for_each_total _ (group_row types target)); [done|].
  intros k _. by apply aggregate_numeric.
Qed.

(** X9. On a table with the type column and a target of flags 0 and 1, the
    groups of [compute_failure_rate_by_type] partition the rows that have a
    type: their counts add up to the number of rows whose type is not
    missing. No group is empty, so no rate divides by zero; the failure
    count of a group is the number of its rows with target 1, and its rate
    is that count over the size of the group and lies between 0 and 1. *)
Theorem failure_rate_by_type_partition (d : DataFrame) (types target : Series) :
  column_of d "Type" = Some types →
  column_of d TARGET_COL = Some target →
  flag_column target = true →
  ∃ rows, compute_failure_rate_by_type d = Ok rows
    ∧ sum_list (count <$> rows) = count_cells (λ c, negb (isnull c)) types
    ∧ Forall (λ r,
        (1 ≤ count r)%nat
        ∧ (type_failure_count r
           == inject_Z (Z.of_nat (count_cells is_one
                                    (select (cell_eqb (Type_ r) <$> types) target))))%Q
        ∧ (0 <= type_failure_rate r)%Q
        ∧ (type_failure_rate r <= 1)%Q
        ∧ type_failure_rate r
          = (type_failure_count r / inject_Z (Z.of_nat (count r)))%Q
        ∧ type_failure_rate_pct r = (type_failure_rate r * 100)%Q) rows.
Proof.
  intros Hty Ht Hflags.
  rewrite (failure_rate_by_type_rows d types target Hty Ht
             (flag_column_numeric _ Hflags)).
  eexists. split; [done|]. split.
  - rewrite (sum_list_perm _ (count <$> (group_row types target <$> group_keys types))).
    + rewrite <- list_fmap_compose. by apply sum_counts_of_keys.
    + by rewrite sort_values_perm.
  - apply Forall_forall. intros r Hr. rewrite sort_values_perm in Hr.
    apply list_elem_of_fmap in Hr as (k & -> & Hk).
    cbn [Type_ count type_failure_count type_failure_rate type_failure_rate_pct group_row].
    set (mask := cell_eqb k <$> types).
    assert (Hcount : (1 ≤ count_true mask)%nat).
    { apply group_keys_elem in Hk as [Hk _]. apply unique_acc_elem in Hk.
      unfold mask. clear -Hk. induction Hk as [k l|k c l _ IH]; csimpl.
      - rewrite cell_eqb_refl. lia.
      - lia. }
    pose proof (flag_column_sum _ (flag_column_select mask _ Hflags)) as Hsum.
    assert (Hle : (count_cells is_one (select mask target) ≤ count_true mask)%nat).
    { etrans; [apply count_cells_le|apply length_select_le]. }
    destruct (fraction_bounds _ _ Hle Hcount) as [H0 H1].
    assert (Hpos : (0 < inject_Z (Z.of_nat (count_true mask)))%Q)
      by (rewrite <- (Zlt_Qlt 0); lia).
    assert (Hrate : (Qsum (numbers (select mask target))
                     / inject_Z (Z.of_nat (count_true mask))
                     == inject_Z (Z.of_nat (count_cells is_one (select mask target)))
                        / inject_Z (Z.of_nat (count_true mask)))%Q)
      by (apply Qmult_comp; [exact Hsum|reflexivity]).
    split; [done|]. split; [done|].
    split; [by apply (Qle_trans _ _ _ H0), Qle_lteq; right; symmetry|].
    split; [by eapply Qle_trans; [apply Qle_lteq; right; exact Hrate|]|].
    done.
Qed.

Lemma failure_rate_by_type_partition_witness :
  ∃ rows, compute_failure_rate_by_type unknown_type = Ok rows
          ∧ sum_list (count <$> rows) = 3%nat.
Proof.
  destruct (failure_rate_by_type_partition unknown_type
              [Str "X"; Str "L"; Str "X"] (ints [1; 0; 0]%Z))
    as (rows & Hrows & Hsum & _); [done|done|done|].
  exists rows. split; [done|]. by rewrite Hsum.
Defined.

(** ** The failure mode counts *)

Lemma for_each_Forall2 {A B} (f : A → result B) (P : A → B → Prop) (l : list A) :
  (∀ x, x ∈ l → ∃ y, f x = Ok y ∧ P x y) →
  ∃ ys, for_each f l = Ok ys ∧ Forall2 P l ys.
Proof.
  induction l as [|a l IH]; intros Hf; simpl.
  - exists []. by split.
  - destruct (Hf a) as (y & -> & Hy); [left|].
    destruct IH as (ys & -> & Hys); [intros x Hx; apply Hf; by right|].
    exists (y :: ys). split; [done|]. by constructor.
Qed.

(** X10. On a table with at least one row whose target and failure mode
    columns hold only the flags 0 and 1, [compute_failure_mode_counts]
    returns one row per failure mode, in the declared order. The count of a
    mode is the number of rows with that flag at 1; its percentage of all
    records is that count over the number of rows, between 0 and 100; its
    percentage of failures is that count over the number of failed rows, and
    0 when no row failed. *)
Theorem failure_mode_counts_flags (d : DataFrame) (target : Series) :
  wf_df d →
  (0 < len d)%nat →
  column_of d TARGET_COL = Some target →
  flag_column target = true →
  (∀ mode, mode ∈ FAILURE_MODE_COLS →
           ∃ s, column_of d mode = Some s ∧ flag_column s = true) →
  ∃ rows, compute_failure_mode_counts d = Ok rows
    ∧ Forall2 (λ mode r,
        failure_mode r = mode
        ∧ ∃ s, column_of d mode = Some s
          ∧ mode_count r = Z.of_nat (count_cells is_one s)
          ∧ (pct_of_total r
             == inject_Z (mode_count r) / inject_Z (Z.of_nat (len d)) * 100)%Q
          ∧ (0 <= pct_of_total r)%Q
          ∧ (pct_of_total r <= 100)%Q
          ∧ (count_cells is_one target = 0%nat → pct_of_failures r = 0%Q)
          ∧ ((0 < count_cells is_one target)%nat →
             (pct_of_failures r
              == inject_Z (mode_count r)
                 / inject_Z (Z.of_nat (count_cells is_one target)) * 100)%Q))
        FAILURE_MODE_COLS rows.
Proof.
  intros Hwf Hlen Ht Hflags Hmodes. unfold compute_failure_mode_counts.
  rewrite (getitem_column _ _ _ Ht). cbn [mbind result_bind].
  rewrite (series_sum_numeric _ (flag_column_numeric _ Hflags)).
  cbn [mbind result_bind].
  pose proof (flag_column_sum target Hflags) as Htotal.
  apply for_each_Forall2. intros mode Hmode.
  destruct (Hmodes mode Hmode) as (s & Hs & Hsflags).
  pose proof (flag_column_sum s Hsflags) as Hsum.
  pose proof (count_cells_le is_one s) as Hle.
  rewrite (wf_column_length d _ _ Hwf Hs) in Hle. change (nrows d) with (len d) in Hle.
  unfold mode_record. rewrite (getitem_column _ _ _ Hs). cbn [mbind result_bind].
  rewrite (series_sum_numeric _ (flag_column_numeric _ Hsflags)).
  cbn [mbind result_bind]. rewrite (int_of_integer _ _ Hsum).
  unfold int_truediv. destruct (Z.eqb_spec (Z.of_nat (len d)) 0) as [H0|_]; [lia|].
  cbn [mbind result_bind]. eexists. split; [done|].
  cbn [failure_mode mode_count pct_of_failures pct_of_total].
  split; [done|]. exists s. split; [done|]. split; [done|]. split; [done|].
  destruct (fraction_bounds _ _ Hle Hlen) as [Hlo Hhi].
  set (ratio := (inject_Z (Z.of_nat (count_cells is_one s))
                 / inject_Z (Z.of_nat (len d)))%Q) in *.
  split; [lra|]. split; [lra|]. split.
  - intros Hnone. rewrite Hnone in Htotal.
    assert (Hlt : Qlt_bool 0 (Qsum (numbers target)) = false).
    { destruct (Qlt_bool 0 (Qsum (numbers target))) eqn:E; [|done].
      apply Qlt_bool_iff in E. exfalso. apply (Qlt_not_eq _ _ E). by symmetry. }
    by rewrite Hlt.
  - intros Hsome.
    assert (Hpos : (0 < inject_Z (Z.of_nat (count_cells is_one target)))%Q)
      by (rewrite <- (Zlt_Qlt 0); lia).
    assert (Hlt : Qlt_bool 0 (Qsum (numbers target)) = true).
    { apply Qlt_bool_iff. eapply Qlt_le_trans; [exact Hpos|].
      apply Qle_lteq. right. by symmetry. }
    rewrite Hlt. apply Qmult_comp; [|reflexivity].
    apply Qmult_comp; [reflexivity|]. by apply Qinv_comp.
Qed.

Lemma failure_mode_counts_flags_witness :
  ∃ rows, compute_failure_mode_counts three_machines = Ok rows
          ∧ length rows = 5%nat.
Proof.
  destruct (failure_mode_counts_flags three_machines (ints [0; 1; 0]%Z))
    as (rows & Hrows & Hall); [by compute_done|compute_done|done|done| |].
  - intros mode Hmode.
    repeat (apply elem_of_cons in Hmode as [->|Hmode]; [by eexists|]).
    by apply elem_of_nil in Hmode.
  - exists rows. split; [done|]. by rewrite <- (Forall2_length _ _ _ Hall).
Defined.

(** ** The segments of a quantile analysis *)

Lemma cmp_threshold_le (s : Series) (t : cell) :
  numeric s = true → (∀ x, t ≠ Str x) →
  cmp_threshold Qle_bool s t = Ok (low_mask t s).
Proof.
  intros Hs Ht. unfold cmp_threshold, low_mask. destruct t as [k|x|].
  - by rewrite cmp_scalar_numeric by done.
  - by destruct (Ht x).
  - apply for_each_total. intros c Hc. destruct c as [q|x|]; try done.
    by destruct (numeric_elem s (Str x) Hs Hc x).
Qed.

Lemma cmp_threshold_ge (s : Series) (t : cell) :
  numeric s = true → (∀ x, t ≠ Str x) →
  cmp_threshold Qge_bool s t = Ok (high_mask t s).
Proof.
  intros Hs Ht. unfold cmp_threshold, high_mask. destruct t as [k|x|].
  - by rewrite cmp_scalar_numeric by done.
  - by destruct (Ht x).
  - apply for_each_total. intros c Hc. destruct c as [q|x|]; try done.
    by destruct (numeric_elem s (Str x) Hs Hc x).
Qed.

Lemma mid_mask_masks (lo hi : cell) (s : Series) :
  mask_and (mask_not (low_mask lo s)) (mask_not (high_mask hi s)) = mid_mask lo hi s.
Proof.
  unfold mask_and, mask_not, low_mask, high_mask, mid_mask.
  induction s as [|c s IH]; csimpl; [done|]. by rewrite IH.
Qed.

Lemma quantile_cell (s : Series) (q : Q) :
  numeric s = true → (0 <= q)%Q → (q <= 1)%Q →
  ∃ t, quantile s q = Ok t ∧ ∀ x, t ≠ Str x.
Proof.
  intros Hs H0 H1. rewrite quantile_numeric by done.
  eexists. split; [done|]. intros x. by destruct (numbers s).
Qed.

Lemma format_2f_total (t : cell) : (∀ x, t ≠ Str x) → ∃ text, format_2f t = Ok text.
Proof. intros Ht. destruct t as [q|x|]; simpl; eauto. by destruct (Ht x). Qed.

(** The result of [compute_quantile_failure_rates] on a numeric column, for
    any property [P] that [segment_stats] gives to the segment of a mask. *)
Lemma quantile_failure_rates_masks (P : list bool → segment → Prop)
    (d : DataFrame) (col : string) (s : Series) (q_low q_high : Q) :
  column_of d col = Some s →
  numeric s = true →
  (0 <= q_low)%Q → (q_low <= 1)%Q → (0 <= q_high)%Q → (q_high <= 1)%Q →
  (∀ mask label, ∃ seg, segment_stats d mask label = Ok seg
                        ∧ segment_count seg = count_true mask ∧ P mask seg) →
  ∃ r lo hi low mid high,
    compute_quantile_failure_rates d col q_low q_high = Ok r
    ∧ quantile s q_low = Ok lo ∧ quantile s q_high = Ok hi
    ∧ q_low_value r = lo ∧ q_high_value r = hi
    ∧ (∀ x, lo ≠ Str x) ∧ (∀ x, hi ≠ Str x)
    ∧ segments r = [low; mid; high]
    ∧ segment_count low = count_true (low_mask lo s)
    ∧ segment_count mid = count_true (mid_mask lo hi s)
    ∧ segment_count high = count_true (high_mask hi s)
    ∧ P (low_mask lo s) low ∧ P (mid_mask lo hi s) mid ∧ P (high_mask hi s) high.
Proof.
  intros Hs Hnum Hl0 Hl1 Hh0 Hh1 Hseg.
  destruct (quantile_cell s q_low Hnum Hl0 Hl1) as (lo & Hlo & Hlos).
  destruct (quantile_cell s q_high Hnum Hh0 Hh1) as (hi & Hhi & Hhis).
  destruct (format_2f_total lo Hlos) as [slo Hslo].
  destruct (format_2f_total hi Hhis) as [shi Hshi].
  unfold compute_quantile_failure_rates.
  rewrite (getitem_column _ _ _ Hs). cbn [mbind result_bind].
  rewrite Hlo, Hhi. cbn [mbind result_bind].
  rewrite (cmp_threshold_le s lo Hnum Hlos), (cmp_threshold_ge s hi Hnum Hhis).
  cbn [mbind result_bind]. rewrite mid_mask_masks, Hslo. cbn [mbind result_bind].
  destruct (Hseg (low_mask lo s) ("Low (≤" ++ slo ++ ")")) as (low & -> & Hlow & HPlow).
  cbn [mbind result_bind].
  destruct (Hseg (mid_mask lo hi s) "Medium") as (mid & -> & Hmid & HPmid).
  cbn [mbind result_bind]. rewrite Hshi. cbn [mbind result_bind].
  destruct (Hseg (high_mask hi s) ("High (≥" ++ shi ++ ")")) as (high & -> & Hhigh & HPhigh).
  cbn [mbind result_bind].
  eexists _, lo, hi, low, mid, high. split; [done|]. done.
Qed.

Lemma segment_stats_flags (d : DataFrame) (target : Series)
    (mask : list bool) (label : string) :
  column_of d TARGET_COL = Some target →
  flag_column target = true →
  ∃ seg, segment_stats d mask label = Ok seg
    ∧ segment_count seg = count_true mask
    ∧ segment_failure_count seg = Z.of_nat (count_cells is_one (select mask target))
      ∧ (segment_failure_count seg ≤ Z.of_nat (segment_count seg))%Z
      ∧ (0 <= segment_failure_rate seg)%Q
      ∧ (segment_failure_rate seg <= 1)%Q
      ∧ ((0 < segment_count seg)%nat →
         (segment_failure_rate seg
          == inject_Z (segment_failure_count seg)
             / inject_Z (Z.of_nat (segment_count seg)))%Q)
      ∧ (segment_count seg = 0%nat → segment_failure_rate seg = 0%Q)
      ∧ segment_failure_rate_pct seg = (segment_failure_rate seg * 100)%Q.
Proof.
  intros Ht Hflags.
  pose proof (flag_column_select mask _ Hflags) as Hsel.
  pose proof (flag_column_sum _ Hsel) as Hsum.
  assert (Hle : (count_cells is_one (select mask target) ≤ count_true mask)%nat).
  { etrans; [apply count_cells_le|apply length_select_le]. }
  unfold segment_stats. rewrite (getitem_column _ _ _ Ht). cbn [mbind result_bind].
  rewrite (series_sum_numeric _ (flag_column_numeric _ Hsel)). cbn [mbind result_bind].
  eexists. split; [done|].
  cbn [segment_count segment_failure_count segment_failure_rate segment_failure_rate_pct].
  rewrite (int_of_integer _ _ Hsum).
  split; [done|]. split; [done|]. split; [lia|].
  case_bool_decide as Hrows.
  - destruct (fraction_bounds _ _ Hle Hrows) as [H0 H1].
    assert (Hpos : (0 < inject_Z (Z.of_nat (count_true mask)))%Q)
      by (rewrite <- (Zlt_Qlt 0); lia).
    assert (Hrate : (Qsum (numbers (select mask target))
                     / inject_Z (Z.of_nat (count_true mask))
                     == inject_Z (Z.of_nat (count_cells is_one (select mask target)))
                        / inject_Z (Z.of_nat (count_true mask)))%Q)
      by (apply Qmult_comp; [exact Hsum|reflexivity]).
    split; [by apply (Qle_trans _ _ _ H0), Qle_lteq; right; symmetry|].
    split; [by eapply Qle_trans; [apply Qle_lteq; right; exact Hrate|]|].
    split; [by intros _|split; [lia|done]].
  - split; [done|]. split; [done|]. split; [intros Hsome; lia|done].
Qed.

(** X11. On a numeric column of a table whose target holds only the flags 0
    and 1, and for quantiles in [0, 1], [compute_quantile_failure_rates]
    returns three segments; in each, the failure count is the number of the
    segment's rows with target 1, at most the segment's size, and the rate
    lies between 0 and 1: it is that count over the size, and 0 for a
    segment without rows. *)
Theorem quantile_segment_rates
    (d : DataFrame) (col : string) (s target : Series) (q_low q_high : Q) :
  column_of d col = Some s →
  numeric s = true →
  column_of d TARGET_COL = Some target →
  flag_column target = true →
  (0 <= q_low)%Q → (q_low <= 1)%Q → (0 <= q_high)%Q → (q_high <= 1)%Q →
  ∃ r low mid high,
    compute_quantile_failure_rates d col q_low q_high = Ok r
    ∧ segments r = [low; mid; high]
    ∧ segment_failure_count low
      = Z.of_nat (count_cells is_one (select (low_mask (q_low_value r) s) target))
    ∧ segment_failure_count mid
      = Z.of_nat (count_cells is_one
                    (select (mid_mask (q_low_value r) (q_high_value r) s) target))
    ∧ segment_failure_count high
      = Z.of_nat (count_cells is_one (select (high_mask (q_high_value r) s) target))
    ∧ Forall (λ seg,
        (0 ≤ segment_failure_count seg ≤ Z.of_nat (segment_count seg))%Z
        ∧ (0 <= segment_failure_rate seg)%Q
        ∧ (segment_failure_rate seg <= 1)%Q
        ∧ ((0 < segment_count seg)%nat →
           (segment_failure_rate seg
            == inject_Z (segment_failure_count seg)
               / inject_Z (Z.of_nat (segment_count seg)))%Q)
        ∧ (segment_count seg = 0%nat → segment_failure_rate seg = 0%Q)
        ∧ segment_failure_rate_pct seg = (segment_failure_rate seg * 100)%Q)
        (segments r).
Proof.
  intros Hs Hnum Ht Hflags Hl0 Hl1 Hh0 Hh1.
  destruct (quantile_failure_rates_masks
              (λ mask seg,
                 segment_failure_count seg
                 = Z.of_nat (count_cells is_one (select mask target))
                 ∧ (segment_failure_count seg ≤ Z.of_nat (segment_count seg))%Z
                 ∧ (0 <= segment_failure_rate seg)%Q
                 ∧ (segment_failure_rate seg <= 1)%Q
                 ∧ ((0 < segment_count seg)%nat →
                    (segment_failure_rate seg
                     == inject_Z (segment_failure_count seg)
                        / inject_Z (Z.of_nat (segment_count seg)))%Q)
                 ∧ (segment_count seg = 0%nat → segment_failure_rate seg = 0%Q)
                 ∧ segment_failure_rate_pct seg = (segment_failure_rate seg * 100)%Q)
              d col s q_low q_high Hs Hnum Hl0 Hl1 Hh0 Hh1)
    as (r & lo & hi & low & mid & high & Hr & _ & _ & <- & <- & _ & _ & Hsegs
        & _ & _ & _ & Plow & Pmid & Phigh).
  { intros mask label. by apply segment_stats_flags. }
  exists r, low, mid, high. split; [done|]. split; [done|].
  destruct Plow as (Hlow & ?), Pmid as (Hmid & ?), Phigh as (Hhigh & ?).
  split; [done|]. split; [done|]. split; [done|].
  rewrite Hsegs. repeat constructor; try tauto; lia.
Qed.

Lemma quantile_segment_rates_witness :
  ∃ r, compute_quantile_failure_rates three_machines "Tool wear [min]"
         QUANTILE_LOW QUANTILE_HIGH = Ok r
       ∧ length (segments r) = 3%nat.
Proof.
  destruct (quantile_segment_rates three_machines "Tool wear [min]"
              (ints [0; 3; 5]%Z) (ints [0; 1; 0]%Z) QUANTILE_LOW QUANTILE_HIGH)
    as (r & low & mid & high & Hr & Hsegs & _);
    [done|done|done|done|by vm_compute|by vm_compute|by vm_compute|by vm_compute|].
  exists r. split; [done|]. by rewrite Hsegs.
Defined.

(** ** Categories and segments *)

Lemma assign_category_leb (lo hi x : cell) :
  (∀ t, lo ≠ Str t) → (∀ t, hi ≠ Str t) → (∀ t, x ≠ Str t) →
  assign_category lo hi x
  = Ok (if cell_leb x lo then "Low" else if cell_leb hi x then "High" else "Medium").
Proof.
  intros Hlo Hhi Hx. unfold assign_category.
  destruct x as [p|t|]; [|by destruct (Hx t)|];
    (destruct lo as [l|t|]; [|by destruct (Hlo t)|]);
    (destruct hi as [h|t|]; [|by destruct (Hhi t)|]);
    unfold Qge_bool; simpl; try done;
    try (destruct (Qle_bool p l); [done|]; simpl);
    try (by destruct (Qle_bool h p)); done.
Qed.

Lemma count_true_split {A} (a b : A → bool) (l : list A) :
  (count_true ((λ x, negb (a x) && b x) <$> l) + count_true ((λ x, a x && b x) <$> l)
   = count_true (b <$> l))%nat.
Proof.
  induction l as [|x l IH]; csimpl; [done|]. destruct (a x), (b x); simpl; lia.
Qed.

(** X12. The labels of [categorize_by_quantiles] and the segments of
    [compute_quantile_failure_rates] agree on a numeric column: a row is
    labelled Low exactly when the Low segment holds it and Medium exactly
    when the Medium segment holds it, so these label counts are the segment
    sizes. A row labelled High is in the High segment, but the High segment
    also holds the rows that lie at both thresholds, which are labelled Low:
    its size is the number of High labels plus the number of such rows. *)
Theorem categories_match_segments
    (d : DataFrame) (col : string) (s target : Series) (q_low q_high : Q) :
  column_of d col = Some s →
  numeric s = true →
  column_of d TARGET_COL = Some target →
  numeric target = true →
  (0 <= q_low)%Q → (q_low <= 1)%Q → (0 <= q_high)%Q → (q_high <= 1)%Q →
  ∃ r labels low mid high,
    compute_quantile_failure_rates d col q_low q_high = Ok r
    ∧ categorize_by_quantiles s q_low q_high = Ok labels
    ∧ segments r = [low; mid; high]
    ∧ (∀ i lab, labels !! i = Some lab →
         (lab = "Low" ↔ low_mask (q_low_value r) s !! i = Some true)
         ∧ (lab = "Medium" ↔ mid_mask (q_low_value r) (q_high_value r) s !! i = Some true)
         ∧ (lab = "High" → high_mask (q_high_value r) s !! i = Some true))
    ∧ occurrences "Low" labels = segment_count low
    ∧ occurrences "Medium" labels = segment_count mid
    ∧ (occurrences "High" labels
       + count_true (mask_and (low_mask (q_low_value r) s) (high_mask (q_high_value r) s))
       = segment_count high)%nat.
Proof.
  intros Hs Hnum Ht Htnum Hl0 Hl1 Hh0 Hh1.
  destruct (quantile_failure_rates_masks (λ _ _, True)
              d col s q_low q_high Hs Hnum Hl0 Hl1 Hh0 Hh1)
    as (r & lo0 & hi0 & low & mid & high & Hr & Hlo & Hhi & Hql & Hqh & Hlos & Hhis
        & Hsegs & Hlow & Hmid & Hhigh & _).
  { intros mask label.
    destruct (segment_stats_numeric d mask label target Ht Htnum) as (seg & ? & _ & ?).
    by exists seg. }
  subst lo0 hi0.
  set (lo := q_low_value r) in *. set (hi := q_high_value r) in *.
  set (f := λ x : cell,
              if cell_leb x lo then "Low" else if cell_leb hi x then "High" else "Medium").
  assert (Hlabels : categorize_by_quantiles s q_low q_high = Ok (f <$> s)).
  { unfold categorize_by_quantiles. rewrite Hlo, Hhi. cbn [mbind result_bind].
    apply for_each_total. intros x Hx.
    apply assign_category_leb; [done|done|]. by apply (numeric_elem s). }
  assert (Hocc : ∀ lab (m : cell → bool),
             (∀ x, String.eqb lab (f x) = m x) →
             occurrences lab (f <$> s) = count_true (m <$> s)).
  { intros lab m Hm. unfold occurrences. rewrite <- list_fmap_compose.
    f_equal. apply list_fmap_ext. intros i x _. apply Hm. }
  exists r, (f <$> s), low, mid, high. fold lo hi.
  split; [done|]. split; [done|]. split; [done|]. split; [|split; [|split]].
  - intros i lab. unfold low_mask, mid_mask, high_mask. rewrite !list_lookup_fmap.
    destruct (s !! i) as [x|]; [|done]. simpl. intros [= <-]. unfold f.
    destruct (cell_leb x lo), (cell_leb hi x); simpl;
      repeat split; intros H; try done; discriminate H.
  - rewrite Hlow. apply Hocc. intros x. unfold f.
    by destruct (cell_leb x lo), (cell_leb hi x).
  - rewrite Hmid. apply Hocc. intros x. unfold f.
    by destruct (cell_leb x lo), (cell_leb hi x).
  - rewrite Hhigh, (Hocc "High" (λ x, negb (cell_leb x lo) && cell_leb hi x)).
    + unfold high_mask at 2.
      rewrite <- (count_true_split (λ x, cell_leb x lo) (λ x, cell_leb hi x) s). f_equal.
      unfold mask_and, low_mask. clear. induction s as [|x s IH]; csimpl; [done|].
      by rewrite IH.
    + intros x. unfold f. by destruct (cell_leb x lo), (cell_leb hi x).
Qed.

Lemma categories_match_segments_witness :
  ∃ r labels low mid high,
    compute_quantile_failure_rates three_machines "Tool wear [min]"
      QUANTILE_LOW QUANTILE_HIGH = Ok r
    ∧ categorize_by_quantiles (ints [0; 3; 5]%Z) QUANTILE_LOW QUANTILE_HIGH = Ok labels
    ∧ segments r = [low; mid; high]
    ∧ occurrences "Low" labels = segment_count low.
Proof.
  destruct (categories_match_segments three_machines "Tool wear [min]"
              (ints [0; 3; 5]%Z) (ints [0; 1; 0]%Z) QUANTILE_LOW QUANTILE_HIGH)
    as (r & labels & low & mid & high & Hr & Hlabels & Hsegs & _ & Hlow & _);
    [done|done|done|done|by vm_compute|by vm_compute|by vm_compute|by vm_compute|].
  by exists r, labels, low, mid, high.
Defined.

(** ** Order statistics between the extremes *)

Lemma mean_between (l : list Q) (m M : Q) :
  l ≠ [] →
  Forall (λ x, m <= x)%Q l → Forall (λ x, x <= M)%Q l →
  (m <= Qsum l / inject_Z (Z.of_nat (length l))
   ∧ Qsum l / inject_Z (Z.of_nat (length l)) <= M)%Q.
Proof.
  intros Hne Hm HM.
  assert (Hsum : (m * inject_Z (Z.of_nat (length l)) <= Qsum l
                  ∧ Qsum l <= M * inject_Z (Z.of_nat (length l)))%Q).
  { clear Hne. induction l as [|x l IH].
    - simpl. change (inject_Z (Z.of_nat 0)) with 0%Q. split; lra.
    - apply Forall_cons in Hm as [Hx Hm]. apply Forall_cons in HM as [HxM HM].
      destruct (IH Hm HM) as [IH1 IH2].
      cbn [length]. rewrite Nat2Z.inj_succ, <- Z.add_1_r, inject_Z_plus.
      change (inject_Z 1) with 1%Q. unfold Qsum in *. cbn [foldr]. split; lra. }
  assert (Hpos : (0 < inject_Z (Z.of_nat (length l)))%Q).
  { rewrite <- (Zlt_Qlt 0). destruct l; [done|simpl; lia]. }
  destruct Hsum as [H1 H2]. split.
  - apply Qle_shift_div_l; [done|]. exact H1.
  - apply Qle_shift_div_r; [done|]. exact H2.
Qed.

Lemma nth_sorted_elem (l : list Q) (i : nat) :
  (i < length l)%nat → nth i (sort_by Qle_bool l) 0%Q ∈ l.
Proof.
  intros Hi. apply (elem_of_Permutation_proper _ _ _ (sort_by_perm Qle_bool l)).
  apply list_elem_of_In, nth_In. by rewrite sort_by_length.
Qed.

Lemma interpolate_within (l : list Q) (q m M : Q) :
  l ≠ [] → (0 <= q)%Q → (q <= 1)%Q →
  Forall (λ x, m <= x)%Q l → Forall (λ x, x <= M)%Q l →
  (m <= interpolate (sort_by Qle_bool l) q ∧ interpolate (sort_by Qle_bool l) q <= M)%Q.
Proof.
  intros Hne H0 H1 Hm HM.
  assert (Hv : sort_by Qle_bool l ≠ []).
  { intros Hv. apply (f_equal length) in Hv. rewrite sort_by_length in Hv.
    by destruct l. }
  destruct (interpolate_between (sort_by Qle_bool l) q (sort_Q_sorted l) Hv H0 H1)
    as (Hi & Hlo & Hhi).
  rewrite sort_by_length in Hi, Hlo, Hhi.
  assert (Hlen : (0 < length l)%nat) by (destruct l; [done|simpl; lia]).
  rewrite Forall_forall in Hm, HM. split.
  - eapply Qle_trans; [|exact Hlo]. apply Hm, nth_sorted_elem. lia.
  - eapply Qle_trans; [exact Hhi|]. apply HM, nth_sorted_elem. lia.
Qed.

Lemma series_median_within (s : Series) (m M : Q) :
  numeric s = true →
  numbers s ≠ [] →
  Forall (λ x, m <= x)%Q (numbers s) → Forall (λ x, x <= M)%Q (numbers s) →
  ∃ md, series_median s = Ok (Num md) ∧ (m <= md)%Q ∧ (md <= M)%Q.
Proof.
  intros Hnum Hne Hm HM.
  unfold series_median. rewrite (dropna_numeric s Hnum). cbn [mbind result_bind].
  cbv zeta. rewrite sort_by_length.
  set (l := numbers s) in *.
  assert (Hlen : (0 < length l)%nat) by (destruct l; [done|simpl; lia]).
  destruct (length l) as [|n] eqn:En; [lia|]. rewrite <- En.
  assert (Hhalf : (length l / 2 < length l)%nat) by (apply Nat.div_lt; lia).
  rewrite Forall_forall in Hm, HM.
  pose proof (nth_sorted_elem l (length l / 2) Hhalf) as Hb.
  destruct (Nat.even (length l)).
  - assert (Hprev : (length l / 2 - 1 < length l)%nat) by lia.
    pose proof (nth_sorted_elem l (length l / 2 - 1) Hprev) as Ha.
    eexists. split; [done|].
    pose proof (Hm _ Ha). pose proof (Hm _ Hb). pose proof (HM _ Ha). pose proof (HM _ Hb).
    split; [apply Qle_shift_div_l|apply Qle_shift_div_r]; lra.
  - eexists. split; [done|]. split; [by apply Hm|by apply HM].
Qed.

Lemma series_mean_within (s : Series) (m M : Q) :
  numeric s = true →
  numbers s ≠ [] →
  Forall (λ x, m <= x)%Q (numbers s) → Forall (λ x, x <= M)%Q (numbers s) →
  ∃ mu, series_mean s = Ok (Num mu) ∧ (m <= mu)%Q ∧ (mu <= M)%Q.
Proof.
  intros Hnum Hne Hm HM.
  unfold series_mean. rewrite (dropna_numeric s Hnum). cbn [mbind result_bind].
  destruct (mean_between (numbers s) m M Hne Hm HM) as [H1 H2].
  destruct (numbers s) as [|x l] eqn:E; [done|]. eauto.
Qed.

Lemma quantile_within (s : Series) (q m M : Q) :
  numeric s = true →
  numbers s ≠ [] →
  (0 <= q)%Q → (q <= 1)%Q →
  Forall (λ x, m <= x)%Q (numbers s) → Forall (λ x, x <= M)%Q (numbers s) →
  quantile s q = Ok (Num (interpolate (sort_by Qle_bool (numbers s)) q))
  ∧ (m <= interpolate (sort_by Qle_bool (numbers s)) q)%Q
  ∧ (interpolate (sort_by Qle_bool (numbers s)) q <= M)%Q.
Proof.
  intros Hnum Hne H0 H1 Hm HM. rewrite quantile_numeric by done.
  split; [by destruct (numbers s)|]. by apply interpolate_within.
Qed.

Lemma extremes_of_numbers (s : Series) :
  numeric s = true →
  numbers s ≠ [] →
  ∃ m M, series_min s = Ok (Num m) ∧ series_max s = Ok (Num M)
         ∧ least_of (numbers s) (Num m) ∧ greatest_of (numbers s) (Num M).
Proof.
  intros Hnum Hne. unfold series_min, series_max.
  rewrite (dropna_numeric s Hnum). cbn [mbind result_bind].
  pose proof (reduce_Qmin_least (numbers s)) as Hmin.
  pose proof (reduce_Qmax_greatest (numbers s)) as Hmax.
  destruct (numbers s) as [|x l]; [done|]. cbn [reduce] in *.
  eexists _, _. split; [done|]. split; [done|]. by split.
Qed.

Lemma Qfloor_half (z : Z) : Qfloor ((1 # 2) * inject_Z z) = (z / 2)%Z.
Proof.
  unfold Qfloor, Qmult, inject_Z. cbn [Qnum Qden]. by rewrite Z.mul_1_l.
Qed.

(** The median is the quantile one half. *)
Lemma median_half_quantile (v : list Q) :
  v ≠ [] →
  ((if Nat.even (length v)
    then (nth (length v / 2 - 1) v 0 + nth (length v / 2) v 0) / 2
    else nth (length v / 2) v 0)
   == interpolate v (1 # 2))%Q.
Proof.
  intros Hne. unfold interpolate. cbv zeta. rewrite Qfloor_half.
  assert (Hlen : (0 < length v)%nat) by (destruct v; [done|simpl; lia]).
  set (n := length v) in *.
  destruct (Nat.even n) eqn:E.
  - apply Nat.even_spec in E as [k Hk].
    assert (Hdiv : (Z.of_nat (n - 1) / 2 = Z.of_nat k - 1)%Z).
    { rewrite Hk. Z.div_mod_to_equations. lia. }
    assert (Hhalf : (n / 2 = k)%nat).
    { rewrite Hk. rewrite Nat.mul_comm. apply Nat.div_mul. lia. }
    rewrite Hdiv, Hhalf.
    replace (Z.to_nat (Z.of_nat k - 1)) with (k - 1)%nat by lia.
    replace (Nat.min (k - 1 + 1) (n - 1)) with k by lia.
    assert (Hfrac : ((1 # 2) * inject_Z (Z.of_nat (n - 1)) - inject_Z (Z.of_nat k - 1)
                     == 1 # 2)%Q).
    { replace (Z.of_nat (n - 1)) with (2 * Z.of_nat k - 1)%Z by lia.
      unfold Zminus. rewrite !inject_Z_plus, inject_Z_mult.
      change (inject_Z 2) with 2%Q. change (inject_Z (- (1))) with (-1 # 1)%Q. lra. }
    rewrite Hfrac. field.
  - assert (Hodd : Nat.odd n = true) by (by rewrite <- Nat.negb_even, E).
    apply Nat.odd_spec in Hodd as [k Hk].
    assert (Hdiv : (Z.of_nat (n - 1) / 2 = Z.of_nat k)%Z).
    { rewrite Hk. Z.div_mod_to_equations. lia. }
    assert (Hhalf : (n / 2 = k)%nat).
    { rewrite Hk. symmetry. apply (Nat.div_unique _ 2 k 1); lia. }
    rewrite Hdiv, Hhalf, Nat2Z.id.
    assert (Hfrac : ((1 # 2) * inject_Z (Z.of_nat (n - 1)) - inject_Z (Z.of_nat k)
                     == 0)%Q).
    { replace (Z.of_nat (n - 1)) with (2 * Z.of_nat k)%Z by lia.
      rewrite inject_Z_mult. change (inject_Z 2) with 2%Q. lra. }
    rewrite Hfrac. lra.
Qed.

Lemma series_median_half (s : Series) :
  numeric s = true →
  numbers s ≠ [] →
  ∃ md, series_median s = Ok (Num md)
        ∧ (md == interpolate (sort_by Qle_bool (numbers s)) (1 # 2))%Q.
Proof.
  intros Hnum Hne.
  assert (Hv : sort_by Qle_bool (numbers s) ≠ []).
  { intros Hv. apply (f_equal length) in Hv. rewrite sort_by_length in Hv.
    by destruct (numbers s). }
  pose proof (median_half_quantile _ Hv) as Hhalf.
  unfold series_median. rewrite (dropna_numeric s Hnum). cbn [mbind result_bind].
  cbv zeta. destruct (length (sort_by Qle_bool (numbers s))) as [|n] eqn:En.
  { by destruct (sort_by Qle_bool (numbers s)). }
  rewrite <- En in *. destruct (Nat.even _); (eexists; split; [done|exact Hhalf]).
Qed.

(** ** The quantile statistics of a column *)



(** ** The statistics of the temperature delta *)

Lemma length_select {A} (m : list bool) (s : list A) :
  length m = length s → length (select m s) = count_true m.
Proof.
  revert s. induction m as [|b m IH]; intros [|x s] Hlen; simpl in *; try done.
  injection Hlen as Hlen. destruct b; simpl; by rewrite IH.
Qed.

Lemma numbers_select_elem (m : list bool) (s : Series) (x : Q) :
  x ∈ numbers (select m s) → x ∈ numbers s.
Proof.
  revert m. induction s as [|c s IH]; intros [|b m]; simpl; try done.
  - by intros ?%elem_of_nil.
  - destruct b.
    + destruct c as [q|t|]; csimpl.
      * intros [->|H]%elem_of_cons; [left|right; by eapply IH].
      * apply IH.
      * apply IH.
    + intros H. apply IH in H. destruct c as [q|t|]; csimpl; [by right|done|done].
Qed.

Lemma flag_column_counts (s : Series) :
  flag_column s = true →
  (count_cells is_one s + count_cells is_zero s = length s)%nat.
Proof.
  unfold count_cells. induction s as [|c s IH]; [done|].
  intros (q & -> & Hq & Hs)%flag_column_cons. specialize (IH Hs). csimpl.
  destruct Hq as [Hq|Hq].
  - assert (H0 : Qeq_bool q 0 = true) by by apply Qeq_bool_iff.
    assert (H1 : Qeq_bool q 1 = false).
    { destruct (Qeq_bool q 1) eqn:E; [|done]. apply Qeq_bool_iff in E.
      rewrite Hq in E. done. }
    rewrite H0, H1. lia.
  - assert (H1 : Qeq_bool q 1 = true) by by apply Qeq_bool_iff.
    assert (H0 : Qeq_bool q 0 = false).
    { destruct (Qeq_bool q 0) eqn:E; [|done]. apply Qeq_bool_iff in E.
      rewrite Hq in E. done. }
    rewrite H0, H1. lia.
Qed.

Lemma mean_median_within (s : Series) (lo hi : cell) :
  numeric s = true →
  (∀ x, x ∈ numbers s → cell_le lo (Num x) ∧ cell_le (Num x) hi) →
  ∃ mu md, series_mean s = Ok mu ∧ series_median s = Ok md
    ∧ within lo hi mu ∧ within lo hi md
    ∧ (numbers s = [] ↔ mu = NaN).
Proof.
  intros Hnum Hin. destruct (numbers s) as [|x l] eqn:En.
  - unfold series_mean, series_median. rewrite (dropna_numeric s Hnum), En.
    cbn [mbind result_bind]. exists NaN, NaN. unfold within.
    split; [done|]. split; [done|]. split; [by left|]. split; [by left|]. done.
  - assert (Hne : numbers s ≠ []) by by rewrite En.
    destruct (Hin x) as [Hlo Hhi]; [left|].
    destruct lo as [m| |]; [|done|done]. destruct hi as [M| |]; [|done|done].
    rewrite <- En in Hin.
    assert (Hm : Forall (λ x, m <= x)%Q (numbers s)).
    { apply Forall_forall. intros y Hy. by apply Hin. }
    assert (HM : Forall (λ x, x <= M)%Q (numbers s)).
    { apply Forall_forall. intros y Hy. by apply Hin. }
    destruct (series_mean_within s m M Hnum Hne Hm HM) as (mu & -> & ? & ?).
    destruct (series_median_within s m M Hnum Hne Hm HM) as (md & -> & ? & ?).
    exists (Num mu), (Num md). unfold within. cbn [cell_le].
    split; [done|]. split; [done|]. split; [by right|]. split; [by right|].
    by split.
Qed.

Lemma group_statistics_within (mask : list bool) (s : Series) (lo hi : cell) :
  numeric s = true →
  (∀ x, x ∈ numbers s → cell_le lo (Num x) ∧ cell_le (Num x) hi) →
  ∃ g, group_statistics (select mask s) = Ok g
    ∧ group_count g = length (select mask s)
    ∧ within lo hi (group_mean g)
    ∧ within lo hi (group_median g).
Proof.
  intros Hnum Hin.
  pose proof (numeric_select mask s Hnum) as Hsel.
  destruct (mean_median_within (select mask s) lo hi Hsel)
    as (mu & md & Hmu & Hmd & ? & ? & _).
  { intros x Hx. by apply Hin, (numbers_select_elem mask). }
  destruct (series_std_numeric _ Hsel) as (sd & Hsd & _).
  unfold group_statistics. rewrite Hmu, Hmd, Hsd. cbn [mbind result_bind].
  eexists. split; [done|]. done.
Qed.

Lemma between_extremes (l : list Q) (lo hi : cell) :
  least_of l lo → greatest_of l hi →
  ∀ x, x ∈ l → cell_le lo (Num x) ∧ cell_le (Num x) hi.
Proof.
  intros Hlo Hhi x Hx.
  destruct lo as [m| |]; [|done|by rewrite Hlo in Hx; apply elem_of_nil in Hx].
  destruct hi as [M| |]; [|done|by rewrite Hhi in Hx; apply elem_of_nil in Hx].
  destruct Hlo as [_ Hlo], Hhi as [_ Hhi]. rewrite Forall_forall in Hlo, Hhi.
  split; [by apply Hlo|by apply Hhi].
Qed.



(** ** The feature deriver on any table *)

Lemma add_temp_delta_steps (h : store) (r : ref) (d : DataFrame) :
  h !! r = Some d →
  add_temp_delta r h
  = match (process ← getitem d PROCESS_TEMP;
           air ← getitem d AIR_TEMP;
           series_sub process air) with
    | Ok delta =>
        Some (Ok (fresh (dom h)), <[fresh (dom h) := assign TEMP_DELTA delta d]> h)
    | Raise e => Some (Raise e, <[fresh (dom h) := d]> h)
    end.
Proof.
  intros Hr. unfold add_temp_delta, athen, areturn, copy. rewrite Hr.
  cbn [mbind option_bind]. unfold setitem. rewrite lookup_insert_eq.
  cbn [mbind option_bind].
  destruct (process ← getitem d PROCESS_TEMP; air ← getitem d AIR_TEMP;
            series_sub process air) as [delta|e]; [|done].
  by rewrite insert_insert_eq.
Qed.

Lemma for_each_raises {A B} (f : A → result B) (e : exn) (l : list A) :
  (∀ x, x ∈ l → f x = Raise e ∨ ∃ y, f x = Ok y) →
  (∃ x, x ∈ l ∧ f x = Raise e) →
  for_each f l = Raise e.
Proof.
  induction l as [|a l IH]; intros Hall (x & Hx & Hfx).
  - by apply elem_of_nil in Hx.
  - simpl. destruct (Hall a) as [->|[y Hy]]; [left|done|].
    rewrite Hy. cbn [mbind result_bind].
    apply elem_of_cons in Hx as [->|Hx]; [congruence|].
    rewrite IH; [done| |by eauto]. intros z Hz. apply Hall. by right.
Qed.

Lemma numeric_false (s : Series) :
  numeric s = false → ∃ i t, s !! i = Some (Str t).
Proof.
  intros (c & Hc & Hstr)%forallb_false_elem.
  apply list_elem_of_lookup in Hc as [i Hi]. destruct c as [q|t|]; try done. eauto.
Qed.

Lemma series_sub_text (a b : Series) :
  length a = length b →
  numeric a && numeric b = false →
  series_sub a b = Raise TypeError.
Proof.
  intros Hlen Htext. unfold series_sub. apply for_each_raises.
  - intros [x y] _. simpl. destruct x as [u|t|], y as [v|t'|]; simpl; eauto.
  - apply andb_false_iff in Htext as [(i & t & Hi)%numeric_false|(i & t & Hi)%numeric_false].
    + destruct (lookup_lt_is_Some_2 b i) as [y Hy].
      { rewrite <- Hlen. by eapply lookup_lt_Some. }
      exists (Str t, y). split; [|done].
      apply list_elem_of_lookup. exists i. by rewrite lookup_zip_with, Hi, Hy.
    + destruct (lookup_lt_is_Some_2 a i) as [x Hx].
      { rewrite Hlen. by eapply lookup_lt_Some. }
      exists (x, Str t). split; [|by destruct x].
      apply list_elem_of_lookup. exists i. by rewrite lookup_zip_with, Hx, Hi.
Qed.



Lemma set_column_twice (name : string) (s s' : Series) (cols : list (string * Series)) :
  set_column name s (set_column name s' cols) = set_column name s cols.
Proof.
  induction cols as [|[k c] cols IH]; simpl.
  - by rewrite String.eqb_refl.
  - destruct (String.eqb name k) eqn:E; simpl; rewrite E; [done|]. by rewrite IH.
Qed.

(** X16. Deriving the feature twice is harmless: on a well-formed table with
    numeric temperature columns, [add_temp_delta] applied to its own output
    returns one more new table with exactly the contents of the first
    output -- the same columns in the same order, no second derived column --
    and leaves the input and the first output as they were. *)
Theorem add_temp_delta_twice
    (h : store) (r : ref) (d : DataFrame) (process air : Series) :
  h !! r = Some d →
  wf_df d →
  column_of d PROCESS_TEMP = Some process →
  column_of d AIR_TEMP = Some air →
  numeric process = true →
  numeric air = true →
  ∃ r1 h1 r2 h2 d1,
    add_temp_delta r h = Some (Ok r1, h1)
    ∧ add_temp_delta r1 h1 = Some (Ok r2, h2)
    ∧ h1 !! r1 = Some d1
    ∧ h2 !! r2 = Some d1
    ∧ r2 ≠ r1 ∧ r2 ≠ r
    ∧ h2 !! r1 = Some d1
    ∧ h2 !! r = Some d.
Proof.
  intros Hr Hwf Hp Ha Hnp Hna.
  set (delta := (λ p, difference p.1 p.2) <$> zip process air).
  set (d1 := assign TEMP_DELTA delta d).
  set (r1 := fresh (dom h)).
  set (h1 := <[r1 := d1]> h).
  set (r2 := fresh (dom h1)).
  assert (Hfresh1 : h !! r1 = None) by (apply not_elem_of_dom, is_fresh).
  assert (Hfresh2 : h1 !! r2 = None) by (apply not_elem_of_dom, is_fresh).
  assert (Hr1 : h1 !! r1 = Some d1) by apply lookup_insert_eq.
  assert (Hne1 : r1 ≠ r) by (intros E; rewrite E in Hfresh1; congruence).
  assert (Hr' : h1 !! r = Some d) by (unfold h1; by rewrite lookup_insert_ne).
  assert (Hne21 : r2 ≠ r1) by (intros E; rewrite E in Hfresh2; congruence).
  assert (Hne2 : r2 ≠ r) by (intros E; rewrite E in Hfresh2; congruence).
  assert (Hsteps : ∀ d0, column_of d0 PROCESS_TEMP = Some process →
                         column_of d0 AIR_TEMP = Some air →
                         (p ← getitem d0 PROCESS_TEMP; a ← getitem d0 AIR_TEMP;
                          series_sub p a) = Ok delta).
  { intros d0 Hp0 Ha0. rewrite (getitem_column _ _ _ Hp0), (getitem_column _ _ _ Ha0).
    cbn [mbind result_bind]. by apply series_sub_numeric. }
  exists r1, h1, r2, (<[r2 := d1]> h1), d1.
  split; [|split; [|split; [done|split; [by apply lookup_insert_eq|]]]].
  - rewrite (add_temp_delta_steps h r d Hr), (Hsteps d Hp Ha). done.
  - rewrite (add_temp_delta_steps h1 r1 d1 Hr1), Hsteps.
    + fold r2. do 3 f_equal. unfold d1, assign. cbn [columns nrows].
      by rewrite set_column_twice.
    + unfold d1. by rewrite column_of_assign_ne.
    + unfold d1. by rewrite column_of_assign_ne.
  - split; [done|]. split; [done|]. split; by rewrite lookup_insert_ne.
Qed.

Lemma add_temp_delta_twice_witness :
  ∃ r1 h1 r2 h2 d1,
    add_temp_delta 1%positive {[ 1%positive := three_machines ]} = Some (Ok r1, h1)
    ∧ add_temp_delta r1 h1 = Some (Ok r2, h2)
    ∧ h1 !! r1 = Some d1
    ∧ h2 !! r2 = Some d1.
Proof.
  destruct (add_temp_delta_twice {[ 1%positive := three_machines ]} 1%positive
              three_machines
              [Num (3086 # 10); Num (3087 # 10); Num (3085 # 10)]
              [Num (2981 # 10); Num (2982 # 10); Num (2981 # 10)])
    as (r1 & h1 & r2 & h2 & d1 & Hfirst & Hsecond & Hd1 & Hd2 & _);
    [done|by compute_done|done|done|done|done|].
  by exists r1, h1, r2, h2, d1.
Defined.

(** ** The indicators and the columns they do not read *)

Lemma for_each_ext {A B} (f g : A → result B) (l : list A) :
  (∀ x, x ∈ l → f x = g x) → for_each f l = for_each g l.
Proof.
  induction l as [|a l IH]; intros H; simpl; [done|].
  rewrite (H a) by left. rewrite IH; [done|]. intros x Hx. apply H. by right.
Qed.

(** X17. A column that is neither a required one nor the derived one is
    invisible to the indicators: assigning it leaves the overall failure
    rate, the failure rate by type, the failure mode counts, the statistics
    of the temperature delta and the quantile analysis of any other column
    exactly as they were, errors included. *)
Theorem indicators_ignore_other_columns (name : string) (s : Series) (d : DataFrame) :
  name ∉ REQUIRED_COLUMNS →
  name ≠ TEMP_DELTA →
  compute_overall_failure_rate (assign name s d) = compute_overall_failure_rate d
  ∧ compute_failure_rate_by_type (assign name s d) = compute_failure_rate_by_type d
  ∧ compute_failure_mode_counts (assign name s d) = compute_failure_mode_counts d
  ∧ compute_temp_delta_stats (assign name s d) = compute_temp_delta_stats d
  ∧ ∀ col q_low q_high,
      col ≠ name →
      compute_quantile_failure_rates (assign name s d) col q_low q_high
      = compute_quantile_failure_rates d col q_low q_high.
Proof.
  intros Hreq Hdelta.
  assert (Htarget : TARGET_COL ≠ name) by (apply (required_not name); [done|compute_done]).
  assert (Htype : "Type" ≠ name) by (apply (required_not name); [done|compute_done]).
  assert (Hmodes : ∀ mode, mode ∈ FAILURE_MODE_COLS → mode ≠ name).
  { intros mode Hmode. apply (required_not name); [done|].
    repeat (apply elem_of_cons in Hmode as [->|Hmode]; [compute_done|]).
    by apply elem_of_nil in Hmode. }
  assert (Hseg : ∀ mask label,
             segment_stats (assign name s d) mask label = segment_stats d mask label).
  { intros mask label. unfold segment_stats. by rewrite getitem_assign_ne. }
  split; [|split; [|split; [|split]]].
  - unfold compute_overall_failure_rate. by rewrite getitem_assign_ne.
  - unfold compute_failure_rate_by_type. by rewrite !getitem_assign_ne.
  - unfold compute_failure_mode_counts. rewrite getitem_assign_ne by done.
    destruct (getitem d TARGET_COL) as [target|e]; [|done]. cbn [mbind result_bind].
    destruct (series_sum target) as [total|e]; [|done]. cbn [mbind result_bind].
    apply for_each_ext. intros mode Hmode. unfold mode_record.
    by rewrite getitem_assign_ne by by apply Hmodes.
  - unfold compute_temp_delta_stats.
    rewrite has_column_assign_ne by (by intros E; apply Hdelta).
    by rewrite !getitem_assign_ne by (done || by intros E; apply Hdelta).
  - intros col q_low q_high Hcol. unfold compute_quantile_failure_rates.
    rewrite getitem_assign_ne by done.
    destruct (getitem d col) as [c|e]; [|done]. cbn [mbind result_bind].
    destruct (quantile c q_low) as [lo|e]; [|done]. cbn [mbind result_bind].
    destruct (quantile c q_high) as [hi|e]; [|done]. cbn [mbind result_bind].
    destruct (cmp_threshold Qle_bool c lo) as [lm|e]; [|done]. cbn [mbind result_bind].
    destruct (cmp_threshold Qge_bool c hi) as [hm|e]; [|done]. cbn [mbind result_bind].
    destruct (format_2f lo) as [slo|e]; [|done]. cbn [mbind result_bind].
    rewrite !Hseg.
    destruct (segment_stats d lm _) as [low|e]; [|done]. cbn [mbind result_bind].
    destruct (segment_stats d _ "Medium") as [mid|e]; [|done]. cbn [mbind result_bind].
    destruct (format_2f hi) as [shi|e]; [|done]. cbn [mbind result_bind].
    by rewrite Hseg.
Qed.

Lemma indicators_ignore_other_columns_witness :
  compute_failure_rate_by_type (assign "Operator" [Str "A"; Str "B"; Str "A"] three_machines)
  = compute_failure_rate_by_type three_machines.
Proof.
  destruct (indicators_ignore_other_columns "Operator" [Str "A"; Str "B"; Str "A"]
              three_machines) as (_ & Htype & _); [compute_done|done|done].
Defined.

(** ** What a run of the checks tells about the table *)

Lemma cmp_scalar_text (op : Q → Q → bool) (s : Series) (k : Q) :
  numeric s = false → cmp_scalar op s k = Raise TypeError.
Proof.
  intros (i & t & Hi)%numeric_false. unfold cmp_scalar. apply for_each_raises.
  - intros c _. destruct c; eauto.
  - exists (Str t). split; [|done]. apply list_elem_of_lookup. eauto.
Qed.

(** A range check with a minimum raises on a column that holds a text. *)
Lemma range_result_text (col : string) (rules : rule) (d : DataFrame) (s : Series) :
  column_of d col = Some s →
  rule_min rules ≠ None →
  numeric s = false →
  range_result col rules d = Raise TypeError.
Proof.
  intros Hs Hmin Htext.
  assert (Hhas : has_column d col = true) by (apply has_column_true; eauto).
  unfold range_result. rewrite Hhas. cbn [negb].
  rewrite (getitem_column _ _ _ Hs). cbn [mbind result_bind].
  unfold min_violations. destruct (rule_min rules) as [m|]; [|done].
  destruct (strict_positive rules); by rewrite cmp_scalar_text.
Qed.

Lemma range_result_ok_numeric (col : string) (rules : rule) (d : DataFrame)
    (s : Series) (r : ValidationResult) :
  column_of d col = Some s →
  rule_min rules ≠ None →
  range_result col rules d = Ok r →
  numeric s = true.
Proof.
  intros Hs Hmin Hr. destruct (numeric s) eqn:E; [done|].
  by rewrite (range_result_text col rules d s Hs Hmin E) in Hr.
Qed.

(** The loop of the range checks stops at the first check that raises and
    leaves the results of the checks before it in the validator. *)
Lemma range_loop_spec (rules : list (string * rule)) (acc : list ValidationResult)
    (v : DataValidator) :
  ∃ rr,
    Forall2 (λ rule r, range_result rule.1 rule.2 (df v) = Ok r)
      (take (length rr) rules) rr
    ∧ ((length rr = length rules
        ∧ range_loop rules acc v
          = (Ok (acc ++ rr)%list, {| df := df v; results := (results v ++ rr)%list |}))
       ∨ (∃ rule e, rules !! length rr = Some rule
            ∧ range_result rule.1 rule.2 (df v) = Raise e
            ∧ range_loop rules acc v
              = (Raise e, {| df := df v; results := (results v ++ rr)%list |}))).
Proof.
  revert acc v. induction rules as [|[col r] rules IH]; intros acc v.
  - exists []. split; [constructor|]. left. split; [done|].
    simpl. rewrite !app_nil_r. by destruct v.
  - assert (Hstep : range_loop ((col, r) :: rules) acc v
                    = match range_result col r (df v) with
                      | Ok res =>
                          range_loop rules (acc ++ [res])%list
                            {| df := df v; results := (results v ++ [res])%list |}
                      | Raise e => (Raise e, v)
                      end).
    { cbn [range_loop]. unfold mthen at 1. unfold eval at 1.
      by destruct (range_result col r (df v)). }
    rewrite Hstep. clear Hstep.
    destruct (range_result col r (df v)) as [res|e] eqn:Eres.
    + destruct (IH (acc ++ [res])%list
                  {| df := df v; results := (results v ++ [res])%list |})
        as (rr & Hall & Hcase). cbn [df results] in Hall, Hcase.
      exists (res :: rr). split; [by constructor|].
      destruct Hcase as [[Hlen Hrun]|(rule & e & Hrule & Hraise & Hrun)].
      * left. split; [by cbn [length]; rewrite Hlen|]. rewrite Hrun.
        by rewrite <- !app_assoc.
      * right. exists rule, e. split; [done|]. split; [done|].
        rewrite Hrun. by rewrite <- !app_assoc.
    + exists []. split; [constructor|]. right. exists (col, r), e.
      split; [done|]. split; [done|]. rewrite app_nil_r. by destruct v.
Qed.

Lemma run_all_checks_inv (rules : list (string * rule)) (v : DataValidator)
    (rs : list ValidationResult) :
  (run_all_checks_with rules v).1 = Ok rs →
  ∃ r1 r2 rr r4 r5 r6,
    rs = ([r1; r2] ++ rr ++ [r4; r5; r6])%list
    ∧ required_columns_result (df v) = Ok r1
    ∧ type_domain_result (df v) = Ok r2
    ∧ Forall2 (λ rule r, range_result rule.1 rule.2 (df v) = Ok r) rules rr
    ∧ binary_flags_result (df v) = Ok r4
    ∧ failure_consistency_result (df v) = Ok r5
    ∧ null_values_result (df v) = Ok r6.
Proof.
  destruct (required_columns_total (df v)) as (r1 & Hr1 & _).
  destruct (type_domain_total (df v)) as (r2 & Hr2 & _).
  destruct (binary_flags_total (df v)) as (r4 & Hr4 & _).
  destruct (failure_consistency_total (df v)) as (r5 & Hr5 & _).
  destruct (null_values_total (df v)) as (r6 & Hr6 & _).
  destruct (range_loop_spec rules [] {| df := df v; results := [r1; r2] |})
    as (rr & Hall & Hcase). cbn [df results] in Hall, Hcase.
  unfold run_all_checks_with, check_required_columns, check_type_domain,
    check_numeric_ranges_with, check_binary_flags, check_failure_consistency,
    check_null_values, reset_results, get_results.
  unfold mthen at 1. unfold mthen at 1.
  rewrite (record_check_ok _ _ r1) by done. cbn [df results app].
  unfold mthen at 1. rewrite (record_check_ok _ _ r2) by done. cbn [df results app].
  unfold mthen at 1.
  destruct Hcase as [[Hlen Hrun]|(rule & e & _ & _ & Hrun)]; rewrite Hrun; [|done].
  unfold mthen at 1. rewrite (record_check_ok _ _ r4) by done. cbn [df results].
  unfold mthen at 1. rewrite (record_check_ok _ _ r5) by done. cbn [df results].
  unfold mthen at 1. rewrite (record_check_ok _ _ r6) by done. cbn [df results fst].
  intros [= <-]. exists r1, r2, rr, r4, r5, r6.
  split; [by rewrite <- !app_assoc|]. split; [done|]. split; [done|].
  split; [|done]. rewrite Hlen in Hall. by rewrite firstn_all in Hall.
Qed.

Lemma required_columns_present (d : DataFrame) (r : ValidationResult) (c : string) :
  required_columns_result d = Ok r →
  status r ≠ FAIL →
  c ∈ REQUIRED_COLUMNS →
  ∃ s, column_of d c = Some s.
Proof.
  intros Hr Hstatus Hc. apply has_column_true. unfold has_column.
  apply bool_decide_eq_true.
  destruct (decide (missing_of d = ∅)) as [Hnone|Hsome].
  - destruct (decide (c ∈ column_names d)) as [|Hnot]; [done|].
    assert (Hin : c ∈ missing_of d).
    { unfold missing_of. apply elem_of_difference.
      split; by rewrite elem_of_list_to_set. }
    rewrite Hnone in Hin. by apply elem_of_empty in Hin.
  - destruct (required_columns_fail d Hsome) as (r' & Hr' & Hfail & _).
    rewrite Hr in Hr'. injection Hr' as <-. done.
Qed.

Lemma binary_flags_ok_flags (d : DataFrame) (r : ValidationResult) (col : string)
    (s : Series) :
  binary_flags_result d = Ok r →
  status r ≠ FAIL →
  col ∈ TARGET_COL :: FAILURE_MODE_COLS →
  column_of d col = Some s →
  flag_column s = true.
Proof.
  unfold binary_flags_result.
  destruct (non_binary_loop_members (TARGET_COL :: FAILURE_MODE_COLS) d)
    as (l & -> & Hl).
  cbn [mbind result_bind]. intros Hr Hstatus Hcol Hs.
  destruct (flag_column s) eqn:E; [done|].
  assert (Hin : (col, unique s) ∈ l) by (apply Hl; eauto).
  destruct l as [|x l]; [by apply elem_of_nil in Hin|].
  injection Hr as <-. done.
Qed.

Lemma Forall2_elem_l {A B} (P : A → B → Prop) (l : list A) (k : list B) (x : A) :
  Forall2 P l k → x ∈ l → ∃ y, y ∈ k ∧ P x y.
Proof.
  induction 1 as [|a b l k Hab _ IH]; [by intros ?%elem_of_nil|].
  intros [->|Hx]%elem_of_cons.
  - exists b. split; [left|done].
  - destruct (IH Hx) as (y & Hy & HP). exists y. split; [by right|done].
Qed.

Lemma numeric_differences (a b : Series) :
  numeric ((λ p, difference p.1 p.2) <$> zip a b) = true.
Proof.
  unfold numeric. apply forallb_forall. intros c Hc.
  apply list_elem_of_In, list_elem_of_fmap in Hc as ([x y] & -> & _).
  by destruct x, y.
Qed.

Lemma overall_failure_rate_total (d : DataFrame) (target : Series) :
  column_of d TARGET_COL = Some target →
  numeric target = true →
  ∃ o, compute_overall_failure_rate d = Ok o.
Proof.
  intros Ht Hnum. unfold compute_overall_failure_rate.
  rewrite (getitem_column _ _ _ Ht). cbn [mbind result_bind].
  rewrite (series_sum_numeric _ Hnum). cbn [mbind result_bind]. eauto.
Qed.

Lemma temp_delta_stats_total (d : DataFrame) (delta target : Series) :
  column_of d "Temp_Delta [K]" = Some delta →
  numeric delta = true →
  column_of d TARGET_COL = Some target →
  ∃ o f nf, compute_temp_delta_stats d = Ok (stats o f nf).
Proof.
  intros Hdelta Hnum Ht.
  assert (Hhas : has_column d "Temp_Delta [K]" = true) by (apply has_column_true; eauto).
  unfold compute_temp_delta_stats. rewrite Hhas. cbn [negb].
  rewrite (getitem_column _ _ _ Ht), (getitem_column _ _ _ Hdelta).
  cbn [mbind result_bind].
  destruct (series_mean_numeric delta Hnum) as [mu ->].
  destruct (series_median_numeric delta Hnum) as [md ->].
  destruct (series_std_numeric delta Hnum) as (sd & -> & _).
  cbn [mbind result_bind].
  unfold series_min, series_max. rewrite (dropna_numeric delta Hnum).
  cbn [mbind result_bind].
  destruct (group_statistics_numeric (select (eq_scalar target 1) delta))
    as (f & -> & _); [by apply numeric_select|].
  destruct (group_statistics_numeric (select (eq_scalar target 0) delta))
    as (nf & -> & _); [by apply numeric_select|].
  cbn [mbind result_bind]. eauto.
Qed.

(** ** From the checks to the indicators *)

(** X18. The checks guard the rest of the pipeline. When [run_all_checks]
    returns on a well-formed table with at least one row and none of its
    results is FAIL, preprocessing returns a new table, leaving the input as
    it was, and on that table none of the indicators raises: the overall
    failure rate, the failure rate by type, the failure mode counts, the
    statistics of the temperature delta (the statistics, not the error
    message) and the quantile analysis of torque, tool wear and rotational
    speed all return. *)
Theorem checked_table_runs_through
    (h : store) (r : ref) (d : DataFrame) (rs : list ValidationResult) :
  h !! r = Some d →
  wf_df d →
  (0 < len d)%nat →
  (run_all_checks (init d)).1 = Ok rs →
  Forall (λ x, status x ≠ FAIL) rs →
  ∃ r' h' d',
    preprocess_data r h = Some (Ok r', h')
    ∧ h' !! r' = Some d'
    ∧ h' !! r = Some d
    ∧ (∃ o, compute_overall_failure_rate d' = Ok o)
    ∧ (∃ rows, compute_failure_rate_by_type d' = Ok rows)
    ∧ (∃ rows, compute_failure_mode_counts d' = Ok rows)
    ∧ (∃ o f nf, compute_temp_delta_stats d' = Ok (stats o f nf))
    ∧ (∀ col, col ∈ ["Torque [Nm]"; "Tool wear [min]"; "Rotational speed [rpm]"] →
         ∃ q, compute_quantile_failure_rates d' col QUANTILE_LOW QUANTILE_HIGH = Ok q).
Proof.
  intros Hr Hwf Hrows Hrun Hnofail.
  destruct (run_all_checks_inv VALIDATION_RULES (init d) rs Hrun)
    as (r1 & r2 & rr & r4 & r5 & r6 & -> & Hr1 & _ & Hranges & Hr4 & _).
  cbn [df init] in Hr1, Hranges, Hr4.
  apply Forall_app in Hnofail as [Hhead Htail].
  apply Forall_cons in Hhead as [Hs1 _].
  apply Forall_app in Htail as [_ Htail]. apply Forall_cons in Htail as [Hs4 _].
  assert (Hpresent : ∀ c, c ∈ REQUIRED_COLUMNS → ∃ s, column_of d c = Some s).
  { intros c Hc. by apply (required_columns_present d r1). }
  assert (Hnumeric : ∀ col, col ∈ VALIDATION_RULES.*1 →
                            ∃ s, column_of d col = Some s ∧ numeric s = true).
  { intros col Hcol. apply list_elem_of_fmap in Hcol as ([col' rule] & -> & Hrule).
    destruct (Forall2_elem_l _ _ _ _ Hranges Hrule) as (res & _ & Hres). cbn in Hres.
    destruct (Hpresent col') as [s Hs].
    { repeat (apply elem_of_cons in Hrule as [[= -> _]|Hrule]; [compute_done|]).
      by apply elem_of_nil in Hrule. }
    exists s. split; [done|]. apply (range_result_ok_numeric col' rule d s res); [done| |done].
    repeat (apply elem_of_cons in Hrule as [[= _ ->]|Hrule]; [done|]).
    by apply elem_of_nil in Hrule. }
  assert (Hflags : ∀ col, col ∈ TARGET_COL :: FAILURE_MODE_COLS →
                          ∃ s, column_of d col = Some s ∧ flag_column s = true).
  { intros col Hcol. destruct (Hpresent col) as [s Hs].
    { repeat (apply elem_of_cons in Hcol as [->|Hcol]; [compute_done|]).
      by apply elem_of_nil in Hcol. }
    exists s. split; [done|]. by apply (binary_flags_ok_flags d r4 col). }
  destruct (Hnumeric PROCESS_TEMP) as (process & Hp & Hnp); [compute_done|].
  destruct (Hnumeric AIR_TEMP) as (air & Ha & Hna); [compute_done|].
  destruct (Hflags TARGET_COL) as (target & Ht & Htf); [left|].
  destruct (Hpresent "Type") as [types Hty]; [compute_done|].
  set (delta := (λ p, difference p.1 p.2) <$> zip process air).
  set (d' := assign TEMP_DELTA delta d).
  assert (Hother : ∀ c, c ∈ REQUIRED_COLUMNS → column_of d' c = column_of d c).
  { intros c Hc. apply column_of_assign_ne. intros ->. revert Hc. compute_done. }
  assert (Hfresh : h !! fresh (dom h) = None) by (apply not_elem_of_dom, is_fresh).
  exists (fresh (dom h)), (<[fresh (dom h) := d']> h), d'.
  split; [|split; [by apply lookup_insert_eq|split]].
  - unfold preprocess_data. rewrite (add_temp_delta_steps h r d Hr).
    rewrite (getitem_column _ _ _ Hp), (getitem_column _ _ _ Ha).
    cbn [mbind result_bind]. by rewrite (series_sub_numeric _ _ Hnp Hna).
  - rewrite lookup_insert_ne; [done|]. intros E. rewrite E in Hfresh. congruence.
  - assert (Ht' : column_of d' TARGET_COL = Some target).
    { rewrite Hother; [done|compute_done]. }
    split; [by apply (overall_failure_rate_total d' target), flag_column_numeric|].
    split.
    { eexists. apply (failure_rate_by_type_rows d' types target); [|done|].
      - rewrite Hother; [done|compute_done].
      - by apply flag_column_numeric. }
    split.
    { destruct (failure_mode_counts_with_rows d' target) as (rows & Hrows' & _);
        [done|done|by apply flag_column_numeric| |by eauto].
      apply Forall_forall. intros mode Hmode.
      destruct (Hflags mode) as (s & Hs & Hsf); [by right|].
      exists s. split; [|by apply flag_column_numeric].
      rewrite Hother; [done|].
      repeat (apply elem_of_cons in Hmode as [->|Hmode]; [compute_done|]).
      by apply elem_of_nil in Hmode. }
    split.
    { apply (temp_delta_stats_total d' delta target); [|apply numeric_differences|done].
      apply assoc_set_column_eq. }
    intros col Hcol.
    destruct (Hnumeric col) as (s & Hs & Hnum).
    { repeat (apply elem_of_cons in Hcol as [->|Hcol]; [compute_done|]).
      by apply elem_of_nil in Hcol. }
    destruct (quantile_failure_rates_masks (λ _ _, True) d' col s
                QUANTILE_LOW QUANTILE_HIGH) as (q & _ & _ & _ & _ & _ & Hq & _);
      [|done|by vm_compute|by vm_compute|by vm_compute|by vm_compute| |by eauto].
    + rewrite Hother; [done|].
      repeat (apply elem_of_cons in Hcol as [->|Hcol]; [compute_done|]).
      by apply elem_of_nil in Hcol.
    + intros mask label.
      destruct (segment_stats_numeric d' mask label target Ht')
        as (seg & ? & _ & ?); [by apply flag_column_numeric|].
      by exists seg.
Qed.

Lemma checked_table_runs_through_witness :
  ∃ r' h' d',
    preprocess_data 1%positive {[ 1%positive := three_machines ]} = Some (Ok r', h')
    ∧ h' !! r' = Some d'
    ∧ ∃ o f nf, compute_temp_delta_stats d' = Ok (stats o f nf).
Proof.
  assert (Hrun : ∃ rs, (run_all_checks (init three_machines)).1 = Ok rs
                       ∧ Forall (λ x, status x ≠ FAIL) rs).
  { eexists. split; [by vm_compute|]. by repeat constructor. }
  destruct Hrun as (rs & Hrun & Hnofail).
  destruct (checked_table_runs_through {[ 1%positive := three_machines ]} 1%positive
              three_machines rs)
    as (r' & h' & d' & Hpre & Hd' & _ & _ & _ & _ & Hstats & _);
    [done|by compute_done|compute_done|done|done|].
  by exists r', h', d'.
Defined.

(** ** A text in a range-checked column *)

Lemma range_loop_cons (col : string) (r : rule) (rules : list (string * rule))
    (acc : list ValidationResult) (v : DataValidator) :
  range_loop ((col, r) :: rules) acc v
  = match range_result col r (df v) with
    | Ok res =>
        range_loop rules (acc ++ [res])%list
          {| df := df v; results := (results v ++ [res])%list |}
    | Raise e => (Raise e, v)
    end.
Proof.
  cbn [range_loop]. unfold mthen at 1. unfold eval at 1.
  by destruct (range_result col r (df v)).
Qed.

Lemma range_loop_text (before after : list (string * rule)) (col : string) (r : rule)
    (s : Series) (acc : list ValidationResult) (v : DataValidator) :
  ranges_numeric before (df v) = true →
  column_of (df v) col = Some s →
  numeric s = false →
  rule_min r ≠ None →
  ∃ rr, Forall2 (λ rule res, range_result rule.1 rule.2 (df v) = Ok res) before rr
        ∧ range_loop (before ++ (col, r) :: after) acc v
          = (Raise TypeError, {| df := df v; results := (results v ++ rr)%list |}).
Proof.
  intros Hnum Hs Htext Hmin. revert acc v Hnum Hs.
  induction before as [|[c0 r0] before IH]; intros acc v Hnum Hs.
  - exists []. split; [constructor|]. cbn [app]. rewrite range_loop_cons.
    rewrite (range_result_text col r (df v) s Hs Hmin Htext), app_nil_r. by destruct v.
  - cbn [ranges_numeric forallb] in Hnum. apply andb_true_iff in Hnum as [Hc0 Hrest].
    destruct (range_result_total c0 r0 (df v)) as (res & Hres & _).
    { intros s0 Hs0. cbn in Hc0. by rewrite Hs0 in Hc0. }
    destruct (IH (acc ++ [res])%list
                {| df := df v; results := (results v ++ [res])%list |} Hrest Hs)
      as (rr & Hall & Hrun). cbn [df results] in Hall, Hrun.
    exists (res :: rr). split; [by constructor|].
    rewrite <- app_comm_cons, range_loop_cons, Hres, Hrun.
    by rewrite <- app_assoc.
Qed.

(** X19. A text in a range-checked column makes the whole battery raise.
    When the column of some rule with a minimum holds a text, while the
    columns of the rules before it are numeric, [run_all_checks] raises
    [TypeError] instead of reporting a failed check, and the validator is
    left with a partial list of results: Required Columns, Type Domain and
    the range checks before the offending one, without Binary Flags, Failure
    Consistency and Null Values. *)
Theorem run_all_checks_text_column
    (before after : list (string * rule)) (col : string) (r : rule) (s : Series)
    (v : DataValidator) :
  ranges_numeric before (df v) = true →
  column_of (df v) col = Some s →
  numeric s = false →
  rule_min r ≠ None →
  ∃ r1 r2 rr,
    run_all_checks_with (before ++ (col, r) :: after) v
    = (Raise TypeError, {| df := df v; results := ([r1; r2] ++ rr)%list |})
    ∧ required_columns_result (df v) = Ok r1
    ∧ type_domain_result (df v) = Ok r2
    ∧ Forall2 (λ rule res, range_result rule.1 rule.2 (df v) = Ok res) before rr.
Proof.
  intros Hnum Hs Htext Hmin.
  destruct (required_columns_total (df v)) as (r1 & Hr1 & _).
  destruct (type_domain_total (df v)) as (r2 & Hr2 & _).
  destruct (range_loop_text before after col r s []
              {| df := df v; results := [r1; r2] |} Hnum Hs Htext Hmin)
    as (rr & Hall & Hrun). cbn [df results] in Hall, Hrun.
  exists r1, r2, rr. split; [|done].
  unfold run_all_checks_with, check_required_columns, check_type_domain,
    check_numeric_ranges_with, reset_results.
  unfold mthen at 1. unfold mthen at 1.
  rewrite (record_check_ok _ _ r1) by done. cbn [df results app].
  unfold mthen at 1. rewrite (record_check_ok _ _ r2) by done. cbn [df results app].
  unfold mthen at 1. by rewrite Hrun.
Qed.

Lemma run_all_checks_text_column_witness :
  ∃ r1 r2 r3,
    run_all_checks
      (init (assign "Tool wear [min]" [Num 0; Str "worn"; Num 5] three_machines))
    = (Raise TypeError,
       {| df := assign "Tool wear [min]" [Num 0; Str "worn"; Num 5] three_machines;
          results := [r1; r2; r3] |}).
Proof.
  destruct (run_all_checks_text_column
              [("Torque [Nm]",
                {| rule_min := Some 0%Z; rule_max := None; strict_positive := false |})]
              [("Rotational speed [rpm]",
                {| rule_min := Some 0%Z; rule_max := None; strict_positive := true |});
               ("Air temperature [K]",
                {| rule_min := Some 0%Z; rule_max := None; strict_positive := true |});
               ("Process temperature [K]",
                {| rule_min := Some 0%Z; rule_max := None; strict_positive := true |})]
              "Tool wear [min]"
              {| rule_min := Some 0%Z; rule_max := None; strict_positive := false |}
              [Num 0; Str "worn"; Num 5]
              (init (assign "Tool wear [min]" [Num 0; Str "worn"; Num 5] three_machines)))
    as (r1 & r2 & rr & Hrun & _ & _ & Hall); [done|done|done|done|].
  apply Forall2_cons_inv_l in Hall as (r3 & rr' & _ & Hnil & ->).
  apply Forall2_nil_inv_l in Hnil as ->.
  by exists r1, r2, r3.
Defined.
